(** * Custody architecture: PuzzleWithRestrictions / MofN drivers

    A shallow embedding of
    [chia/wallet/puzzles/custody/custody_architecture.py]: the puzzle
    hints, the Unknown leaves, the m-of-n Merkle proof generator and the
    [PuzzleWithRestrictions] tree with its memo format, its commitment
    hash and its fill-in transform, followed by the properties of the
    specification that concern them. *)

From Stdlib Require Import ZArith List Lia Bool.
From Stdlib Require Import Strings.Byte Strings.String.
From stdpp Require Import base option list gmap.

Set Warnings "-register-all".
Local Open Scope Z_scope.

(** ** Python exceptions and fallible results *)

Inductive error : Type :=
  | ValueError
  | NotImplementedError
  | AssertionError
  | IndexError
  | KeyError
  | AttributeError
  | TypeError
  | RecursionError.

Inductive result (A : Type) : Type :=
  | Ok (a : A)
  | Err (e : error).
Arguments Ok {A} a.
Arguments Err {A} e.

#[global] Instance result_ret : MRet result := fun A a => Ok a.
#[global] Instance result_bind : MBind result := fun A B f r =>
  match r with
  | Ok a => f a
  | Err e => Err e
  end.
#[global] Instance result_fmap : FMap result := fun A B f r =>
  match r with
  | Ok a => Ok (f a)
  | Err e => Err e
  end.

Definition is_Ok {A} (r : result A) : Prop := exists a, r = Ok a.

(** ** Bytes and the clvm integer casts *)

Abbreviation bytes := (list byte).

(** [bytes32] values are byte strings; the length check of the
    [bytes32(...)] constructor is [to_bytes32]. *)
Abbreviation bytes32 := (list byte).

#[global] Instance byte_eq_dec : EqDecision byte := Byte.byte_eq_dec.
#[global] Instance byte_countable : Countable byte :=
  inj_countable Byte.to_N Byte.of_N Byte.of_to_N.

Definition to_bytes32 (b : bytes) : result bytes32 :=
  if decide (length b = 32%nat) then Ok b else Err ValueError.

Definition Z_of_byte (b : byte) : Z := Z.of_N (Byte.to_N b).

Definition byte_of_Z (z : Z) : byte :=
  match Byte.of_N (Z.to_N (z mod 256)) with
  | Some b => b
  | None => x00
  end.

(** [int.from_bytes(blob, "big", signed=False)] *)
Definition unsigned_be (blob : bytes) : Z :=
  fold_left (fun acc b => acc * 256 + Z_of_byte b) blob 0.

(** [v.to_bytes(n, "big", signed=True)], for a [v] that fits. *)
Fixpoint to_bytes_be (n : nat) (v : Z) : bytes :=
  match n with
  | O => []
  | S n' => to_bytes_be n' (v / 256) ++ [byte_of_Z v]
  end.

(** [int.bit_length] *)
Definition bit_length (v : Z) : Z :=
  if decide (v = 0) then 0 else Z.log2 (Z.abs v) + 1.

(** The loop of [int_to_bytes] that makes the encoding minimal:
    [while len(r) > 1 and r[0] == (0xFF if r[1] & 0x80 else 0): r = r[1:]] *)
Fixpoint strip_redundant (r : bytes) : bytes :=
  match r with
  | b0 :: ((b1 :: _) as r') =>
      if decide (Z_of_byte b0 = (if Z.testbit (Z_of_byte b1) 7 then 255 else 0))
      then strip_redundant r'
      else r
  | _ => r
  end.

(** [clvm.casts.int_to_bytes] *)
Definition int_to_bytes (v : Z) : bytes :=
  let byte_count := (bit_length v + 8) / 8 in
  if decide (v = 0) then []
  else strip_redundant (to_bytes_be (Z.to_nat byte_count) v).

(** [clvm.casts.int_from_bytes] *)
Definition int_from_bytes (blob : bytes) : Z :=
  let size := length blob in
  if decide (size = 0%nat) then 0
  else
    let u := unsigned_be blob in
    if decide (2 ^ (8 * Z.of_nat size - 1) <= u)
    then u - 2 ^ (8 * Z.of_nat size)
    else u.

(** ** Programs (clvm S-expressions) and the [Program.to] cast *)

(** Modelled from the spec: [Program] (chia.types.blockchain_format.program,
    built on the clvm S-expression type) is missing from the sources. A
    program is a binary tree whose leaves are byte strings; the accessors
    and the cast below are the ones the custody drivers call on it. *)
Inductive Program : Type :=
  | Atom (a : bytes)
  | Pair (first rest : Program).

#[global] Instance Program_eq_dec : EqDecision Program.
Proof. solve_decision. Defined.

(** The Python values handed to [Program.to] by the drivers. *)
Inductive PyVal : Type :=
  | PyNone
  | PyInt (z : Z)
  | PyBool (b : bool)
  | PyBytes (b : bytes)
  | PyStr (s : string)
  | PyProg (p : Program)
  | PyTuple (a b : PyVal)
  | PyList (l : list PyVal).

Definition Program_nil : Program := Atom [].

(** [Program.to]: [None] and the empty list are the empty atom, integers
    (booleans among them) are cast by [int_to_bytes], a 2-tuple is a pair
    and a list is a nil-terminated chain of pairs. *)
Fixpoint Program_to (v : PyVal) : Program :=
  match v with
  | PyNone => Program_nil
  | PyInt z => Atom (int_to_bytes z)
  | PyBool b => Atom (int_to_bytes (if b then 1 else 0))
  | PyBytes b => Atom b
  | PyStr s => Atom (list_byte_of_string s)
  | PyProg p => p
  | PyTuple a b => Pair (Program_to a) (Program_to b)
  | PyList l =>
      (fix go (l : list PyVal) : Program :=
         match l with
         | [] => Program_nil
         | x :: l' => Pair (Program_to x) (go l')
         end) l
  end.

(** [prog.atom]: [None] on a pair. *)
Definition atom (p : Program) : option bytes :=
  match p with
  | Atom a => Some a
  | Pair _ _ => None
  end.

(** [prog.as_iter()]: the elements of the chain of pairs, whatever atom
    ends it. *)
Fixpoint as_iter (p : Program) : list Program :=
  match p with
  | Pair a b => a :: as_iter b
  | Atom _ => []
  end.

(** [bytes32(prog.as_atom())] *)
Definition as_bytes32 (p : Program) : result bytes32 :=
  match atom p with
  | Some a => to_bytes32 a
  | None => Err TypeError
  end.

(** [prog.as_int()] *)
Definition as_int (p : Program) : result Z :=
  match atom p with
  | Some a => Ok (int_from_bytes a)
  | None => Err TypeError
  end.

(** A list comprehension [[f(x) for x in l if cond(x)]] whose condition
    and body may raise. *)
Definition comprehension {A B} (cond : A -> result bool) (f : A -> result B)
  : list A -> result (list B) :=
  fix go (l : list A) : result (list B) :=
    match l with
    | [] => Ok []
    | x :: l' =>
        c ← cond x;
        if (c : bool) then y ← f x; ys ← go l'; Ok (y :: ys) else go l'
    end.

(** ** Hints *)

Module PuzzleHint.
Record t : Type := mk { puzhash : bytes32; memo : Program }.

Definition to_program (self : t) : Program :=
  Program_to (PyList [PyBytes (puzhash self); PyProg (memo self)]).

Definition from_program (prog : Program) : result t :=
  match as_iter prog with
  | [puzhash; memo] => h ← as_bytes32 puzhash; Ok (mk h memo)
  | _ => Err ValueError
  end.
End PuzzleHint.

Module RestrictionHint.
Record t : Type :=
  mk { morpher_not_validator : bool; puzhash : bytes32; memo : Program }.

Definition to_program (self : t) : Program :=
  Program_to (PyList [PyBool (morpher_not_validator self);
                      PyBytes (puzhash self); PyProg (memo self)]).

Definition from_program (prog : Program) : result t :=
  match as_iter prog with
  | [morpher_not_validator; puzhash; memo] =>
      h ← as_bytes32 puzhash;
      Ok (mk (bool_decide (morpher_not_validator ≠ Program_to PyNone)) h memo)
  | _ => Err ValueError
  end.
End RestrictionHint.

Module MofNHint.
Record t : Type := mk { m : Z; member_memos : list Program }.

Definition to_program (self : t) : Program :=
  Program_to (PyList [PyInt (m self); PyList (PyProg <$> member_memos self)]).

Definition from_program (prog : Program) : result t :=
  match as_iter prog with
  | [m; member_memos] => z ← as_int m; Ok (mk z (as_iter member_memos))
  | _ => Err ValueError
  end.
End MofNHint.

Module ProvenSpend.
Record t : Type := mk { puzzle_reveal : Program; solution : Program }.
End ProvenSpend.

(** ** Puzzles *)

(** Any implementation of the [Puzzle] protocol other than the three
    classes of this file: its three methods, and its
    [morpher_not_validator] attribute when it is a [Restriction]. *)
Record KnownPuzzle : Type :=
  mkKnown {
    known_morpher_not_validator : option bool;
    known_memo : Z -> Program;
    known_puzzle : Z -> Program;
    known_puzzle_hash : Z -> bytes32
  }.

(** The objects found in a custody tree. The restrictions of a node are
    typed [Restriction] in the source but [fill_in_unknown_puzzles] puts
    any registry entry there, so they are any object. *)
Inductive Puzzle : Type :=
  | Known (k : KnownPuzzle)
  | UnknownPuzzle (puzzle_hint : PuzzleHint.t)
  | UnknownRestriction (restriction_hint : RestrictionHint.t)
  | MofN (m : Z) (members : list PuzzleWithRestrictions)
with PuzzleWithRestrictions : Type :=
  | PWR (nonce : Z) (restrictions : list Puzzle) (puzzle : Puzzle).

Definition nonce (t : PuzzleWithRestrictions) : Z :=
  match t with PWR n _ _ => n end.
Definition restrictions (t : PuzzleWithRestrictions) : list Puzzle :=
  match t with PWR _ rs _ => rs end.
Definition puzzle (t : PuzzleWithRestrictions) : Puzzle :=
  match t with PWR _ _ p => p end.

Definition spec_namespace : string := "inner_puzzle_chip?".

(** [obj.morpher_not_validator] *)
Definition morpher_not_validator (p : Puzzle) : result bool :=
  match p with
  | Known k =>
      match known_morpher_not_validator k with
      | Some b => Ok b
      | None => Err AttributeError
      end
  | UnknownRestriction h => Ok (RestrictionHint.morpher_not_validator h)
  | UnknownPuzzle _ | MofN _ _ => Err AttributeError
  end.

(** [obj.memo(nonce)] *)
Definition Puzzle_memo (p : Puzzle) (nonce : Z) : result Program :=
  match p with
  | Known k => Ok (known_memo k nonce)
  | UnknownPuzzle h => Ok (PuzzleHint.memo h)
  | UnknownRestriction h => Ok (RestrictionHint.memo h)
  | MofN _ _ => Err NotImplementedError
  end.

Definition is_MofN (p : Puzzle) : bool :=
  match p with MofN _ _ => true | _ => false end.

Section Custody.

(** *** What the drivers take from the rest of the code base *)

(** [std_hash], the SHA-256 of a byte string: a [bytes32]. *)
Variable sha256 : bytes -> bytes32.
Hypothesis sha256_bytes32 : forall x, length (sha256 x) = 32%nat.

(** The compiled puzzles [m_of_n.clsp], [1_of_n.clsp] and
    [restrictions.clsp]. *)
Variable MofN_MOD : Program.
Variable OneOfN_MOD : Program.
Variable RESTRICTION_MOD : Program.

(** [MerkleTree.calculate_root] and [MerkleTree.generate_proof], as
    functions of the tree's [nodes]; the second returns the tuple whose
    components [proof[0]] and [proof[1]] the 1-of-n driver reads. *)
Variable calculate_root : list bytes32 -> result bytes32.
Variable generate_proof : list bytes32 -> bytes32 -> result (PyVal * list PyVal).

(** Modelled from the spec: [hash_an_atom] and [hash_a_pair]
    (chia.wallet.util.merkle_tree) are missing from the sources: the
    content hasher hashes a single value and hashes a pair of hashes, with
    the prefixes of the clvm tree hash. *)
Definition hash_an_atom (a : bytes32) : bytes32 := sha256 (x01 :: a).
Definition hash_a_pair (left right : bytes32) : bytes32 :=
  sha256 (x02 :: left ++ right).

(** Modelled from the spec: [Program.get_tree_hash_precalc] is missing
    from the sources: the tree hash of a program in which every atom equal
    to one of the [precalculated] values stands for a subtree already
    hashed to that value. *)
Fixpoint get_tree_hash_precalc (precalculated : list bytes32) (p : Program)
  : bytes32 :=
  match p with
  | Atom a => if decide (a ∈ precalculated) then a else sha256 (x01 :: a)
  | Pair l r =>
      sha256 (x02 :: get_tree_hash_precalc precalculated l
                  ++ get_tree_hash_precalc precalculated r)
  end.

Definition get_tree_hash (p : Program) : bytes32 :=
  get_tree_hash_precalc [] p.

(** Modelled from the spec: [Program.curry] is missing from the sources:
    the template applied to its quoted arguments,
    [(a (q . mod) (c (q . arg1) (c (q . arg2) ... 1)))]. *)
Definition curry (self : Program) (args : list PyVal) : Program :=
  let fixed_args :=
    fold_right (fun arg fixed_args =>
                  PyList [PyInt 4; PyTuple (PyInt 1) arg; fixed_args])
               (PyInt 1) args in
  Program_to (PyList [PyInt 2; PyTuple (PyInt 1) (PyProg self); fixed_args]).

Definition RESTRICTION_MOD_HASH : bytes32 := get_tree_hash RESTRICTION_MOD.

(** [(mod (INDEX INNER_PUZZLE . inner_solution) (a INNER_PUZZLE inner_solution))] *)
Definition INDEX_WRAPPER : Program :=
  Program_to (PyList [PyInt 2; PyInt 5; PyInt 7]).

(** *** The m-of-n Merkle tree *)

(** Modelled from the spec: [MerkleTree.split_list] is missing from the
    sources: the list of leaf hashes is split in half, the first half
    taking the extra leaf of an odd list. *)
Definition split_list (puzzle_hashes : list bytes32)
  : list bytes32 * list bytes32 :=
  let mid_index := (S (length puzzle_hashes) / 2)%nat in
  (take mid_index puzzle_hashes, drop mid_index puzzle_hashes).

(** [MofNMerkleTree._m_of_n_proof]. The recursion depth is the fuel: a
    call that exhausts it raises [RecursionError]. *)
Fixpoint _m_of_n_proof (fuel : nat) (puzzle_hashes : list bytes32)
    (spends_to_prove : gmap bytes32 ProvenSpend.t) : result Program :=
  match fuel with
  | O => Err RecursionError
  | S fuel' =>
      match puzzle_hashes with
      | [leaf] =>
          match spends_to_prove !! leaf with
          | Some spend_to_prove =>
              Ok (Program_to
                    (PyTuple PyNone
                       (PyTuple (PyProg (ProvenSpend.puzzle_reveal spend_to_prove))
                                (PyProg (ProvenSpend.solution spend_to_prove)))))
          | None => Ok (Program_to (PyBytes (hash_an_atom leaf)))
          end
      | _ =>
          let '(first, rest) := split_list puzzle_hashes in
          first_proof ← _m_of_n_proof fuel' first spends_to_prove;
          rest_proof ← _m_of_n_proof fuel' rest spends_to_prove;
          match atom first_proof, atom rest_proof with
          | Some first_atom, Some rest_atom =>
              l ← to_bytes32 first_atom;
              r ← to_bytes32 rest_atom;
              Ok (Program_to (PyBytes (hash_a_pair l r)))
          | _, _ =>
              Ok (Program_to (PyTuple (PyProg first_proof) (PyProg rest_proof)))
          end
      end
  end.

(** [MofNMerkleTree.generate_m_of_n_proof]: a tree over [n] leaves is
    never deeper than [n], so this fuel runs out on the empty tree only,
    where the recursion of the source does not end. *)
Definition generate_m_of_n_proof (nodes : list bytes32)
    (spends_to_prove : gmap bytes32 ProvenSpend.t) : result Program :=
  _m_of_n_proof (length nodes) nodes spends_to_prove.

(** *** Commitment hashes *)

(** [MofN.puzzle], from the hashes of the members. *)
Definition MofN_puzzle_of_nodes (m : Z) (nodes : list bytes32)
  : result Program :=
  if decide (m > 1)
  then root ← calculate_root nodes;
       Ok (curry MofN_MOD [PyInt m; PyBytes root])
  else root ← calculate_root nodes;
       Ok (curry OneOfN_MOD [PyBytes root]).

(** The two wraps of [PuzzleWithRestrictions.puzzle_hash]. *)
Definition restriction_wrap_hash (morpher_hashes validator_hashes : list bytes32)
    (inner_puzzle_hash : bytes32) : bytes32 :=
  get_tree_hash_precalc
    (morpher_hashes ++ validator_hashes
       ++ [RESTRICTION_MOD_HASH; inner_puzzle_hash])
    (curry (Program_to (PyBytes RESTRICTION_MOD_HASH))
       [PyList (PyBytes <$> morpher_hashes);
        PyList (PyBytes <$> validator_hashes);
        PyBytes inner_puzzle_hash]).

Definition index_wrap_hash (nonce : Z) (restricted_inner_puzzle_hash : bytes32)
  : bytes32 :=
  get_tree_hash_precalc [restricted_inner_puzzle_hash]
    (curry INDEX_WRAPPER [PyInt nonce; PyBytes restricted_inner_puzzle_hash]).

(** [obj.puzzle_hash(nonce)] and [PuzzleWithRestrictions.puzzle_hash] *)
Fixpoint Puzzle_puzzle_hash (p : Puzzle) (nonce : Z) {struct p}
  : result bytes32 :=
  match p with
  | Known k => Ok (known_puzzle_hash k nonce)
  | UnknownPuzzle h => Ok (PuzzleHint.puzhash h)
  | UnknownRestriction h => Ok (RestrictionHint.puzhash h)
  | MofN m members =>
      nodes ← mapM puzzle_hash members;
      get_tree_hash <$> MofN_puzzle_of_nodes m nodes
  end
with puzzle_hash (self : PuzzleWithRestrictions) {struct self}
  : result bytes32 :=
  match self with
  | PWR nonce restrictions puzzle =>
      inner_puzzle_hash ← Puzzle_puzzle_hash puzzle nonce;
      restricted_inner_puzzle_hash ←
        (if decide (0 < length restrictions)%nat
         then
           morpher_hashes ←
             comprehension morpher_not_validator
               (fun restriction => Puzzle_puzzle_hash restriction nonce)
               restrictions;
           validator_hashes ←
             comprehension (fun restriction =>
                              negb <$> morpher_not_validator restriction)
               (fun restriction => Puzzle_puzzle_hash restriction nonce)
               restrictions;
           Ok (restriction_wrap_hash morpher_hashes validator_hashes
                 inner_puzzle_hash)
         else Ok inner_puzzle_hash);
      Ok (index_wrap_hash nonce restricted_inner_puzzle_hash)
  end.

(** [MofN._merkle_tree.nodes] *)
Definition MofN_nodes (members : list PuzzleWithRestrictions)
  : result (list bytes32) :=
  mapM puzzle_hash members.

(** The constructor of [MofN] with its [__post_init__]. *)
Definition MofN_new (m : Z) (members : list PuzzleWithRestrictions)
  : result Puzzle :=
  nodes ← MofN_nodes members;
  if decide (length (remove_dups nodes) ≠ length nodes)
  then Err ValueError
  else Ok (MofN m members).

(** [MofN.generate_proof] *)
Definition MofN_generate_proof (m : Z) (members : list PuzzleWithRestrictions)
    (spends_to_prove : gmap bytes32 ProvenSpend.t) : result Program :=
  if decide (Z.of_nat (size spends_to_prove) ≠ m) then Err AssertionError
  else if decide (m > 1) then
    nodes ← MofN_nodes members;
    generate_m_of_n_proof nodes spends_to_prove
  else
    match (map_to_list spends_to_prove).*1 with
    | [] => Err IndexError
    | only_key :: _ =>
        match spends_to_prove !! only_key with
        | None => Err KeyError
        | Some proven_spend =>
            nodes ← MofN_nodes members;
            proof ← generate_proof nodes only_key;
            match proof.2 with
            | [] => Err IndexError
            | proof_1_0 :: _ =>
                Ok (Program_to
                      (PyList [PyTuple proof.1 proof_1_0;
                               PyProg (ProvenSpend.puzzle_reveal proven_spend);
                               PyProg (ProvenSpend.solution proven_spend)]))
            end
        end
    end.

(** [obj.puzzle(nonce)] *)
Definition Puzzle_puzzle (p : Puzzle) (nonce : Z) : result Program :=
  match p with
  | Known k => Ok (known_puzzle k nonce)
  | UnknownPuzzle _ => Err NotImplementedError
  | UnknownRestriction _ => Err NotImplementedError
  | MofN m members =>
      nodes ← MofN_nodes members;
      MofN_puzzle_of_nodes m nodes
  end.

(** [PuzzleWithRestrictions.puzzle_reveal] *)
Definition puzzle_reveal (self : PuzzleWithRestrictions) : result Program :=
  inner_puzzle ← Puzzle_puzzle (puzzle self) (nonce self);
  restricted_inner_puzzle ←
    (if decide (0 < length (restrictions self))%nat
     then
       morphers ←
         comprehension morpher_not_validator
           (fun restriction => Puzzle_puzzle restriction (nonce self))
           (restrictions self);
       validators ←
         comprehension (fun restriction =>
                          negb <$> morpher_not_validator restriction)
           (fun restriction => Puzzle_puzzle restriction (nonce self))
           (restrictions self);
       Ok (curry RESTRICTION_MOD
             [PyList (PyProg <$> morphers); PyList (PyProg <$> validators);
              PyProg inner_puzzle])
     else Ok inner_puzzle);
  Ok (curry INDEX_WRAPPER [PyInt (nonce self); PyProg restricted_inner_puzzle]).

(** *** Memos *)

(** The hint of one restriction, as [memo] builds it. *)
Definition restriction_hint_of (nonce : Z) (restriction : Puzzle)
  : result RestrictionHint.t :=
  b ← morpher_not_validator restriction;
  h ← Puzzle_puzzle_hash restriction nonce;
  mm ← Puzzle_memo restriction nonce;
  Ok (RestrictionHint.mk b h mm).

(** [PuzzleWithRestrictions.memo] *)
Fixpoint memo (self : PuzzleWithRestrictions) : result Program :=
  match self with
  | PWR nonce restrictions puzzle =>
      restriction_hints ← mapM (restriction_hint_of nonce) restrictions;
      puzzle_hint ←
        match puzzle with
        | MofN m members =>
            member_memos ← mapM memo members;
            Ok (MofNHint.to_program (MofNHint.mk m member_memos))
        | _ =>
            h ← Puzzle_puzzle_hash puzzle nonce;
            mm ← Puzzle_memo puzzle nonce;
            Ok (PuzzleHint.to_program (PuzzleHint.mk h mm))
        end;
      Ok (Program_to
            (PyTuple (PyStr spec_namespace)
               (PyList [PyInt nonce;
                        PyList ((fun hint => PyProg (RestrictionHint.to_program hint))
                                  <$> restriction_hints);
                        PyInt (if is_MofN puzzle then 1 else 0);
                        PyProg puzzle_hint])))
  end.

(** The number of nodes of a program: it bounds the depth of the
    recursion of [from_memo]. *)
Fixpoint Program_size (p : Program) : nat :=
  match p with
  | Atom _ => 1
  | Pair l r => S (Program_size l + Program_size r)
  end.

(** [PuzzleWithRestrictions.from_memo], with its recursion depth as fuel. *)
Fixpoint from_memo_fuel (fuel : nat) (memo : Program)
  : result PuzzleWithRestrictions :=
  match fuel with
  | O => Err RecursionError
  | S fuel' =>
      match memo with
      | Atom _ => Err ValueError
      | Pair memo_first memo_rest =>
          if decide (memo_first ≠ Program_to (PyStr spec_namespace))
          then Err ValueError
          else
            match as_iter memo_rest with
            | [nonce; restriction_hints_prog; further_branching_prog;
               puzzle_hint_prog] =>
                restriction_hints ←
                  mapM RestrictionHint.from_program
                    (as_iter restriction_hints_prog);
                let further_branching :=
                  bool_decide (further_branching_prog ≠ Program_to PyNone) in
                puzzle ←
                  (if further_branching
                   then
                     m_of_n_hint ← MofNHint.from_program puzzle_hint_prog;
                     members ← mapM (from_memo_fuel fuel')
                                 (MofNHint.member_memos m_of_n_hint);
                     MofN_new (MofNHint.m m_of_n_hint) members
                   else
                     puzzle_hint ← PuzzleHint.from_program puzzle_hint_prog;
                     Ok (UnknownPuzzle puzzle_hint));
                n ← as_int nonce;
                Ok (PWR n (UnknownRestriction <$> restriction_hints) puzzle)
            | _ => Err ValueError
            end
      end
  end.

Definition from_memo (memo : Program) : result PuzzleWithRestrictions :=
  from_memo_fuel (Program_size memo) memo.

(** *** Filling in unknown leaves *)

(** [PuzzleWithRestrictions.fill_in_unknown_puzzles]; [replace] builds the
    new [MofN] through its constructor. *)
Fixpoint fill_in_unknown_puzzles (self : PuzzleWithRestrictions)
    (puzzle_dict : gmap bytes32 Puzzle) : result PuzzleWithRestrictions :=
  match self with
  | PWR nonce restrictions puzzle =>
      let new_restrictions :=
        (fun restriction =>
           match restriction with
           | UnknownRestriction h =>
               match puzzle_dict !! RestrictionHint.puzhash h with
               | Some new => new
               | None => restriction
               end
           | _ => restriction
           end) <$> restrictions in
      new_puzzle ←
        match puzzle with
        | UnknownPuzzle h =>
            match puzzle_dict !! PuzzleHint.puzhash h with
            | Some new => Ok new
            | None => Ok puzzle
            end
        | MofN m members =>
            new_members ←
              mapM (fun puz => fill_in_unknown_puzzles puz puzzle_dict) members;
            MofN_new m new_members
        | _ => Ok puzzle
        end;
      Ok (PWR nonce new_restrictions new_puzzle)
  end.

(** *** Shapes of trees *)

(** A [Known] leaf is an implementation of the protocol as it is typed:
    its [puzzle_hash] returns a [bytes32]. *)
Definition typed_known (k : KnownPuzzle) : Prop :=
  forall nonce, length (known_puzzle_hash k nonce) = 32%nat.

(** A [Known] restriction also has the [morpher_not_validator] attribute. *)
Definition known_restriction (r : Puzzle) : Prop :=
  exists k b, r = Known k /\ known_morpher_not_validator k = Some b
              /\ typed_known k.

(** Trees built from [Known] leaves only: [Known] restrictions, and an
    inner puzzle that is [Known] or an [MofN] over such trees. *)
Inductive known_tree : PuzzleWithRestrictions -> Prop :=
  | known_tree_PWR nonce restrictions puzzle :
      Forall known_restriction restrictions ->
      known_inner puzzle ->
      known_tree (PWR nonce restrictions puzzle)
with known_inner : Puzzle -> Prop :=
  | known_inner_Known k : typed_known k -> known_inner (Known k)
  | known_inner_MofN m members :
      Forall known_tree members -> known_inner (MofN m members).

(** Trees in which every leaf is an [UnknownRestriction] or an
    [UnknownPuzzle]. *)
Inductive unknown_tree : PuzzleWithRestrictions -> Prop :=
  | unknown_tree_PWR nonce restrictions puzzle :
      Forall (fun r => exists h, r = UnknownRestriction h) restrictions ->
      unknown_inner puzzle ->
      unknown_tree (PWR nonce restrictions puzzle)
with unknown_inner : Puzzle -> Prop :=
  | unknown_inner_UnknownPuzzle h : unknown_inner (UnknownPuzzle h)
  | unknown_inner_MofN m members :
      Forall unknown_tree members -> unknown_inner (MofN m members).

(** Trees that the constructors of the source can build: every [MofN]
    inside passed its [__post_init__]. *)
Inductive constructed : PuzzleWithRestrictions -> Prop :=
  | constructed_PWR nonce restrictions puzzle :
      Forall constructed_puzzle restrictions ->
      constructed_puzzle puzzle ->
      constructed (PWR nonce restrictions puzzle)
with constructed_puzzle : Puzzle -> Prop :=
  | constructed_Known k : constructed_puzzle (Known k)
  | constructed_UnknownPuzzle h : constructed_puzzle (UnknownPuzzle h)
  | constructed_UnknownRestriction h :
      constructed_puzzle (UnknownRestriction h)
  | constructed_MofN m members :
      Forall constructed members ->
      MofN_new m members = Ok (MofN m members) ->
      constructed_puzzle (MofN m members).

(** The shape of an m-of-n proof over a list of leaf hashes: a proven
    leaf is revealed, any other leaf is its atom hash, a node over two
    atoms collapses to the hash of the pair and any other node is the
    pair of the proofs of its halves. *)
Inductive proof_shape (spends_to_prove : gmap bytes32 ProvenSpend.t)
  : list bytes32 -> Program -> Prop :=
  | shape_reveal leaf spend :
      spends_to_prove !! leaf = Some spend ->
      proof_shape spends_to_prove [leaf]
        (Pair Program_nil
           (Pair (ProvenSpend.puzzle_reveal spend) (ProvenSpend.solution spend)))
  | shape_hash leaf :
      spends_to_prove !! leaf = None ->
      proof_shape spends_to_prove [leaf] (Atom (hash_an_atom leaf))
  | shape_collapse puzzle_hashes first rest a b :
      length puzzle_hashes <> 1%nat ->
      split_list puzzle_hashes = (first, rest) ->
      proof_shape spends_to_prove first (Atom a) ->
      proof_shape spends_to_prove rest (Atom b) ->
      proof_shape spends_to_prove puzzle_hashes (Atom (hash_a_pair a b))
  | shape_branch puzzle_hashes first rest first_proof rest_proof :
      length puzzle_hashes <> 1%nat ->
      split_list puzzle_hashes = (first, rest) ->
      proof_shape spends_to_prove first first_proof ->
      proof_shape spends_to_prove rest rest_proof ->
      atom first_proof = None \/ atom rest_proof = None ->
      proof_shape spends_to_prove puzzle_hashes (Pair first_proof rest_proof).

(** What [fill_in_unknown_puzzles] may change: a restriction stays or,
    being an [UnknownRestriction], becomes the registry entry of its hash;
    an inner puzzle stays or, being an [UnknownPuzzle], becomes the
    registry entry of its hash, or, being an [MofN], has its members
    filled in. Nonces, [m] and the order of restrictions and members are
    kept. *)
Definition filled_restriction (puzzle_dict : gmap bytes32 Puzzle)
    (old new : Puzzle) : Prop :=
  new = old
  \/ exists h, old = UnknownRestriction h
               /\ puzzle_dict !! RestrictionHint.puzhash h = Some new.

Inductive filled (puzzle_dict : gmap bytes32 Puzzle)
  : PuzzleWithRestrictions -> PuzzleWithRestrictions -> Prop :=
  | filled_PWR nonce restrictions restrictions' puzzle puzzle' :
      Forall2 (filled_restriction puzzle_dict) restrictions restrictions' ->
      filled_puzzle puzzle_dict puzzle puzzle' ->
      filled puzzle_dict (PWR nonce restrictions puzzle)
        (PWR nonce restrictions' puzzle')
with filled_puzzle (puzzle_dict : gmap bytes32 Puzzle)
  : Puzzle -> Puzzle -> Prop :=
  | filled_unchanged puzzle : filled_puzzle puzzle_dict puzzle puzzle
  | filled_UnknownPuzzle h new :
      puzzle_dict !! PuzzleHint.puzhash h = Some new ->
      filled_puzzle puzzle_dict (UnknownPuzzle h) new
  | filled_MofN m members members' :
      Forall2 (filled puzzle_dict) members members' ->
      filled_puzzle puzzle_dict (MofN m members) (MofN m members').

(** Objects that a registry leaves alone: as a restriction, anything but
    an [UnknownRestriction] whose hash is a key; as an inner puzzle,
    anything but an [UnknownPuzzle] whose hash is a key, an [MofN] being
    left alone when its members are and it is one the constructor
    accepts. *)
Definition settled_restriction (puzzle_dict : gmap bytes32 Puzzle)
    (r : Puzzle) : Prop :=
  forall h, r = UnknownRestriction h ->
            puzzle_dict !! RestrictionHint.puzhash h = None.

Inductive settled (puzzle_dict : gmap bytes32 Puzzle)
  : PuzzleWithRestrictions -> Prop :=
  | settled_PWR nonce restrictions puzzle :
      Forall (settled_restriction puzzle_dict) restrictions ->
      settled_puzzle puzzle_dict puzzle ->
      settled puzzle_dict (PWR nonce restrictions puzzle)
with settled_puzzle (puzzle_dict : gmap bytes32 Puzzle) : Puzzle -> Prop :=
  | settled_Known k : settled_puzzle puzzle_dict (Known k)
  | settled_UnknownRestriction h :
      settled_puzzle puzzle_dict (UnknownRestriction h)
  | settled_UnknownPuzzle h :
      puzzle_dict !! PuzzleHint.puzhash h = None ->
      settled_puzzle puzzle_dict (UnknownPuzzle h)
  | settled_MofN m members :
      Forall (settled puzzle_dict) members ->
      MofN_new m members = Ok (MofN m members) ->
      settled_puzzle puzzle_dict (MofN m members).

(** A registry none of whose entries it can itself fill in further; a
    registry of [Known] leaves is one. *)
Definition settled_registry (puzzle_dict : gmap bytes32 Puzzle) : Prop :=
  forall key entry,
    puzzle_dict !! key = Some entry ->
    settled_restriction puzzle_dict entry /\ settled_puzzle puzzle_dict entry.

(** *** The byte strings that a tree hash feeds to SHA-256 *)

(** The inputs of [sha256] in the computation of
    [get_tree_hash_precalc precalculated p]: one for every atom that is not
    precalculated and one for every pair. *)
Fixpoint hash_inputs (precalculated : list bytes32) (p : Program)
  : list bytes :=
  match p with
  | Atom a => if decide (a ∈ precalculated) then [] else [x01 :: a]
  | Pair l r =>
      (x02 :: get_tree_hash_precalc precalculated l
           ++ get_tree_hash_precalc precalculated r)
      :: hash_inputs precalculated l ++ hash_inputs precalculated r
  end.

(** [sha256] takes no two of the listed byte strings to the same hash. *)
Definition collision_free (inputs : list bytes) : Prop :=
  forall a b, a ∈ inputs -> b ∈ inputs -> sha256 a = sha256 b -> a = b.

(** A test for it that can be run: the hashes of the different byte
    strings listed are all different. *)
Definition collision_free_test (inputs : list bytes) : Prop :=
  NoDup (sha256 <$> remove_dups inputs).

(** Two programs whose hashes agree at every position that both have:
    pairs match part by part, two atoms that are hashed are equal, and a
    precalculated atom matches whatever hashes to it. *)
Fixpoint hashes_match (S S' : list bytes32) (p q : Program) : Prop :=
  get_tree_hash_precalc S p = get_tree_hash_precalc S' q
  /\ match p with
     | Atom a =>
         match q with
         | Atom b => a ∈ S \/ b ∈ S' \/ a = b
         | Pair _ _ => a ∈ S
         end
     | Pair l r =>
         match q with
         | Atom b => b ∈ S'
         | Pair l' r' => hashes_match S S' l l' /\ hashes_match S S' r r'
         end
     end.

(** The inputs of [sha256] in the index wrap of a hash. *)
Definition wrap_inputs (nonce : Z) (restricted_inner_puzzle_hash : bytes32)
  : list bytes :=
  hash_inputs [restricted_inner_puzzle_hash]
    (curry INDEX_WRAPPER [PyInt nonce; PyBytes restricted_inner_puzzle_hash]).

(** The inputs of [sha256] in the two commitments of a node without
    restrictions that are compared, the one with and the one without a
    restriction layer over no restriction, and in the tree hashes of the
    inner puzzle and of that layer over it. *)
Definition no_layer_inputs (nonce : Z) (inner_puzzle : Program)
  : list bytes :=
  wrap_inputs nonce (get_tree_hash inner_puzzle)
  ++ wrap_inputs nonce
       (restriction_wrap_hash [] [] (get_tree_hash inner_puzzle))
  ++ hash_inputs [] inner_puzzle
  ++ hash_inputs []
       (curry RESTRICTION_MOD [PyList []; PyList []; PyProg inner_puzzle]).

(** *** Statements proved by induction on trees *)

(** What [from_memo] makes of the memo of a tree of [Known] leaves, for
    any depth of recursion that the size of the memo allows. *)
Definition memo_read_back (t : PuzzleWithRestrictions) : Prop :=
  known_tree t -> constructed t ->
  exists mp t',
    memo t = Ok mp
    /\ (forall fuel, (Program_size mp <= fuel)%nat ->
                     from_memo_fuel fuel mp = Ok t')
    /\ puzzle_hash t' = puzzle_hash t
    /\ unknown_tree t'.

(** The loop of [fill_in_unknown_puzzles] over the restrictions. *)
Definition fill_restriction (puzzle_dict : gmap bytes32 Puzzle)
    (restriction : Puzzle) : Puzzle :=
  match restriction with
  | UnknownRestriction h =>
      match puzzle_dict !! RestrictionHint.puzhash h with
      | Some new => new
      | None => restriction
      end
  | _ => restriction
  end.

(** What [filled] says of one tree. *)
Definition fills_as_described (puzzle_dict : gmap bytes32 Puzzle)
    (t : PuzzleWithRestrictions) : Prop :=
  forall t', fill_in_unknown_puzzles t puzzle_dict = Ok t' ->
             filled puzzle_dict t t'.

(** *** Structural induction on trees *)

Section Tree_induction.
Variable P : Puzzle -> Prop.
Variable Q : PuzzleWithRestrictions -> Prop.
Hypothesis HKnown : forall k, P (Known k).
Hypothesis HUnknownPuzzle : forall h, P (UnknownPuzzle h).
Hypothesis HUnknownRestriction : forall h, P (UnknownRestriction h).
Hypothesis HMofN : forall m members, Forall Q members -> P (MofN m members).
Hypothesis HPWR : forall nonce restrictions puzzle,
    Forall P restrictions -> P puzzle -> Q (PWR nonce restrictions puzzle).

Fixpoint Puzzle_tree_ind (p : Puzzle) : P p :=
  match p with
  | Known k => HKnown k
  | UnknownPuzzle h => HUnknownPuzzle h
  | UnknownRestriction h => HUnknownRestriction h
  | MofN m members =>
      HMofN m members
        ((fix go (l : list PuzzleWithRestrictions) : Forall Q l :=
            match l return Forall Q l with
            | [] => @List.Forall_nil _ Q
            | t :: l' => @List.Forall_cons _ Q t l' (PWR_tree_ind t) (go l')
            end) members)
  end
with PWR_tree_ind (t : PuzzleWithRestrictions) : Q t :=
  match t with
  | PWR nonce restrictions puzzle =>
      HPWR nonce restrictions puzzle
        ((fix go (l : list Puzzle) : Forall P l :=
            match l return Forall P l with
            | [] => @List.Forall_nil _ P
            | r :: l' => @List.Forall_cons _ P r l' (Puzzle_tree_ind r) (go l')
            end) restrictions)
        (Puzzle_tree_ind puzzle)
  end.
End Tree_induction.

(** *** Examples to run the drivers on *)

(** Stand-ins for what the drivers take from the rest of the code base: a
    hash that mixes the bytes of its input into 32 bytes, three atoms for
    the compiled puzzles, a root that hashes the leaves together and a
    Merkle proof made of a path and the other leaves. *)
Definition example_sha256 (x : bytes) : bytes32 :=
  to_bytes_be 32
    (fold_left (fun acc b => Z.land (acc * 257 + Z_of_byte b + 1) (Z.ones 60))
       x 0).

Definition example_MofN_MOD : Program := Program_to (PyStr "m_of_n").
Definition example_OneOfN_MOD : Program := Program_to (PyStr "1_of_n").
Definition example_RESTRICTION_MOD : Program := Program_to (PyStr "restrictions").

Definition example_calculate_root (nodes : list bytes32) : result bytes32 :=
  Ok (example_sha256 (concat nodes)).

Definition example_generate_proof (nodes : list bytes32) (leaf : bytes32)
  : result (PyVal * list PyVal) :=
  if decide (leaf ∈ nodes)
  then Ok (PyInt 0, [PyList (PyBytes <$> filter (fun h => h ≠ leaf) nodes)])
  else Err KeyError.

(** A [Known] puzzle and a [Known] restriction, by name. *)
Definition example_puzzle (name : string) : KnownPuzzle :=
  {| known_morpher_not_validator := None;
     known_memo := fun _ => Program_to (PyStr name);
     known_puzzle := fun nonce => Program_to (PyList [PyStr name; PyInt nonce]);
     known_puzzle_hash := fun nonce =>
       example_sha256 (list_byte_of_string name ++ int_to_bytes nonce) |}.

Definition example_restriction (morpher : bool) (name : string) : KnownPuzzle :=
  {| known_morpher_not_validator := Some morpher;
     known_memo := fun _ => Program_to (PyStr name);
     known_puzzle := fun nonce => Program_to (PyList [PyStr name; PyInt nonce]);
     known_puzzle_hash := fun nonce =>
       example_sha256 (list_byte_of_string name ++ int_to_bytes nonce) |}.

Definition example_member (name : string) : PuzzleWithRestrictions :=
  PWR 0 [] (Known (example_puzzle name)).

Definition example_spend (name : string) : ProvenSpend.t :=
  {| ProvenSpend.puzzle_reveal := Program_to (PyList [PyStr name; PyInt 0]);
     ProvenSpend.solution := Program_to (PyStr ("solution of " ++ name)) |}.

(** A 2-of-3 over three puzzles under a morpher and a validator. *)
Definition example_tree : PuzzleWithRestrictions :=
  PWR 7
    [Known (example_restriction true "morpher");
     Known (example_restriction false "validator")]
    (MofN 2 [example_member "A"; example_member "B"; example_member "C"]).

(** The shape that a two-element 1-of-n proof would have: the list of the
    pair of a sibling hash with the puzzle reveal, and the solution. *)
Definition two_element_proof (proven_spend : ProvenSpend.t) (proof : Program)
  : Prop :=
  exists sibling : Program,
    proof = Program_to
              (PyList [PyTuple (PyProg sibling)
                         (PyProg (ProvenSpend.puzzle_reveal proven_spend));
                       PyProg (ProvenSpend.solution proven_spend)])
    \/ proof = Program_to
                 (PyList [PyList [PyProg sibling;
                                  PyProg (ProvenSpend.puzzle_reveal proven_spend)];
                          PyProg (ProvenSpend.solution proven_spend)]).

(** *** The other drivers *)

(** [PuzzleWithRestrictions.unknown_puzzles]: a later entry of a dict
    comprehension replaces an earlier one with the same key, and the
    restrictions of the node replace the puzzles below it. *)
Fixpoint unknown_puzzles (self : PuzzleWithRestrictions)
  : gmap bytes32 Puzzle :=
  match self with
  | PWR nonce restrictions puzzle =>
      let unknown_restrictions : gmap bytes32 Puzzle :=
        foldl (fun acc ur =>
                 match ur with
                 | UnknownRestriction h =>
                     <[RestrictionHint.puzhash h := ur]> acc
                 | _ => acc
                 end) ∅ restrictions in
      let unknown_puzzles_below : gmap bytes32 Puzzle :=
        match puzzle with
        | UnknownPuzzle h => {[PuzzleHint.puzhash h := puzzle]}
        | MofN _ members =>
            foldl (fun acc puz_w_restriction =>
                     unknown_puzzles puz_w_restriction ∪ acc) ∅ members
        | _ => ∅
        end in
      unknown_restrictions ∪ unknown_puzzles_below
  end.

(** [MofN.solve] *)
Definition MofN_solve (m : Z)
    (proof delegated_puzzle delegated_solution : Program) : Program :=
  if decide (m > 1)
  then Program_to (PyList [PyProg proof; PyProg delegated_puzzle;
                           PyProg delegated_solution])
  else Program_to (PyList ((PyProg <$> as_iter proof)
                             ++ [PyProg delegated_puzzle;
                                 PyProg delegated_solution])).

(** *** More shapes of trees *)

(** The leaves that [from_memo] makes of the leaves of a tree: a restriction
    becomes the [UnknownRestriction] of its flag, hash and memo, an inner
    puzzle the [UnknownPuzzle] of its hash and memo, and an [MofN] keeps its
    [m] over its members taken likewise. *)
Definition forget_restriction (nonce : Z) (r : Puzzle) : Puzzle :=
  match r with
  | Known k =>
      UnknownRestriction
        (RestrictionHint.mk (default false (known_morpher_not_validator k))
           (known_puzzle_hash k nonce) (known_memo k nonce))
  | _ => r
  end.

Fixpoint forget (t : PuzzleWithRestrictions) : PuzzleWithRestrictions :=
  match t with
  | PWR nonce restrictions puzzle =>
      PWR nonce (forget_restriction nonce <$> restrictions)
        match puzzle with
        | Known k =>
            UnknownPuzzle
              (PuzzleHint.mk (known_puzzle_hash k nonce) (known_memo k nonce))
        | UnknownPuzzle h => puzzle
        | UnknownRestriction h =>
            UnknownPuzzle
              (PuzzleHint.mk (RestrictionHint.puzhash h) (RestrictionHint.memo h))
        | MofN m members => MofN m (forget <$> members)
        end
  end.

(** Trees whose leaves have a hint to give: the restrictions are [Known]
    restrictions or [UnknownRestriction]s, the inner puzzles [Known] puzzles
    or unknown leaves, and every hash is a [bytes32]. *)
Definition hinted_restriction (r : Puzzle) : Prop :=
  known_restriction r
  \/ exists h, r = UnknownRestriction h
               /\ length (RestrictionHint.puzhash h) = 32%nat.

Definition hinted_leaf (p : Puzzle) : Prop :=
  (exists k, p = Known k /\ typed_known k)
  \/ (exists h, p = UnknownPuzzle h /\ length (PuzzleHint.puzhash h) = 32%nat)
  \/ (exists h, p = UnknownRestriction h
                /\ length (RestrictionHint.puzhash h) = 32%nat).

Inductive memoable : PuzzleWithRestrictions -> Prop :=
  | memoable_PWR nonce restrictions puzzle :
      Forall hinted_restriction restrictions ->
      memoable_inner puzzle ->
      memoable (PWR nonce restrictions puzzle)
with memoable_inner : Puzzle -> Prop :=
  | memoable_leaf p : hinted_leaf p -> memoable_inner p
  | memoable_MofN m members :
      Forall memoable members -> memoable_inner (MofN m members).

(** Trees as [from_memo] returns them: every leaf unknown, with a [bytes32]
    for hash. *)
Inductive decoded : PuzzleWithRestrictions -> Prop :=
  | decoded_PWR nonce restrictions puzzle :
      Forall (fun r => exists h, r = UnknownRestriction h
                                 /\ length (RestrictionHint.puzhash h) = 32%nat)
        restrictions ->
      decoded_inner puzzle ->
      decoded (PWR nonce restrictions puzzle)
with decoded_inner : Puzzle -> Prop :=
  | decoded_UnknownPuzzle h :
      length (PuzzleHint.puzhash h) = 32%nat ->
      decoded_inner (UnknownPuzzle h)
  | decoded_MofN m members :
      Forall decoded members -> decoded_inner (MofN m members).

(** Trees all of whose restrictions, at every node that [memo] visits, have
    the [morpher_not_validator] attribute. *)
Inductive flagged : PuzzleWithRestrictions -> Prop :=
  | flagged_PWR nonce restrictions puzzle :
      Forall (fun r => is_Ok (morpher_not_validator r)) restrictions ->
      flagged_inner puzzle ->
      flagged (PWR nonce restrictions puzzle)
with flagged_inner : Puzzle -> Prop :=
  | flagged_leaf p : is_MofN p = false -> flagged_inner p
  | flagged_MofN m members :
      Forall flagged members -> flagged_inner (MofN m members).

(** A registry that fits a tree: the entry found for an unknown leaf has,
    at the nonce of the node of the leaf, the puzzle hash of the hint and,
    for a restriction, the [morpher_not_validator] flag of the hint. *)
Definition fits_restriction (puzzle_dict : gmap bytes32 Puzzle) (nonce : Z)
    (r : Puzzle) : Prop :=
  forall h entry,
    r = UnknownRestriction h ->
    puzzle_dict !! RestrictionHint.puzhash h = Some entry ->
    Puzzle_puzzle_hash entry nonce = Ok (RestrictionHint.puzhash h)
    /\ morpher_not_validator entry
       = Ok (RestrictionHint.morpher_not_validator h).

Definition fits_leaf (puzzle_dict : gmap bytes32 Puzzle) (nonce : Z)
    (p : Puzzle) : Prop :=
  forall h entry,
    p = UnknownPuzzle h ->
    puzzle_dict !! PuzzleHint.puzhash h = Some entry ->
    Puzzle_puzzle_hash entry nonce = Ok (PuzzleHint.puzhash h).

Inductive fits (puzzle_dict : gmap bytes32 Puzzle)
  : PuzzleWithRestrictions -> Prop :=
  | fits_PWR nonce restrictions puzzle :
      Forall (fits_restriction puzzle_dict nonce) restrictions ->
      fits_inner puzzle_dict nonce puzzle ->
      fits puzzle_dict (PWR nonce restrictions puzzle)
with fits_inner (puzzle_dict : gmap bytes32 Puzzle) : Z -> Puzzle -> Prop :=
  | fits_inner_leaf nonce p :
      is_MofN p = false -> fits_leaf puzzle_dict nonce p ->
      fits_inner puzzle_dict nonce p
  | fits_inner_MofN nonce m members :
      Forall (fits puzzle_dict) members ->
      fits_inner puzzle_dict nonce (MofN m members).

(** [unknown_at h v t]: [v] is an unknown leaf of [t] with hash [h] that
    [fill_in_unknown_puzzles] looks up: an [UnknownRestriction] among the
    restrictions of a node, or an [UnknownPuzzle] that is the inner puzzle
    of a node. *)
Inductive unknown_at (h : bytes32) (v : Puzzle)
  : PuzzleWithRestrictions -> Prop :=
  | unknown_at_restriction nonce restrictions puzzle hint :
      v = UnknownRestriction hint ->
      v ∈ restrictions ->
      RestrictionHint.puzhash hint = h ->
      unknown_at h v (PWR nonce restrictions puzzle)
  | unknown_at_puzzle nonce restrictions hint :
      v = UnknownPuzzle hint ->
      PuzzleHint.puzhash hint = h ->
      unknown_at h v (PWR nonce restrictions v)
  | unknown_at_member nonce restrictions m members member :
      member ∈ members ->
      unknown_at h v member ->
      unknown_at h v (PWR nonce restrictions (MofN m members)).

(** The number of leaves revealed in an m-of-n proof: a reveal is a pair
    that starts with nil, any other pair is a branch. *)
Fixpoint count_reveals (proof : Program) : nat :=
  match proof with
  | Atom _ => 0
  | Pair (Atom []) _ => 1
  | Pair l r => count_reveals l + count_reveals r
  end.

(** The leaves of a list that are proven. *)
Definition proven_leaves (spends_to_prove : gmap bytes32 ProvenSpend.t)
    (puzzle_hashes : list bytes32) : list bytes32 :=
  filter (fun leaf => is_Some (spends_to_prove !! leaf)) puzzle_hashes.

(** An object whose [puzzle_hash] is the tree hash of its [puzzle], when it
    has one, at a nonce. *)
Definition hash_consistent (nonce : Z) (p : Puzzle) : Prop :=
  forall reveal,
    Puzzle_puzzle p nonce = Ok reveal ->
    Puzzle_puzzle_hash p nonce = Ok (get_tree_hash reveal).

(** [hashed precalculated q p]: [q] is [p] with some subtrees replaced by
    the atom of their tree hash, these hashes being [precalculated] and no
    other atom of [q] being so. *)
Inductive hashed (precalculated : list bytes32) : Program -> Program -> Prop :=
  | hashed_subtree p :
      get_tree_hash p ∈ precalculated ->
      hashed precalculated (Atom (get_tree_hash p)) p
  | hashed_Atom a :
      a ∉ precalculated -> hashed precalculated (Atom a) (Atom a)
  | hashed_Pair l r l' r' :
      hashed precalculated l l' ->
      hashed precalculated r r' ->
      hashed precalculated (Pair l r) (Pair l' r').

(** What [memo] does about the flags of one tree. *)
Definition memo_fails_for_flags (t : PuzzleWithRestrictions) : Prop :=
  (is_Ok (memo t) <-> flagged t)
  /\ (forall e, memo t = Err e -> e = AttributeError).

(** What [from_memo] makes of the memo of one tree, for any depth of
    recursion that the size of the memo allows. *)
Definition memo_forgets (t : PuzzleWithRestrictions) : Prop :=
  memoable t -> constructed t ->
  exists mp,
    memo t = Ok mp
    /\ (forall fuel, (Program_size mp <= fuel)%nat ->
                     from_memo_fuel fuel mp = Ok (forget t))
    /\ puzzle_hash (forget t) = puzzle_hash t.

(** The [restricted_inner_puzzle_hash] of [puzzle_hash]: the hash that the
    index wrap is applied to. *)
Definition restricted_inner_puzzle_hash (self : PuzzleWithRestrictions)
  : result bytes32 :=
  match self with
  | PWR nonce restrictions puzzle =>
      inner_puzzle_hash ← Puzzle_puzzle_hash puzzle nonce;
      if decide (0 < length restrictions)%nat
      then
        morpher_hashes ←
          comprehension morpher_not_validator
            (fun restriction => Puzzle_puzzle_hash restriction nonce)
            restrictions;
        validator_hashes ←
          comprehension (fun restriction =>
                           negb <$> morpher_not_validator restriction)
            (fun restriction => Puzzle_puzzle_hash restriction nonce)
            restrictions;
        Ok (restriction_wrap_hash morpher_hashes validator_hashes
              inner_puzzle_hash)
      else Ok inner_puzzle_hash
  end.

(** ** Properties *)

(** *** The integer casts *)

Lemma Z_of_byte_range (b : byte) : 0 <= Z_of_byte b < 256.
Proof.
  unfold Z_of_byte. pose proof (Byte.to_N_bounded b). lia.
Qed.

Lemma Z_of_byte_of_Z (z : Z) : Z_of_byte (byte_of_Z z) = z mod 256.
Proof.
  unfold Z_of_byte, byte_of_Z.
  pose proof (Z.mod_pos_bound z 256 ltac:(lia)) as Hr.
  destruct (Byte.of_N (Z.to_N (z mod 256))) as [b|] eqn:E.
  - apply Byte.to_of_N in E. rewrite E. lia.
  - apply Byte.of_N_None_iff in E. lia.
Qed.

Lemma unsigned_be_snoc (bs : bytes) (b : byte) :
  unsigned_be (bs ++ [b]) = unsigned_be bs * 256 + Z_of_byte b.
Proof. unfold unsigned_be. now rewrite fold_left_app. Qed.

Lemma fold_unsigned_acc (bs : bytes) (acc : Z) :
  fold_left (fun acc b => acc * 256 + Z_of_byte b) bs acc
  = acc * 256 ^ Z.of_nat (length bs) + unsigned_be bs.
Proof.
  unfold unsigned_be. revert acc.
  induction bs as [|b bs IH]; intros acc.
  - simpl. lia.
  - cbn [fold_left length]. rewrite IH, (IH (0 * 256 + Z_of_byte b)).
    rewrite Nat2Z.inj_succ, Z.pow_succ_r by lia. lia.
Qed.

Lemma unsigned_be_cons (b : byte) (bs : bytes) :
  unsigned_be (b :: bs)
  = Z_of_byte b * 256 ^ Z.of_nat (length bs) + unsigned_be bs.
Proof.
  unfold unsigned_be at 1. cbn [fold_left]. rewrite fold_unsigned_acc. lia.
Qed.

Lemma unsigned_be_range (bs : bytes) :
  0 <= unsigned_be bs < 256 ^ Z.of_nat (length bs).
Proof.
  induction bs as [|b bs IH].
  - cbn. lia.
  - rewrite unsigned_be_cons. cbn [length].
    rewrite Nat2Z.inj_succ, Z.pow_succ_r by lia.
    pose proof (Z_of_byte_range b). nia.
Qed.

Lemma length_to_bytes_be (n : nat) (v : Z) : length (to_bytes_be n v) = n.
Proof.
  revert v. induction n as [|n IH]; intros v; cbn; [reflexivity|].
  rewrite length_app, IH. cbn. lia.
Qed.

Lemma unsigned_to_bytes_be (n : nat) (v : Z) :
  unsigned_be (to_bytes_be n v) = v mod 256 ^ Z.of_nat n.
Proof.
  revert v. induction n as [|n IH]; intros v.
  - cbn. now rewrite Z.mod_1_r.
  - cbn [to_bytes_be]. rewrite unsigned_be_snoc, IH, Z_of_byte_of_Z.
    rewrite Nat2Z.inj_succ, Z.pow_succ_r by lia.
    rewrite (Z.rem_mul_r v 256 (256 ^ Z.of_nat n)) by lia. lia.
Qed.

Lemma pow2_bytes (n : nat) : 2 ^ (8 * Z.of_nat n) = 256 ^ Z.of_nat n.
Proof. rewrite Z.pow_mul_r by lia. reflexivity. Qed.

Lemma pow2_sign_bit (n : nat) :
  2 ^ (8 * Z.of_nat (S n) - 1) = 128 * 256 ^ Z.of_nat n.
Proof.
  replace (8 * Z.of_nat (S n) - 1) with (7 + 8 * Z.of_nat n) by lia.
  rewrite Z.pow_add_r, pow2_bytes by lia. reflexivity.
Qed.

(** A value within the signed range of [n] bytes is read back from its
    [n]-byte encoding. *)
Lemma int_from_bytes_to_bytes_be (n : nat) (v : Z) :
  - (128 * 256 ^ Z.of_nat n) <= v < 128 * 256 ^ Z.of_nat n ->
  int_from_bytes (to_bytes_be (S n) v) = v.
Proof.
  intros Hv. unfold int_from_bytes.
  rewrite length_to_bytes_be, unsigned_to_bytes_be.
  rewrite pow2_sign_bit, pow2_bytes.
  rewrite Nat2Z.inj_succ, Z.pow_succ_r by lia.
  set (P := 256 ^ Z.of_nat n) in *.
  assert (0 < P) by (apply Z.pow_pos_nonneg; lia).
  destruct (decide (S n = 0%nat)) as [|_]; [lia|].
  destruct (Z_lt_le_dec v 0) as [Hneg|Hpos].
  - replace (v mod (256 * P)) with (v + 256 * P).
    + destruct (decide _); lia.
    + apply Z.mod_unique with (q := -1); lia.
  - rewrite Z.mod_small by lia. destruct (decide _); lia.
Qed.

Lemma testbit_7_byte (b : byte) :
  Z.testbit (Z_of_byte b) 7 = bool_decide (128 <= Z_of_byte b).
Proof.
  pose proof (Z_of_byte_range b) as Hb.
  destruct (Z.testbit (Z_of_byte b) 7) eqn:E.
  - apply Z.testbit_true in E; [|lia]. change (2 ^ 7) with 128 in E.
    symmetry. apply bool_decide_eq_true.
    destruct (Z_lt_le_dec (Z_of_byte b) 128) as [Hlt|]; [|assumption].
    rewrite Z.div_small in E by lia. discriminate.
  - symmetry. apply bool_decide_eq_false. intros Hge.
    assert (Z.testbit (Z_of_byte b) 7 = true) as Ht; [|congruence].
    apply Z.testbit_true; [lia|]. change (2 ^ 7) with 128.
    replace (Z_of_byte b / 128) with 1; [reflexivity|].
    apply Z.div_unique with (r := Z_of_byte b - 128); lia.
Qed.

(** Dropping a redundant sign byte does not change the value read. *)
Lemma int_from_bytes_redundant (b0 b1 : byte) (r : bytes) :
  Z_of_byte b0 = (if Z.testbit (Z_of_byte b1) 7 then 255 else 0) ->
  int_from_bytes (b0 :: b1 :: r) = int_from_bytes (b1 :: r).
Proof.
  intros Hb0. unfold int_from_bytes. cbn [length].
  destruct (decide (S (S (length r)) = 0%nat)) as [|_]; [lia|].
  destruct (decide (S (length r) = 0%nat)) as [|_]; [lia|].
  rewrite !pow2_sign_bit, !pow2_bytes.
  rewrite (unsigned_be_cons b0). cbn [length].
  pose proof (unsigned_be_range r) as Hr.
  rewrite (unsigned_be_cons b1).
  rewrite !Nat2Z.inj_succ, !Z.pow_succ_r by lia.
  set (P := 256 ^ Z.of_nat (length r)) in *.
  set (u := unsigned_be r) in *.
  pose proof (Z_of_byte_range b1) as Hb1.
  rewrite testbit_7_byte in Hb0. rewrite Hb0.
  case_bool_decide; repeat destruct (decide _); nia.
Qed.

Lemma int_from_bytes_strip (r : bytes) :
  int_from_bytes (strip_redundant r) = int_from_bytes r.
Proof.
  induction r as [|b0 r IH]; [reflexivity|].
  destruct r as [|b1 r]; [reflexivity|].
  change (strip_redundant (b0 :: b1 :: r))
    with (if decide (Z_of_byte b0
                     = (if Z.testbit (Z_of_byte b1) 7 then 255 else 0))
          then strip_redundant (b1 :: r) else b0 :: b1 :: r).
  destruct (decide _) as [Heq|]; [|reflexivity].
  rewrite IH. symmetry. now apply int_from_bytes_redundant.
Qed.

Lemma bit_length_bound (v : Z) :
  v <> 0 -> 1 <= bit_length v /\ Z.abs v < 2 ^ bit_length v.
Proof.
  intros Hv. unfold bit_length. destruct (decide (v = 0)); [contradiction|].
  pose proof (Z.log2_nonneg (Z.abs v)).
  pose proof (Z.log2_spec (Z.abs v) ltac:(lia)) as Hs.
  unfold Z.succ in Hs. split; lia.
Qed.

(** [int_from_bytes] inverts [int_to_bytes]. *)
Lemma int_from_bytes_int_to_bytes (v : Z) :
  int_from_bytes (int_to_bytes v) = v.
Proof.
  unfold int_to_bytes. destruct (decide (v = 0)) as [->|Hv]; [reflexivity|].
  rewrite int_from_bytes_strip.
  destruct (bit_length_bound v Hv) as [Hbl Habs].
  set (bl := bit_length v) in *.
  assert (exists n, Z.to_nat ((bl + 8) / 8) = S n /\ bl <= 7 + 8 * Z.of_nat n)
    as (n & Hn & Hle).
  { assert (1 <= (bl + 8) / 8) by (apply Z.div_le_lower_bound; lia).
    exists (Z.to_nat ((bl + 8) / 8 - 1)). split; [lia|].
    pose proof (Z.mul_succ_div_gt (bl + 8) 8 ltac:(lia)). lia. }
  rewrite Hn. apply int_from_bytes_to_bytes_be.
  assert (2 ^ bl <= 128 * 256 ^ Z.of_nat n).
  { rewrite <- pow2_bytes. change 128 with (2 ^ 7).
    rewrite <- Z.pow_add_r by lia. apply Z.pow_le_mono_r; lia. }
  lia.
Qed.

(** *** Lists of fallible computations *)

Ltac simpl_result := cbn [mbind result_bind fmap result_fmap mret result_ret].

Lemma mapM_result_nil {A B} (f : A -> result B) : mapM f [] = Ok [].
Proof. reflexivity. Qed.

Lemma mapM_result_cons {A B} (f : A -> result B) (x : A) (l : list A) :
  mapM f (x :: l) = (y ← f x; k ← mapM f l; Ok (y :: k)).
Proof. reflexivity. Qed.

Lemma mapM_result_ext {A B} (f g : A -> result B) (l : list A) :
  Forall (fun x => f x = g x) l -> mapM f l = mapM g l.
Proof.
  induction 1 as [|x l Hx _ IH]; [reflexivity|].
  now rewrite !mapM_result_cons, Hx, IH.
Qed.

Lemma mapM_result_Forall2 {A B} (f : A -> result B) (l : list A) (k : list B) :
  Forall2 (fun x y => f x = Ok y) l k -> mapM f l = Ok k.
Proof.
  induction 1 as [|x y l k Hx _ IH]; [reflexivity|].
  now rewrite mapM_result_cons, Hx, IH.
Qed.

Lemma mapM_result_inv {A B} (f : A -> result B) (l : list A) (k : list B) :
  mapM f l = Ok k -> Forall2 (fun x y => f x = Ok y) l k.
Proof.
  revert k. induction l as [|x l IH]; intros k.
  - cbn. intros [= <-]. constructor.
  - rewrite mapM_result_cons. destruct (f x) as [y|e] eqn:Hx; [|discriminate].
    cbn. destruct (mapM f l) as [k'|e]; [|discriminate].
    cbn. intros [= <-]. constructor; auto.
Qed.

Lemma comprehension_cons {A B} (cond : A -> result bool) (f : A -> result B)
    (x : A) (l : list A) :
  comprehension cond f (x :: l)
  = (c ← cond x;
     if (c : bool)
     then y ← f x; ys ← comprehension cond f l; Ok (y :: ys)
     else comprehension cond f l).
Proof. reflexivity. Qed.

(** *** Hints *)

Lemma int_to_bytes_flag (b : bool) :
  bool_decide (Atom (int_to_bytes (if b then 1 else 0)) ≠ Program_to PyNone)
  = b.
Proof. destruct b; reflexivity. Qed.

Lemma to_bytes32_Ok (h : bytes) : length h = 32%nat -> to_bytes32 h = Ok h.
Proof. intros H. unfold to_bytes32. now destruct (decide _). Qed.

Lemma RestrictionHint_from_to (h : RestrictionHint.t) :
  length (RestrictionHint.puzhash h) = 32%nat ->
  RestrictionHint.from_program (RestrictionHint.to_program h) = Ok h.
Proof.
  intros Hlen. destruct h as [b ph mm]. cbn in Hlen.
  unfold RestrictionHint.from_program, RestrictionHint.to_program.
  cbn [as_iter Program_to RestrictionHint.morpher_not_validator
       RestrictionHint.puzhash RestrictionHint.memo].
  unfold as_bytes32. cbn [atom]. rewrite (to_bytes32_Ok _ Hlen).
  cbn. now rewrite int_to_bytes_flag.
Qed.

Lemma PuzzleHint_from_to (h : PuzzleHint.t) :
  length (PuzzleHint.puzhash h) = 32%nat ->
  PuzzleHint.from_program (PuzzleHint.to_program h) = Ok h.
Proof.
  intros Hlen. destruct h as [ph mm]. cbn in Hlen.
  unfold PuzzleHint.from_program, PuzzleHint.to_program.
  cbn [as_iter Program_to PuzzleHint.puzhash PuzzleHint.memo].
  unfold as_bytes32. cbn [atom]. now rewrite (to_bytes32_Ok _ Hlen).
Qed.

(** C10: reading back the program of a restriction hint gives the hint
    again, for either value of the morpher flag, any 32-byte hash and any
    memo. *)
Theorem RestrictionHint_roundtrip
    (morpher_not_validator : bool) (puzhash : bytes32) (memo : Program) :
  length puzhash = 32%nat ->
  RestrictionHint.from_program
    (RestrictionHint.to_program
       (RestrictionHint.mk morpher_not_validator puzhash memo))
  = Ok (RestrictionHint.mk morpher_not_validator puzhash memo).
Proof. intros Hlen. now apply RestrictionHint_from_to. Qed.

(** C8: on an [UnknownPuzzle] and on an [UnknownRestriction], [puzzle]
    raises [NotImplementedError] for every nonce while [memo] and
    [puzzle_hash] return the memo and the hash of the stored hint. *)
Theorem Unknown_puzzle_unsupported
    (puzzle_hint : PuzzleHint.t) (restriction_hint : RestrictionHint.t)
    (nonce : Z) :
  Puzzle_puzzle (UnknownPuzzle puzzle_hint) nonce = Err NotImplementedError
  /\ Puzzle_memo (UnknownPuzzle puzzle_hint) nonce
     = Ok (PuzzleHint.memo puzzle_hint)
  /\ Puzzle_puzzle_hash (UnknownPuzzle puzzle_hint) nonce
     = Ok (PuzzleHint.puzhash puzzle_hint)
  /\ Puzzle_puzzle (UnknownRestriction restriction_hint) nonce
     = Err NotImplementedError
  /\ Puzzle_memo (UnknownRestriction restriction_hint) nonce
     = Ok (RestrictionHint.memo restriction_hint)
  /\ Puzzle_puzzle_hash (UnknownRestriction restriction_hint) nonce
     = Ok (RestrictionHint.puzhash restriction_hint).
Proof. repeat split. Qed.

(** *** Programs built by [Program.to] *)

Lemma Program_to_list_cons (x : PyVal) (l : list PyVal) :
  Program_to (PyList (x :: l)) = Pair (Program_to x) (Program_to (PyList l)).
Proof. reflexivity. Qed.

Lemma as_iter_Program_to_list (l : list PyVal) :
  as_iter (Program_to (PyList l)) = Program_to <$> l.
Proof.
  induction l as [|x l IH]; [reflexivity|].
  rewrite Program_to_list_cons. cbn [as_iter fmap list_fmap]. now f_equal.
Qed.

Lemma as_iter_programs (ps : list Program) :
  as_iter (Program_to (PyList (PyProg <$> ps))) = ps.
Proof.
  rewrite as_iter_Program_to_list, <- list_fmap_compose.
  induction ps as [|p ps IH]; [reflexivity|]. cbn. now f_equal.
Qed.

Lemma Program_size_pos (p : Program) : (0 < Program_size p)%nat.
Proof. destruct p; cbn; lia. Qed.

Lemma as_iter_size (p : Program) :
  Forall (fun x => (Program_size x < Program_size p)%nat) (as_iter p).
Proof.
  induction p as [a|l _ r IH]; cbn [as_iter Program_size]; constructor.
  - lia.
  - eapply Forall_impl; [exact IH|]. cbn. intros; lia.
Qed.

Lemma programs_size (ps : list Program) :
  Forall (fun x => (Program_size x
                    < Program_size (Program_to (PyList (PyProg <$> ps))))%nat)
         ps.
Proof.
  pose proof (as_iter_size (Program_to (PyList (PyProg <$> ps)))) as H.
  now rewrite as_iter_programs in H.
Qed.

Lemma as_int_int (z : Z) : as_int (Program_to (PyInt z)) = Ok z.
Proof.
  unfold as_int. cbn [Program_to atom].
  now rewrite int_from_bytes_int_to_bytes.
Qed.

Lemma MofNHint_from_to (h : MofNHint.t) :
  MofNHint.from_program (MofNHint.to_program h) = Ok h.
Proof.
  destruct h as [m mms].
  unfold MofNHint.from_program, MofNHint.to_program.
  cbn [MofNHint.m MofNHint.member_memos].
  rewrite !Program_to_list_cons. cbn [as_iter].
  change (as_iter (Program_to (PyList []))) with (@List.nil Program).
  rewrite as_int_int. cbn [mbind result_bind]. now rewrite as_iter_programs.
Qed.

Lemma RestrictionHints_from_to (hints : list RestrictionHint.t) :
  Forall (fun h => length (RestrictionHint.puzhash h) = 32%nat) hints ->
  mapM RestrictionHint.from_program
    (as_iter (Program_to
                (PyList ((fun hint => PyProg (RestrictionHint.to_program hint))
                           <$> hints))))
  = Ok hints.
Proof.
  intros Hlen. rewrite as_iter_Program_to_list, <- list_fmap_compose.
  apply mapM_result_Forall2.
  induction Hlen as [|h hints Hh _ IH]; constructor; [|exact IH].
  cbn. now apply RestrictionHint_from_to.
Qed.

(** *** The memo of a tree of [Known] leaves *)

(** The restrictions rebuilt from the hints of [Known] restrictions carry
    the same flags and hashes. *)
Lemma known_restrictions_hints (nonce : Z) (restrictions : list Puzzle) :
  Forall known_restriction restrictions ->
  exists hints,
    mapM (restriction_hint_of nonce) restrictions = Ok hints
    /\ Forall (fun h => length (RestrictionHint.puzhash h) = 32%nat) hints
    /\ length hints = length restrictions
    /\ (forall cond : bool -> bool,
          comprehension
            (fun r => cond <$> morpher_not_validator r)
            (fun r => Puzzle_puzzle_hash r nonce)
            (UnknownRestriction <$> hints)
          = comprehension
              (fun r => cond <$> morpher_not_validator r)
              (fun r => Puzzle_puzzle_hash r nonce)
              restrictions).
Proof.
  induction 1 as [|r rs (k & b & -> & Hb & Hk) _ (hints & Hm & Hl & Hlen & Hc)].
  - exists []. repeat split; constructor.
  - exists (RestrictionHint.mk b (known_puzzle_hash k nonce)
              (known_memo k nonce) :: hints).
    split; [|split; [|split]].
    + assert (restriction_hint_of nonce (Known k)
              = Ok (RestrictionHint.mk b (known_puzzle_hash k nonce)
                      (known_memo k nonce))) as Hr.
      { unfold restriction_hint_of.
        cbn [morpher_not_validator Puzzle_puzzle_hash Puzzle_memo].
        now rewrite Hb. }
      now rewrite mapM_result_cons, Hr, Hm.
    + constructor; [apply Hk|exact Hl].
    + cbn. now rewrite Hlen.
    + intros cond. rewrite fmap_cons, !comprehension_cons.
      cbn [morpher_not_validator RestrictionHint.morpher_not_validator
           Puzzle_puzzle_hash RestrictionHint.puzhash].
      rewrite Hb. simpl_result. now rewrite Hc.
Qed.

Lemma comprehension_morphers (nonce : Z) (rs : list Puzzle) :
  comprehension morpher_not_validator
    (fun r => Puzzle_puzzle_hash r nonce) rs
  = comprehension (fun r => id <$> morpher_not_validator r)
      (fun r => Puzzle_puzzle_hash r nonce) rs.
Proof.
  induction rs as [|r rs IH]; [reflexivity|].
  rewrite !comprehension_cons.
  destruct (morpher_not_validator r) as [[]|]; simpl_result; cbn [id];
    now rewrite ?IH.
Qed.

(** Two nodes with the same nonce and the same inner hash, whose
    restrictions agree on flags and hashes, have the same commitment. *)
Lemma puzzle_hash_unknown_restrictions (nonce : Z) (rs : list Puzzle)
    (hints : list RestrictionHint.t) (p p' : Puzzle) :
  length hints = length rs ->
  (forall cond : bool -> bool,
      comprehension (fun r => cond <$> morpher_not_validator r)
        (fun r => Puzzle_puzzle_hash r nonce) (UnknownRestriction <$> hints)
      = comprehension (fun r => cond <$> morpher_not_validator r)
          (fun r => Puzzle_puzzle_hash r nonce) rs) ->
  Puzzle_puzzle_hash p' nonce = Puzzle_puzzle_hash p nonce ->
  puzzle_hash (PWR nonce (UnknownRestriction <$> hints) p')
  = puzzle_hash (PWR nonce rs p).
Proof.
  intros Hlen Hc Hp. cbn [puzzle_hash]. rewrite Hp.
  rewrite length_fmap, Hlen, !comprehension_morphers.
  now rewrite (Hc id), (Hc negb).
Qed.

(** [from_memo] on a program of the shape built by [memo]. *)
Lemma from_memo_fuel_memo_shape (fuel : nat) (n flag : Z)
    (hints : list RestrictionHint.t) (puzzle_hint_prog : Program) :
  from_memo_fuel (S fuel)
    (Program_to
       (PyTuple (PyStr spec_namespace)
          (PyList [PyInt n;
                   PyList ((fun hint => PyProg (RestrictionHint.to_program hint))
                             <$> hints);
                   PyInt flag;
                   PyProg puzzle_hint_prog])))
  = (restriction_hints ←
       mapM RestrictionHint.from_program
         (as_iter (Program_to
                     (PyList ((fun hint =>
                                 PyProg (RestrictionHint.to_program hint))
                                <$> hints))));
     puzzle ←
       (if bool_decide (Program_to (PyInt flag) ≠ Program_to PyNone)
        then
          m_of_n_hint ← MofNHint.from_program puzzle_hint_prog;
          members ← mapM (from_memo_fuel fuel)
                      (MofNHint.member_memos m_of_n_hint);
          MofN_new (MofNHint.m m_of_n_hint) members
        else
          puzzle_hint ← PuzzleHint.from_program puzzle_hint_prog;
          Ok (UnknownPuzzle puzzle_hint));
     Ok (PWR n (UnknownRestriction <$> restriction_hints) puzzle)).
Proof.
  change (Program_to (PyTuple ?a ?b)) with (Pair (Program_to a) (Program_to b)).
  cbn [from_memo_fuel].
  destruct (decide (Program_to (PyStr spec_namespace)
                    ≠ Program_to (PyStr spec_namespace))) as [Hne|_];
    [now contradiction Hne|].
  rewrite !Program_to_list_cons. cbn [as_iter].
  change (as_iter (Program_to (PyList []))) with (@List.nil Program).
  change (Program_to (PyProg puzzle_hint_prog)) with puzzle_hint_prog.
  destruct (mapM RestrictionHint.from_program _) as [rhs|e];
    [|reflexivity].
  simpl_result. destruct (bool_decide _).
  - destruct (MofNHint.from_program puzzle_hint_prog) as [hint|e];
      [|reflexivity].
    simpl_result. destruct (mapM (from_memo_fuel fuel) _); [|reflexivity].
    simpl_result. destruct (MofN_new _ _); [|reflexivity].
    simpl_result. now rewrite as_int_int.
  - destruct (PuzzleHint.from_program puzzle_hint_prog); [|reflexivity].
    simpl_result. now rewrite as_int_int.
Qed.

Lemma memo_shape_size (n flag : Z) (hints : list PyVal) (m : Z)
    (mps : list Program) :
  Forall (fun mp =>
            (Program_size mp
             < Program_size
                 (Program_to
                    (PyTuple (PyStr spec_namespace)
                       (PyList [PyInt n; PyList hints; PyInt flag;
                                PyProg (MofNHint.to_program
                                          (MofNHint.mk m mps))]))))%nat)
         mps.
Proof.
  eapply Forall_impl; [apply programs_size|].
  intros mp Hlt. cbn beta in *.
  unfold MofNHint.to_program. cbn [MofNHint.m MofNHint.member_memos].
  change (Program_to (PyTuple ?a ?b)) with (Pair (Program_to a) (Program_to b)).
  rewrite !Program_to_list_cons.
  change (Program_to (PyProg ?p)) with p.
  rewrite ?Program_to_list_cons.
  cbn [Program_size]. lia.
Qed.

Lemma MofN_new_same_nodes (m : Z) (ms ts : list PuzzleWithRestrictions) :
  mapM puzzle_hash ts = mapM puzzle_hash ms ->
  MofN_new m ms = Ok (MofN m ms) ->
  MofN_new m ts = Ok (MofN m ts).
Proof.
  unfold MofN_new, MofN_nodes. intros ->.
  destruct (mapM puzzle_hash ms) as [nodes|e]; [|discriminate].
  simpl_result. now destruct (decide _).
Qed.

Lemma mapM_puzzle_hash_eq (ms ts : list PuzzleWithRestrictions) :
  Forall2 (fun t t' => puzzle_hash t' = puzzle_hash t) ms ts ->
  mapM puzzle_hash ts = mapM puzzle_hash ms.
Proof.
  induction 1 as [|t t' ms ts Ht _ IH]; [reflexivity|].
  now rewrite !mapM_result_cons, Ht, IH.
Qed.

Lemma members_read_back (ms : list PuzzleWithRestrictions) :
  Forall memo_read_back ms ->
  Forall known_tree ms -> Forall constructed ms ->
  exists mps ts,
    mapM memo ms = Ok mps
    /\ Forall2 (fun mp t' =>
                  forall fuel, (Program_size mp <= fuel)%nat ->
                               from_memo_fuel fuel mp = Ok t') mps ts
    /\ Forall2 (fun t t' => puzzle_hash t' = puzzle_hash t) ms ts
    /\ Forall unknown_tree ts.
Proof.
  induction 1 as [|t ms Ht _ IH]; intros Hk Hc.
  - exists [], []. repeat split; constructor.
  - inversion_clear Hk as [|? ? Hkt Hkms]. inversion_clear Hc as [|? ? Hct Hcms].
    destruct (Ht Hkt Hct) as (mp & t' & Hm & Hf & Hh & Hu).
    destruct (IH Hkms Hcms) as (mps & ts & Hms & Hfs & Hhs & Hus).
    exists (mp :: mps), (t' :: ts). split; [|split; [|split]].
    + now rewrite mapM_result_cons, Hm, Hms.
    + now constructor.
    + now constructor.
    + now constructor.
Qed.

Lemma memo_read_back_all (t : PuzzleWithRestrictions) : memo_read_back t.
Proof.
  apply (PWR_tree_ind
           (fun p => match p with
                     | MofN _ ms => Forall memo_read_back ms
                     | _ => True
                     end) memo_read_back); try exact (fun _ => I).
  - intros m ms H. exact H.
  - intros n rs p _ HP Hk Hc.
    inversion_clear Hk as [? ? ? Hkr Hkp].
    inversion_clear Hc as [? ? ? _ Hcp].
    destruct (known_restrictions_hints n rs Hkr)
      as (hints & Hhints & Hlen32 & Hlen & Hcompr).
    destruct Hkp as [k Hk|m ms Hkms].
    + (* a Known inner puzzle *)
      eexists. exists (PWR n (UnknownRestriction <$> hints)
                         (UnknownPuzzle
                            (PuzzleHint.mk (known_puzzle_hash k n)
                               (known_memo k n)))).
      split; [|split; [|split]].
      * cbn [memo]. rewrite Hhints. simpl_result.
        cbn [Puzzle_puzzle_hash Puzzle_memo is_MofN]. simpl_result.
        reflexivity.
      * intros [|fuel] Hfuel; [pose proof (Program_size_pos
          (Program_to
             (PyTuple (PyStr spec_namespace)
                (PyList [PyInt n;
                         PyList ((fun hint =>
                                    PyProg (RestrictionHint.to_program hint))
                                   <$> hints);
                         PyInt 0;
                         PyProg (PuzzleHint.to_program
                                   (PuzzleHint.mk (known_puzzle_hash k n)
                                      (known_memo k n)))])))); lia|].
        rewrite from_memo_fuel_memo_shape, (RestrictionHints_from_to _ Hlen32).
        simpl_result.
        change (bool_decide (Program_to (PyInt 0) ≠ Program_to PyNone))
          with false. cbv iota.
        rewrite PuzzleHint_from_to by apply Hk. reflexivity.
      * now apply puzzle_hash_unknown_restrictions.
      * constructor; [|constructor].
        apply Forall_fmap, Forall_true. intros h. now exists h.
    + (* an MofN over trees of Known leaves *)
      inversion_clear Hcp as [| | |? ? Hcms Hnew].
      destruct (members_read_back ms HP Hkms Hcms)
        as (mps & ts & Hmps & Hfs & Hhs & Hus).
      pose proof (mapM_puzzle_hash_eq _ _ Hhs) as Hnodes.
      eexists. exists (PWR n (UnknownRestriction <$> hints) (MofN m ts)).
      split; [|split; [|split]].
      * cbn [memo]. rewrite Hhints, Hmps. simpl_result.
        cbn [is_MofN]. reflexivity.
      * intros [|fuel] Hfuel; [pose proof (Program_size_pos
          (Program_to
             (PyTuple (PyStr spec_namespace)
                (PyList [PyInt n;
                         PyList ((fun hint =>
                                    PyProg (RestrictionHint.to_program hint))
                                   <$> hints);
                         PyInt 1;
                         PyProg (MofNHint.to_program
                                   (MofNHint.mk m mps))])))); lia|].
        rewrite from_memo_fuel_memo_shape, (RestrictionHints_from_to _ Hlen32).
        simpl_result.
        change (bool_decide (Program_to (PyInt 1) ≠ Program_to PyNone))
          with true. cbv iota.
        rewrite MofNHint_from_to. simpl_result.
        cbn [MofNHint.m MofNHint.member_memos].
        assert (mapM (from_memo_fuel fuel) mps = Ok ts) as ->.
        { apply mapM_result_Forall2.
          pose proof (memo_shape_size n 1
                        ((fun hint => PyProg (RestrictionHint.to_program hint))
                           <$> hints) m mps) as Hsz.
          revert Hsz Hfuel. generalize (Program_size
            (Program_to
               (PyTuple (PyStr spec_namespace)
                  (PyList [PyInt n;
                           PyList ((fun hint =>
                                      PyProg (RestrictionHint.to_program hint))
                                     <$> hints);
                           PyInt 1;
                           PyProg (MofNHint.to_program
                                     (MofNHint.mk m mps))])))).
          intros N Hsz Hfuel. clear - Hfs Hsz Hfuel.
          induction Hfs as [|mp t' mps ts Hmp _ IH]; constructor.
          - apply Hmp. apply Forall_cons_1 in Hsz as [Hlt _]. lia.
          - apply IH. now apply Forall_cons_1 in Hsz as [_ Hrest]. }
        simpl_result.
        now rewrite (MofN_new_same_nodes m ms ts Hnodes Hnew).
      * apply puzzle_hash_unknown_restrictions; [assumption..|].
        cbn [Puzzle_puzzle_hash]. now rewrite Hnodes.
      * constructor; [|now constructor].
        apply Forall_fmap, Forall_true. intros h. now exists h.
Qed.

(** C1: for a tree built from [Known] leaves only, [from_memo] applied to
    its [memo] returns a tree with the same [puzzle_hash] in which every
    restriction is an [UnknownRestriction] and every inner puzzle an
    [UnknownPuzzle] (or an [MofN] over such trees). *)
Theorem memo_round_trip (t : PuzzleWithRestrictions) :
  known_tree t -> constructed t ->
  exists mp t',
    memo t = Ok mp
    /\ from_memo mp = Ok t'
    /\ puzzle_hash t' = puzzle_hash t
    /\ unknown_tree t'.
Proof.
  intros Hk Hc.
  destruct (memo_read_back_all t Hk Hc) as (mp & t' & Hm & Hf & Hh & Hu).
  exists mp, t'. repeat split; try assumption.
  unfold from_memo. now apply Hf.
Qed.

(** *** The recursion of [from_memo] *)

(** The member memos that [from_memo] recurses on are parts of the memo. *)
Lemma member_memos_size (memo_first memo_rest : Program)
    (nonce restriction_hints_prog further_branching_prog puzzle_hint_prog : Program)
    (m_of_n_hint : MofNHint.t) :
  as_iter memo_rest
  = [nonce; restriction_hints_prog; further_branching_prog; puzzle_hint_prog] ->
  MofNHint.from_program puzzle_hint_prog = Ok m_of_n_hint ->
  Forall (fun member =>
            (Program_size member < Program_size (Pair memo_first memo_rest))%nat)
         (MofNHint.member_memos m_of_n_hint).
Proof.
  intros Hrest Hhint.
  assert (Program_size puzzle_hint_prog < Program_size memo_rest)%nat as Hp.
  { pose proof (as_iter_size memo_rest) as Hall. rewrite Hrest in Hall.
    rewrite !Forall_cons in Hall. tauto. }
  unfold MofNHint.from_program in Hhint.
  destruct (as_iter puzzle_hint_prog) as [|m [|mms [|? ?]]] eqn:Hiter;
    try discriminate.
  destruct (as_int m) as [z|]; [|discriminate].
  cbn in Hhint. injection Hhint as <-. cbn [MofNHint.member_memos].
  assert (Program_size mms < Program_size puzzle_hint_prog)%nat as Hm.
  { pose proof (as_iter_size puzzle_hint_prog) as Hall. rewrite Hiter in Hall.
    rewrite !Forall_cons in Hall. tauto. }
  eapply Forall_impl; [apply (as_iter_size mms)|].
  cbn [Program_size]. intros member Hlt. lia.
Qed.

(** Any depth of recursion that is at least the size of the memo gives the
    result of [from_memo]: the fuel never runs out. *)
Lemma from_memo_fuel_enough (fuel : nat) (memo : Program) :
  (Program_size memo <= fuel)%nat ->
  from_memo_fuel fuel memo = from_memo memo.
Proof.
  unfold from_memo.
  enough (forall fuel1 fuel2 memo,
             (Program_size memo <= fuel1)%nat ->
             (Program_size memo <= fuel2)%nat ->
             from_memo_fuel fuel1 memo = from_memo_fuel fuel2 memo) as H
      by (intros Hle; now apply H).
  clear fuel memo.
  induction fuel1 as [|fuel1 IH]; intros fuel2 memo H1 H2;
    [pose proof (Program_size_pos memo); lia|].
  destruct fuel2 as [|fuel2]; [pose proof (Program_size_pos memo); lia|].
  cbn [from_memo_fuel].
  destruct memo as [a|memo_first memo_rest]; [reflexivity|].
  destruct (decide _); [reflexivity|].
  destruct (as_iter memo_rest)
    as [|nonce [|rhp [|fbp [|php [|? ?]]]]] eqn:Hrest; try reflexivity.
  destruct (mapM RestrictionHint.from_program (as_iter rhp)); [|reflexivity].
  simpl_result. destruct (bool_decide _); [|reflexivity].
  destruct (MofNHint.from_program php) as [hint|] eqn:Hhint; [|reflexivity].
  simpl_result.
  rewrite (mapM_result_ext (from_memo_fuel fuel1) (from_memo_fuel fuel2));
    [reflexivity|].
  eapply Forall_impl;
    [exact (member_memos_size memo_first memo_rest _ _ _ _ _ Hrest Hhint)|].
  intros member Hlt. cbn beta in Hlt. apply IH; lia.
Qed.

(** *** The constructor of MofN *)

Lemma remove_dups_length_le {A} `{EqDecision A} (l : list A) :
  (length (remove_dups l) <= length l)%nat.
Proof.
  induction l as [|x l IH]; [reflexivity|].
  cbn. destruct (decide_rel _ _ _); cbn; lia.
Qed.

Lemma remove_dups_length_NoDup {A} `{EqDecision A} (l : list A) :
  length (remove_dups l) = length l <-> NoDup l.
Proof.
  induction l as [|x l IH]; [split; [constructor|reflexivity]|].
  pose proof (remove_dups_length_le l) as Hle.
  cbn. rewrite NoDup_cons. destruct (decide_rel _ _ _) as [Hin|Hnin]; cbn.
  - split; [lia|]. intros [Hn _]. contradiction.
  - split.
    + intros [= Hlen]. split; [assumption|now apply IH].
    + intros [_ Hnd]. f_equal. now apply IH.
Qed.

Lemma MofN_new_NoDup (m : Z) (members : list PuzzleWithRestrictions)
    (nodes : list bytes32) :
  MofN_nodes members = Ok nodes -> NoDup nodes ->
  MofN_new m members = Ok (MofN m members).
Proof.
  intros Hnodes Hnd. unfold MofN_new. rewrite Hnodes. simpl_result.
  apply remove_dups_length_NoDup in Hnd.
  destruct (decide _); [contradiction|reflexivity].
Qed.

(** C6: a [MofN] over members two of which have the same puzzle hash is
    rejected by the constructor with [ValueError], and the constructor
    succeeds when the puzzle hashes of the members are pairwise distinct. *)
Theorem MofN_new_duplicates (m : Z) (members : list PuzzleWithRestrictions)
    (nodes : list bytes32) :
  MofN_nodes members = Ok nodes ->
  (forall (i j : nat) (h : bytes32),
      i <> j -> nodes !! i = Some h -> nodes !! j = Some h ->
      MofN_new m members = Err ValueError)
  /\ (NoDup nodes -> MofN_new m members = Ok (MofN m members)).
Proof.
  intros Hnodes. unfold MofN_new. rewrite Hnodes. simpl_result. split.
  - intros i j h Hij Hi Hj. destruct (decide _) as [_|Heq]; [reflexivity|].
    exfalso. apply Hij.
    assert (NoDup nodes) as Hnd.
    { apply remove_dups_length_NoDup.
      destruct (decide (length (remove_dups nodes) = length nodes));
        [assumption|contradiction]. }
    exact (NoDup_lookup nodes i j h Hnd Hi Hj).
  - intros Hnd. pose proof (MofN_new_NoDup m members nodes Hnodes Hnd) as Hnew.
    unfold MofN_new in Hnew. now rewrite Hnodes in Hnew.
Qed.

(** *** The m-of-n proof *)

Lemma split_list_lengths (puzzle_hashes first rest : list bytes32) :
  (2 <= length puzzle_hashes)%nat ->
  split_list puzzle_hashes = (first, rest) ->
  (1 <= length first < length puzzle_hashes)%nat
  /\ (1 <= length rest < length puzzle_hashes)%nat.
Proof.
  unfold split_list. intros Hlen Heq.
  assert (1 <= S (length puzzle_hashes) / 2 < length puzzle_hashes)%nat
    as Hmid.
  { pose proof (Nat.div_mod_eq (S (length puzzle_hashes)) 2).
    pose proof (Nat.mod_upper_bound (S (length puzzle_hashes)) 2). lia. }
  revert Heq Hmid. generalize (S (length puzzle_hashes) / 2)%nat.
  intros mid [= <- <-] Hmid. rewrite length_take, length_drop. lia.
Qed.

(** The recursion over an empty list of leaves does not end. *)
Lemma _m_of_n_proof_empty (spends_to_prove : gmap bytes32 ProvenSpend.t)
    (fuel : nat) :
  _m_of_n_proof fuel [] spends_to_prove = Err RecursionError.
Proof.
  induction fuel as [|fuel IH]; [reflexivity|].
  cbn [_m_of_n_proof]. change (split_list []) with (@List.nil bytes32, @List.nil bytes32).
  cbv iota beta. now rewrite IH.
Qed.

(** With a depth of at least the number of leaves the proof of a
    non-empty list of leaves is produced, in the shape above; an atom in
    it is a [bytes32]. *)
Lemma _m_of_n_proof_shape (spends_to_prove : gmap bytes32 ProvenSpend.t)
    (fuel : nat) (puzzle_hashes : list bytes32) :
  (1 <= length puzzle_hashes <= fuel)%nat ->
  exists proof,
    _m_of_n_proof fuel puzzle_hashes spends_to_prove = Ok proof
    /\ proof_shape spends_to_prove puzzle_hashes proof
    /\ (forall a, atom proof = Some a -> length a = 32%nat).
Proof.
  revert puzzle_hashes.
  induction fuel as [|fuel IH]; intros hs Hlen; [lia|].
  destruct hs as [|leaf [|leaf' hs]]; [cbn in Hlen; lia| |].
  - cbn [_m_of_n_proof].
    destruct (spends_to_prove !! leaf) as [spend|] eqn:Hspend.
    + eexists. split; [reflexivity|]. split; [now constructor|].
      intros a [=].
    + eexists. split; [reflexivity|]. split; [now constructor|].
      intros a [= <-]. apply sha256_bytes32.
  - set (l := leaf :: leaf' :: hs) in *.
    destruct (split_list l) as [first rest] eqn:Hsplit.
    destruct (split_list_lengths l first rest (ltac:(cbn; lia)) Hsplit)
      as [Hfirst Hrest].
    destruct (IH first ltac:(lia)) as (pf & Hpf & Hsf & Haf).
    destruct (IH rest ltac:(lia)) as (pr & Hpr & Hsr & Har).
    assert (_m_of_n_proof (S fuel) l spends_to_prove
            = (first_proof ← _m_of_n_proof fuel first spends_to_prove;
               rest_proof ← _m_of_n_proof fuel rest spends_to_prove;
               match atom first_proof, atom rest_proof with
               | Some first_atom, Some rest_atom =>
                   l ← to_bytes32 first_atom;
                   r ← to_bytes32 rest_atom;
                   Ok (Program_to (PyBytes (hash_a_pair l r)))
               | _, _ =>
                   Ok (Program_to
                         (PyTuple (PyProg first_proof) (PyProg rest_proof)))
               end)) as ->.
    { unfold l at 1. cbn [_m_of_n_proof]. fold l. now rewrite Hsplit. }
    rewrite Hpf, Hpr. simpl_result.
    assert (length l <> 1%nat) as Hne by (cbn; lia).
    destruct (atom pf) as [a|] eqn:Ea; [destruct (atom pr) as [b|] eqn:Eb|].
    + rewrite (to_bytes32_Ok a), (to_bytes32_Ok b) by auto. simpl_result.
      eexists. split; [reflexivity|].
      destruct pf as [a'|]; [|discriminate].
      destruct pr as [b'|]; [|discriminate].
      cbn in Ea, Eb. injection Ea as ->. injection Eb as ->.
      split; [now apply (shape_collapse _ l first rest)|].
      intros c [= <-]. apply sha256_bytes32.
    + eexists. split; [reflexivity|].
      split; [apply (shape_branch _ l first rest); auto|].
      intros c [=].
    + eexists. split; [reflexivity|].
      split; [apply (shape_branch _ l first rest); auto|].
      intros c [=].
Qed.

(** *** [MofN.generate_proof] *)

(** C2: for [m > 1] and [m] spends keyed by member hashes,
    [generate_proof] returns a proof of the shape [proof_shape] over the
    member hashes: at every single-leaf subtree the pair
    [(nil . (puzzle_reveal . solution))] when the leaf is a key of
    [spends_to_prove] and the atom [hash_an_atom leaf] otherwise, at every
    node the atom hash of the pair when both halves gave atoms and the pair
    of the two results otherwise. The members that are not proven thus
    contribute an atom hash and nothing else. *)
Theorem generate_proof_m_of_n_shape (m : Z)
    (members : list PuzzleWithRestrictions) (nodes : list bytes32)
    (spends_to_prove : gmap bytes32 ProvenSpend.t) :
  m > 1 ->
  MofN_nodes members = Ok nodes ->
  (forall key, is_Some (spends_to_prove !! key) -> key ∈ nodes) ->
  Z.of_nat (size spends_to_prove) = m ->
  exists proof,
    MofN_generate_proof m members spends_to_prove = Ok proof
    /\ proof_shape spends_to_prove nodes proof.
Proof.
  intros Hm Hnodes Hkeys Hsize. unfold MofN_generate_proof.
  destruct (decide (Z.of_nat (size spends_to_prove) ≠ m)); [contradiction|].
  destruct (decide (m > 1)); [|contradiction].
  rewrite Hnodes. simpl_result. unfold generate_m_of_n_proof.
  assert (1 <= length nodes)%nat as Hlen.
  { assert (size spends_to_prove ≠ 0%nat) as Hne by lia.
    apply map_size_ne_0_lookup in Hne as [key Hkey].
    apply Hkeys in Hkey. destruct nodes; [inversion Hkey|cbn; lia]. }
  destruct (_m_of_n_proof_shape spends_to_prove (length nodes) nodes
              ltac:(lia)) as (proof & Hproof & Hshape & _).
  now exists proof.
Qed.

Lemma map_to_list_size_1 (spends_to_prove : gmap bytes32 ProvenSpend.t)
    (only_key : bytes32) (proven_spend : ProvenSpend.t) :
  size spends_to_prove = 1%nat ->
  spends_to_prove !! only_key = Some proven_spend ->
  map_to_list spends_to_prove = [(only_key, proven_spend)].
Proof.
  intros Hsize Hlookup. apply elem_of_map_to_list in Hlookup.
  rewrite <- length_map_to_list in Hsize.
  destruct (map_to_list spends_to_prove) as [|kv [|kv' l]];
    try discriminate.
  apply list_elem_of_singleton in Hlookup. now subst.
Qed.

(** C4, as the code has it: for [m = 1] and the single spend of
    [spends_to_prove], [generate_proof] returns the three-element list
    [[(proof[0] . proof[1][0]), puzzle_reveal, solution]]: the pair of the
    two components of the Merkle proof of the key, then the puzzle reveal
    of the proven member, then its solution. *)
Theorem generate_proof_1_of_n (members : list PuzzleWithRestrictions)
    (nodes : list bytes32) (spends_to_prove : gmap bytes32 ProvenSpend.t)
    (only_key : bytes32) (proven_spend : ProvenSpend.t)
    (proof_0 proof_1_0 : PyVal) (proof_1_rest : list PyVal) :
  MofN_nodes members = Ok nodes ->
  size spends_to_prove = 1%nat ->
  spends_to_prove !! only_key = Some proven_spend ->
  generate_proof nodes only_key = Ok (proof_0, proof_1_0 :: proof_1_rest) ->
  MofN_generate_proof 1 members spends_to_prove
  = Ok (Pair (Pair (Program_to proof_0) (Program_to proof_1_0))
          (Pair (ProvenSpend.puzzle_reveal proven_spend)
             (Pair (ProvenSpend.solution proven_spend) Program_nil))).
Proof.
  intros Hnodes Hsize Hlookup Hproof. unfold MofN_generate_proof.
  destruct (decide (Z.of_nat (size spends_to_prove) ≠ 1)); [lia|].
  destruct (decide (1 > 1)); [lia|].
  rewrite (map_to_list_size_1 _ _ _ Hsize Hlookup). cbn [fmap list_fmap fst].
  rewrite Hlookup, Hnodes. simpl_result. rewrite Hproof. reflexivity.
Qed.

(** C5, as the code has it: [generate_proof] fails its assertion
    whenever the number of spends differs from [m]. When the number is [m],
    it produces a proof for [m > 1] over at least one member, it assembles
    the proof from the Merkle proof of the only key for [m = 1], and for
    [m <= 0] it raises [IndexError] on the key that an empty map lacks; an
    [AssertionError] can then only come from the Merkle tree. *)
Theorem generate_proof_size_check (m : Z)
    (members : list PuzzleWithRestrictions) (nodes : list bytes32)
    (spends_to_prove : gmap bytes32 ProvenSpend.t) :
  MofN_nodes members = Ok nodes ->
  (Z.of_nat (size spends_to_prove) <> m ->
   MofN_generate_proof m members spends_to_prove = Err AssertionError)
  /\ (Z.of_nat (size spends_to_prove) = m -> m > 1 -> nodes <> [] ->
      is_Ok (MofN_generate_proof m members spends_to_prove))
  /\ (Z.of_nat (size spends_to_prove) = m -> m = 1 ->
      exists only_key proven_spend,
        spends_to_prove !! only_key = Some proven_spend
        /\ MofN_generate_proof m members spends_to_prove
           = (proof ← generate_proof nodes only_key;
              match proof.2 with
              | [] => Err IndexError
              | proof_1_0 :: _ =>
                  Ok (Program_to
                        (PyList [PyTuple proof.1 proof_1_0;
                                 PyProg (ProvenSpend.puzzle_reveal proven_spend);
                                 PyProg (ProvenSpend.solution proven_spend)]))
              end))
  /\ (Z.of_nat (size spends_to_prove) = m -> m <= 0 ->
      MofN_generate_proof m members spends_to_prove = Err IndexError)
  /\ (Z.of_nat (size spends_to_prove) = m ->
      MofN_generate_proof m members spends_to_prove = Err AssertionError ->
      m = 1 /\ exists only_key,
                generate_proof nodes only_key = Err AssertionError).
Proof.
  intros Hnodes. unfold MofN_generate_proof.
  split; [|split; [|split; [|split]]].
  - intros Hne. now destruct (decide _).
  - intros Heq Hm Hnil.
    destruct (decide (Z.of_nat (size spends_to_prove) ≠ m)); [contradiction|].
    destruct (decide (m > 1)); [|contradiction].
    rewrite Hnodes. simpl_result. unfold generate_m_of_n_proof.
    destruct (_m_of_n_proof_shape spends_to_prove (length nodes) nodes)
      as (proof & Hproof & _).
    + destruct nodes; [contradiction|cbn; lia].
    + now exists proof.
  - intros Heq ->.
    destruct (decide (Z.of_nat (size spends_to_prove) ≠ 1)); [contradiction|].
    destruct (decide (1 > 1)); [lia|].
    assert (size spends_to_prove ≠ 0%nat) as Hne by lia.
    apply map_size_ne_0_lookup in Hne as [only_key [proven_spend Hlookup]].
    exists only_key, proven_spend. split; [assumption|].
    rewrite (map_to_list_size_1 _ only_key proven_spend) by (lia || assumption).
    cbn [fmap list_fmap fst]. now rewrite Hlookup, Hnodes.
  - intros Heq Hm.
    destruct (decide (Z.of_nat (size spends_to_prove) ≠ m)); [contradiction|].
    destruct (decide (m > 1)); [lia|].
    assert (size spends_to_prove = 0%nat) as Hz by lia.
    apply map_size_empty_iff in Hz. subst spends_to_prove.
    now rewrite map_to_list_empty.
  - intros Heq.
    destruct (decide (Z.of_nat (size spends_to_prove) ≠ m)); [contradiction|].
    destruct (decide (m > 1)) as [Hm|Hm].
    + rewrite Hnodes. simpl_result. unfold generate_m_of_n_proof.
      destruct nodes as [|node nodes].
      * rewrite _m_of_n_proof_empty. discriminate.
      * destruct (_m_of_n_proof_shape spends_to_prove
                    (length (node :: nodes)) (node :: nodes))
          as (proof & -> & _); [cbn; lia|discriminate].
    + destruct (decide (m = 1)) as [->|Hm1].
      * assert (size spends_to_prove ≠ 0%nat) as Hne by lia.
        apply map_size_ne_0_lookup in Hne as [only_key [proven_spend Hlookup]].
        rewrite (map_to_list_size_1 _ only_key proven_spend)
          by (lia || assumption).
        cbn [fmap list_fmap fst]. rewrite Hlookup, Hnodes. simpl_result.
        destruct (generate_proof nodes only_key) as [[proof_0 proof_1]|e] eqn:Hp.
        -- simpl_result. cbn [snd]. destruct proof_1; discriminate.
        -- simpl_result. intros [= ->]. split; [reflexivity|].
           now exists only_key.
      * assert (size spends_to_prove = 0%nat) as Hz by lia.
        apply map_size_empty_iff in Hz. subst spends_to_prove.
        rewrite map_to_list_empty. discriminate.
Qed.

(** *** Filling in unknown leaves *)

Lemma MofN_new_inv (m : Z) (members : list PuzzleWithRestrictions)
    (p : Puzzle) :
  MofN_new m members = Ok p -> p = MofN m members.
Proof.
  unfold MofN_new. destruct (MofN_nodes members); [|discriminate].
  simpl_result. destruct (decide _); [discriminate|]. now intros [= <-].
Qed.

Lemma fill_restriction_filled (puzzle_dict : gmap bytes32 Puzzle)
    (restrictions : list Puzzle) :
  Forall2 (filled_restriction puzzle_dict) restrictions
    (fill_restriction puzzle_dict <$> restrictions).
Proof.
  induction restrictions as [|r rs IH]; constructor; [|exact IH].
  destruct r as [k|h|h|m ms]; try (now left).
  cbn. destruct (puzzle_dict !! RestrictionHint.puzhash h) eqn:E.
  - right. now exists h.
  - now left.
Qed.

Lemma members_filled (puzzle_dict : gmap bytes32 Puzzle)
    (members members' : list PuzzleWithRestrictions) :
  Forall (fills_as_described puzzle_dict) members ->
  mapM (fun puz => fill_in_unknown_puzzles puz puzzle_dict) members
  = Ok members' ->
  Forall2 (filled puzzle_dict) members members'.
Proof.
  intros HF Hm. apply mapM_result_inv in Hm.
  induction Hm as [|t t' ms ms' Ht _ IH]; [constructor|].
  inversion_clear HF as [|? ? Hd Hds]. constructor; auto.
Qed.

Lemma fill_in_unknown_puzzles_unfold (puzzle_dict : gmap bytes32 Puzzle)
    (nonce : Z) (restrictions : list Puzzle) (puzzle : Puzzle) :
  fill_in_unknown_puzzles (PWR nonce restrictions puzzle) puzzle_dict
  = (new_puzzle ←
       match puzzle with
       | UnknownPuzzle h =>
           match puzzle_dict !! PuzzleHint.puzhash h with
           | Some new => Ok new
           | None => Ok puzzle
           end
       | MofN m members =>
           new_members ←
             mapM (fun puz => fill_in_unknown_puzzles puz puzzle_dict) members;
           MofN_new m new_members
       | _ => Ok puzzle
       end;
     Ok (PWR nonce (fill_restriction puzzle_dict <$> restrictions) new_puzzle)).
Proof. destruct puzzle; reflexivity. Qed.

(** C9: the tree returned by [fill_in_unknown_puzzles] has the nonce of
    the original and as many restrictions in the same order, each the
    original one or the registry entry of the hash of an
    [UnknownRestriction]; its inner puzzle is the original one, or the
    registry entry of the hash of an [UnknownPuzzle], or an [MofN] with the
    same [m] whose members are filled in likewise. A [Known] leaf is
    never replaced. *)
Theorem fill_in_unknown_puzzles_frame (puzzle_dict : gmap bytes32 Puzzle)
    (t t' : PuzzleWithRestrictions) :
  fill_in_unknown_puzzles t puzzle_dict = Ok t' ->
  filled puzzle_dict t t'
  /\ nonce t' = nonce t
  /\ length (restrictions t') = length (restrictions t)
  /\ (forall i k, restrictions t !! i = Some (Known k) ->
                  restrictions t' !! i = Some (Known k))
  /\ (forall k, puzzle t = Known k -> puzzle t' = Known k).
Proof.
  intros Hfill.
  assert (filled puzzle_dict t t') as Hfilled.
  { revert t' Hfill.
    apply (PWR_tree_ind
             (fun p => match p with
                       | MofN _ ms => Forall (fills_as_described puzzle_dict) ms
                       | _ => True
                       end) (fills_as_described puzzle_dict));
      try exact (fun _ => I).
    - intros m ms H. exact H.
    - intros n rs p _ HP t'. rewrite fill_in_unknown_puzzles_unfold.
      pose proof (fill_restriction_filled puzzle_dict rs) as Hrs.
      destruct p as [k|h|h|m ms]; simpl_result.
      + intros [= <-]. constructor; [assumption|constructor].
      + destruct (puzzle_dict !! PuzzleHint.puzhash h) eqn:E; simpl_result;
          intros [= <-]; constructor; try assumption; now constructor.
      + intros [= <-]. constructor; [assumption|constructor].
      + destruct (mapM _ ms) as [ms'|] eqn:Hms; [|discriminate].
        simpl_result. destruct (MofN_new m ms') as [p'|] eqn:Hnew;
          [|discriminate].
        simpl_result. intros [= <-]. apply MofN_new_inv in Hnew as ->.
        constructor; [assumption|]. constructor.
        now apply members_filled. }
  split; [assumption|].
  destruct Hfilled as [n rs rs' p p' Hrs Hp]. cbn [nonce restrictions puzzle].
  repeat split.
  - symmetry. exact (Forall2_length _ _ _ Hrs).
  - intros i k Hi.
    destruct (Forall2_lookup_l _ _ _ _ _ Hrs Hi) as (r' & Hr' & [->|Hf]);
      [assumption|].
    destruct Hf as (h & [=] & _).
  - intros k ->. now inversion Hp.
Qed.

(** A tree that the registry leaves alone is returned as it is. *)
Lemma fill_in_settled (puzzle_dict : gmap bytes32 Puzzle)
    (t : PuzzleWithRestrictions) :
  settled puzzle_dict t -> fill_in_unknown_puzzles t puzzle_dict = Ok t.
Proof.
  revert t.
  apply (PWR_tree_ind
           (fun p => match p with
                     | MofN _ ms =>
                         Forall (fun t => settled puzzle_dict t ->
                                          fill_in_unknown_puzzles t puzzle_dict
                                          = Ok t) ms
                     | _ => True
                     end)
           (fun t => settled puzzle_dict t ->
                     fill_in_unknown_puzzles t puzzle_dict = Ok t));
    try exact (fun _ => I).
  - intros m ms H. exact H.
  - intros n rs p _ HP Hs. inversion_clear Hs as [? ? ? Hrs Hp].
    rewrite fill_in_unknown_puzzles_unfold.
    assert (fill_restriction puzzle_dict <$> rs = rs) as ->.
    { clear - Hrs. induction Hrs as [|r rs Hr _ IH]; [reflexivity|].
      rewrite fmap_cons, IH. f_equal.
      destruct r as [k|h|h|m ms]; try reflexivity.
      cbn. now rewrite (Hr h eq_refl). }
    destruct Hp as [k|h|h Hh|m ms Hms Hnew]; try reflexivity.
    + now rewrite Hh.
    + assert (mapM (fun puz => fill_in_unknown_puzzles puz puzzle_dict) ms
              = Ok ms) as ->.
      { apply mapM_result_Forall2. clear - HP Hms.
        induction HP as [|t ms Ht _ IH]; [constructor|].
        inversion_clear Hms as [|? ? Hst Hsms]. constructor; auto. }
      simpl_result. now rewrite Hnew.
Qed.

(** Under a settled registry, what [fill_in_unknown_puzzles] returns is
    left alone by the registry. *)
Lemma fill_in_gives_settled (puzzle_dict : gmap bytes32 Puzzle)
    (t : PuzzleWithRestrictions) :
  settled_registry puzzle_dict ->
  forall t', fill_in_unknown_puzzles t puzzle_dict = Ok t' ->
             settled puzzle_dict t'.
Proof.
  intros Hreg. revert t.
  apply (PWR_tree_ind
           (fun p => match p with
                     | MofN _ ms =>
                         Forall (fun t => forall t',
                                     fill_in_unknown_puzzles t puzzle_dict
                                     = Ok t' -> settled puzzle_dict t') ms
                     | _ => True
                     end)
           (fun t => forall t',
                fill_in_unknown_puzzles t puzzle_dict = Ok t' ->
                settled puzzle_dict t'));
    try exact (fun _ => I).
  - intros m ms H. exact H.
  - intros n rs p _ HP t'. rewrite fill_in_unknown_puzzles_unfold.
    assert (Forall (settled_restriction puzzle_dict)
              (fill_restriction puzzle_dict <$> rs)) as Hrs.
    { apply Forall_fmap, Forall_true. intros r.
      destruct r as [k|h|h|m ms]; try (intros h' Heq; discriminate Heq).
      cbn. destruct (puzzle_dict !! RestrictionHint.puzhash h) eqn:E.
      - now apply (Hreg _ _ E).
      - intros h' [= <-]. exact E. }
    destruct p as [k|h|h|m ms]; simpl_result.
    + intros [= <-]. constructor; [assumption|constructor].
    + destruct (puzzle_dict !! PuzzleHint.puzhash h) eqn:E; simpl_result;
        intros [= <-]; constructor; try assumption.
      * now apply (Hreg _ _ E).
      * now constructor.
    + intros [= <-]. constructor; [assumption|constructor].
    + destruct (mapM _ ms) as [ms'|] eqn:Hms; [|discriminate].
      simpl_result. destruct (MofN_new m ms') as [p'|] eqn:Hnew;
        [|discriminate].
      simpl_result. intros [= <-].
      pose proof (MofN_new_inv _ _ _ Hnew) as ->.
      constructor; [assumption|]. constructor; [|assumption].
      apply mapM_result_inv in Hms. clear - HP Hms.
      induction Hms as [|t t' ms ms' Ht _ IH]; [constructor|].
      inversion_clear HP as [|? ? Hd Hds]. constructor; auto.
Qed.

(** C7, as the code has it: for a registry none of whose entries it can
    itself fill in further (a registry of [Known] leaves for one), filling
    in twice is filling in once: the second pass returns the tree of the
    first unchanged, and a failure of the first pass is the failure of
    both. *)
Theorem fill_in_unknown_puzzles_idempotent
    (puzzle_dict : gmap bytes32 Puzzle) (t : PuzzleWithRestrictions) :
  settled_registry puzzle_dict ->
  (t' ← fill_in_unknown_puzzles t puzzle_dict;
   fill_in_unknown_puzzles t' puzzle_dict)
  = fill_in_unknown_puzzles t puzzle_dict.
Proof.
  intros Hreg.
  destruct (fill_in_unknown_puzzles t puzzle_dict) as [t'|e] eqn:Hfill;
    [|reflexivity].
  simpl_result. apply fill_in_settled.
  now apply (fill_in_gives_settled puzzle_dict t Hreg).
Qed.

Lemma known_registry_settled (puzzle_dict : gmap bytes32 Puzzle) :
  (forall key entry, puzzle_dict !! key = Some entry ->
                     exists k, entry = Known k) ->
  settled_registry puzzle_dict.
Proof.
  intros Hknown key entry Hentry.
  destruct (Hknown key entry Hentry) as [k ->]. split.
  - intros h [=].
  - constructor.
Qed.

(** *** The commitment of a node without restrictions *)

Lemma get_tree_hash_precalc_length (precalculated : list bytes32)
    (p : Program) :
  Forall (fun h => length h = 32%nat) precalculated ->
  length (get_tree_hash_precalc precalculated p) = 32%nat.
Proof.
  intros Hpre. destruct p as [a|l r]; cbn [get_tree_hash_precalc].
  - destruct (decide (a ∈ precalculated)) as [Hin|_];
      [|apply sha256_bytes32].
    rewrite Forall_forall in Hpre. now apply Hpre.
  - apply sha256_bytes32.
Qed.

(** *** Tree hashes when SHA-256 does not collide on their inputs *)

Lemma collision_free_subseteq (inputs inputs' : list bytes) :
  inputs ⊆ inputs' -> collision_free inputs' -> collision_free inputs.
Proof. intros Hsub Hfree a b Ha Hb. apply Hfree; now apply Hsub. Qed.

Lemma collision_free_test_free (inputs : list bytes) :
  collision_free_test inputs -> collision_free inputs.
Proof.
  unfold collision_free_test. intros Htest a b Ha Hb Heq.
  apply elem_of_remove_dups, list_elem_of_lookup in Ha as [i Hi].
  apply elem_of_remove_dups, list_elem_of_lookup in Hb as [j Hj].
  assert (i = j) as ->.
  { apply (NoDup_lookup _ i j (sha256 a) Htest).
    - now rewrite list_lookup_fmap, Hi.
    - now rewrite list_lookup_fmap, Hj, Heq. }
  congruence.
Qed.

Lemma collision_free_app_l (inputs inputs' : list bytes) :
  collision_free (inputs ++ inputs') -> collision_free inputs.
Proof.
  apply collision_free_subseteq. intros x Hx. apply elem_of_app. now left.
Qed.

Lemma collision_free_app_r (inputs inputs' : list bytes) :
  collision_free (inputs ++ inputs') -> collision_free inputs'.
Proof.
  apply collision_free_subseteq. intros x Hx. apply elem_of_app. now right.
Qed.

Lemma collision_free_halves (i i' : bytes) (A B A' B' : list bytes) :
  collision_free ((i :: A ++ B) ++ (i' :: A' ++ B')) ->
  collision_free (A ++ A') /\ collision_free (B ++ B').
Proof.
  intros Hfree. split; (eapply collision_free_subseteq; [|exact Hfree]);
    intros x Hx; apply elem_of_app in Hx as [Hx|Hx]; apply elem_of_app;
    [left|right|left|right]; apply list_elem_of_further, elem_of_app;
    [left|left|right|right]; exact Hx.
Qed.

(** Two programs with the same hash match at every position, when
    [sha256] does not collide on the inputs of the two computations. *)
Lemma tree_hash_match (S S' : list bytes32) (p q : Program) :
  Forall (fun h => length h = 32%nat) S ->
  Forall (fun h => length h = 32%nat) S' ->
  collision_free (hash_inputs S p ++ hash_inputs S' q) ->
  get_tree_hash_precalc S p = get_tree_hash_precalc S' q ->
  hashes_match S S' p q.
Proof.
  intros HS HS'. revert q.
  induction p as [a|l IHl r IHr]; intros [b|l' r'] Hfree Heq;
    cbn [hashes_match]; (split; [exact Heq|]);
    cbn [get_tree_hash_precalc hash_inputs] in Heq, Hfree.
  - destruct (decide (a ∈ S)) as [Ha|Ha]; [now left|].
    destruct (decide (b ∈ S')) as [Hb|Hb]; [now right; left|].
    right. right.
    assert (x01 :: a = x01 :: b) as Hab
        by (apply Hfree; [apply list_elem_of_here
                         |apply list_elem_of_further, list_elem_of_here
                         |exact Heq]).
    now injection Hab.
  - destruct (decide (a ∈ S)) as [Ha|Ha]; [exact Ha|]. exfalso.
    assert (x01 :: a
            = x02 :: get_tree_hash_precalc S' l' ++ get_tree_hash_precalc S' r')
      as Hab
        by (apply Hfree; [apply list_elem_of_here
                         |apply list_elem_of_further, list_elem_of_here
                         |exact Heq]).
    discriminate Hab.
  - destruct (decide (b ∈ S')) as [Hb|Hb]; [exact Hb|]. exfalso.
    assert (x02 :: get_tree_hash_precalc S l ++ get_tree_hash_precalc S r
            = x01 :: b) as Hab.
    { apply Hfree; [apply list_elem_of_here| |exact Heq].
      rewrite elem_of_app. right. apply list_elem_of_here. }
    discriminate Hab.
  - assert (x02 :: get_tree_hash_precalc S l ++ get_tree_hash_precalc S r
            = x02 :: get_tree_hash_precalc S' l' ++ get_tree_hash_precalc S' r')
      as Hab.
    { apply Hfree; [apply list_elem_of_here| |exact Heq].
      rewrite elem_of_app. right. apply list_elem_of_here. }
    injection Hab as Hab. apply app_inj_1 in Hab as [Hl Hr];
      [|now rewrite !get_tree_hash_precalc_length].
    apply collision_free_halves in Hfree as [Hfl Hfr].
    split; [now apply IHl|now apply IHr].
Qed.

Lemma hashes_match_hash (S S' : list bytes32) (p q : Program) :
  hashes_match S S' p q ->
  get_tree_hash_precalc S p = get_tree_hash_precalc S' q.
Proof. destruct p, q; now intros [H _]. Qed.

Lemma hashes_match_Pair (S S' : list bytes32) (l r l' r' : Program) :
  hashes_match S S' (Pair l r) (Pair l' r') ->
  hashes_match S S' l l' /\ hashes_match S S' r r'.
Proof. now intros [_ H]. Qed.

Lemma hashes_match_Atom (S S' : list bytes32) (a b : bytes) :
  hashes_match S S' (Atom a) (Atom b) -> a ∈ S \/ b ∈ S' \/ a = b.
Proof. now intros [_ H]. Qed.

(** Without precalculated hashes, programs that match are equal. *)
Lemma hashes_match_nil (p q : Program) : hashes_match [] [] p q -> p = q.
Proof.
  revert q. induction p as [a|l IHl r IHr]; intros [b|l' r'];
    cbn [hashes_match]; intros [_ H].
  - destruct H as [H|[H|H]]; [inversion H|inversion H|now subst].
  - inversion H.
  - inversion H.
  - destruct H as [Hl Hr]. now rewrite (IHl l' Hl), (IHr r' Hr).
Qed.

Lemma curry_2 (self : Program) (a b : PyVal) :
  curry self [a; b]
  = Pair (Atom [x02])
      (Pair (Pair (Atom [x01]) self)
         (Pair (Pair (Atom [x04])
                  (Pair (Pair (Atom [x01]) (Program_to a))
                     (Pair (Pair (Atom [x04])
                              (Pair (Pair (Atom [x01]) (Program_to b))
                                 (Pair (Atom [x01]) Program_nil)))
                        Program_nil)))
            Program_nil)).
Proof. reflexivity. Qed.

Lemma curry_3 (self : Program) (a b c : PyVal) :
  curry self [a; b; c]
  = Pair (Atom [x02])
      (Pair (Pair (Atom [x01]) self)
         (Pair (Pair (Atom [x04])
                  (Pair (Pair (Atom [x01]) (Program_to a))
                     (Pair (Pair (Atom [x04])
                              (Pair (Pair (Atom [x01]) (Program_to b))
                                 (Pair (Pair (Atom [x04])
                                          (Pair (Pair (Atom [x01])
                                                   (Program_to c))
                                             (Pair (Atom [x01]) Program_nil)))
                                    Program_nil)))
                        Program_nil)))
            Program_nil)).
Proof. reflexivity. Qed.

(** The index wrap determines the hash it wraps and, when its atom is not
    32 bytes long, the nonce, when [sha256] does not collide on the inputs
    of the two wraps. *)
Lemma index_wrap_hash_inj (nonce nonce' : Z) (h h' : bytes32) :
  length h = 32%nat -> length h' = 32%nat ->
  collision_free (wrap_inputs nonce h ++ wrap_inputs nonce' h') ->
  index_wrap_hash nonce h = index_wrap_hash nonce' h' ->
  h = h'
  /\ (length (int_to_bytes nonce) <> 32%nat ->
      length (int_to_bytes nonce') <> 32%nat -> nonce = nonce').
Proof.
  intros Hh Hh' Hfree Heq. unfold index_wrap_hash in Heq.
  unfold wrap_inputs in Hfree.
  assert (Forall (fun x => length x = 32%nat) [h]) as HS by now constructor.
  assert (Forall (fun x => length x = 32%nat) [h']) as HS' by now constructor.
  pose proof (tree_hash_match [h] [h'] _ _ HS HS' Hfree Heq) as Hmatch.
  rewrite !curry_2 in Hmatch.
  change (Program_to (PyInt ?z)) with (Atom (int_to_bytes z)) in Hmatch.
  change (Program_to (PyBytes ?b)) with (Atom b) in Hmatch.
  apply hashes_match_Pair in Hmatch as [_ Hmatch].
  apply hashes_match_Pair in Hmatch as [_ Hmatch].
  apply hashes_match_Pair in Hmatch as [Hmatch _].
  apply hashes_match_Pair in Hmatch as [_ Hmatch].
  apply hashes_match_Pair in Hmatch as [Hnonce Hmatch].
  apply hashes_match_Pair in Hnonce as [_ Hnonce].
  apply hashes_match_Pair in Hmatch as [Hmatch _].
  apply hashes_match_Pair in Hmatch as [_ Hmatch].
  apply hashes_match_Pair in Hmatch as [Hmatch _].
  apply hashes_match_Pair in Hmatch as [_ Hhash].
  apply hashes_match_hash in Hhash.
  apply hashes_match_Atom in Hnonce.
  split.
  - cbn [get_tree_hash_precalc] in Hhash.
    destruct (decide (h ∈ [h])) as [_|Hn]; [|now contradiction Hn; left].
    destruct (decide (h' ∈ [h'])) as [_|Hn]; [|now contradiction Hn; left].
    exact Hhash.
  - intros Hn Hn'. destruct Hnonce as [Hin|[Hin|Hsame]].
    + apply list_elem_of_singleton in Hin. congruence.
    + apply list_elem_of_singleton in Hin. congruence.
    + apply (f_equal int_from_bytes) in Hsame.
      now rewrite !int_from_bytes_int_to_bytes in Hsame.
Qed.

Lemma Program_size_curry_3_last (self inner : Program) (a b : PyVal) :
  (Program_size inner < Program_size (curry self [a; b; PyProg inner]))%nat.
Proof. rewrite curry_3. cbn [Program_size Program_to]. lia. Qed.

Lemma get_tree_hash_precalc_Pair (precalculated : list bytes32)
    (l r : Program) :
  get_tree_hash_precalc precalculated (Pair l r)
  = sha256 (x02 :: get_tree_hash_precalc precalculated l
                ++ get_tree_hash_precalc precalculated r).
Proof. reflexivity. Qed.

(** Two programs with the same tree hash are equal, when [sha256] does not
    collide on the inputs of the two hashes. *)
Lemma tree_hash_inj (p q : Program) :
  collision_free (hash_inputs [] p ++ hash_inputs [] q) ->
  get_tree_hash p = get_tree_hash q -> p = q.
Proof.
  intros Hfree Heq. apply hashes_match_nil.
  apply tree_hash_match; [constructor|constructor|exact Hfree|exact Heq].
Qed.

(** The hash of the restriction layer over no restriction, computed from
    the hash of the inner puzzle, is the tree hash of the layer curried with
    two empty lists and the inner puzzle. *)
Lemma restriction_wrap_hash_empty (inner_puzzle : Program) :
  restriction_wrap_hash [] [] (get_tree_hash inner_puzzle)
  = get_tree_hash
      (curry RESTRICTION_MOD [PyList []; PyList []; PyProg inner_puzzle]).
Proof.
  unfold restriction_wrap_hash. rewrite !curry_3.
  assert (length RESTRICTION_MOD_HASH = 32%nat) as HR
      by (apply get_tree_hash_precalc_length; constructor).
  assert (length (get_tree_hash inner_puzzle) = 32%nat) as HI
      by (apply get_tree_hash_precalc_length; constructor).
  set (h := get_tree_hash inner_puzzle) in *.
  assert (forall a : bytes, (length a <= 1)%nat ->
            get_tree_hash_precalc ([] ++ [] ++ [RESTRICTION_MOD_HASH; h]) (Atom a)
            = get_tree_hash (Atom a)) as Hsmall.
  { intros a Ha. unfold get_tree_hash. cbn [get_tree_hash_precalc app].
    destruct (decide (a ∈ [RESTRICTION_MOD_HASH; h])) as [Hin|_].
    - apply list_elem_of_In in Hin. cbn in Hin.
      destruct Hin as [<-|[<-|[]]]; lia.
    - destruct (decide (a ∈ [])) as [Hin|_]; [inversion Hin|reflexivity]. }
  assert (get_tree_hash_precalc ([] ++ [] ++ [RESTRICTION_MOD_HASH; h])
            (Atom RESTRICTION_MOD_HASH) = get_tree_hash RESTRICTION_MOD)
    as Hmod.
  { cbn [get_tree_hash_precalc app].
    destruct (decide (RESTRICTION_MOD_HASH ∈ [RESTRICTION_MOD_HASH; h]))
      as [_|Hn]; [reflexivity|]. contradiction Hn. apply list_elem_of_here. }
  assert (get_tree_hash_precalc ([] ++ [] ++ [RESTRICTION_MOD_HASH; h])
            (Atom h) = get_tree_hash inner_puzzle) as Hinner.
  { cbn [get_tree_hash_precalc app].
    destruct (decide (h ∈ [RESTRICTION_MOD_HASH; h])) as [_|Hn];
      [reflexivity|].
    contradiction Hn. apply list_elem_of_further, list_elem_of_here. }
  cbn [Program_to fmap list_fmap]. unfold Program_nil.
  change (Program_to (PyList [])) with (Atom []).
  unfold get_tree_hash in *.
  rewrite !get_tree_hash_precalc_Pair, Hmod, Hinner.
  rewrite !Hsmall by (cbn; lia). reflexivity.
Qed.

Lemma restriction_wrap_hash_length (morpher_hashes validator_hashes : list bytes32)
    (inner_puzzle_hash : bytes32) :
  length (restriction_wrap_hash morpher_hashes validator_hashes
            inner_puzzle_hash) = 32%nat.
Proof.
  unfold restriction_wrap_hash. rewrite curry_3.
  cbn [get_tree_hash_precalc]. apply sha256_bytes32.
Qed.

Lemma puzzle_hash_no_restrictions_eq (nonce : Z) (puzzle : Puzzle) :
  puzzle_hash (PWR nonce [] puzzle)
  = (inner_puzzle_hash ← Puzzle_puzzle_hash puzzle nonce;
     Ok (index_wrap_hash nonce inner_puzzle_hash)).
Proof.
  cbn [puzzle_hash]. destruct (Puzzle_puzzle_hash puzzle nonce); reflexivity.
Qed.

(** With and without a restriction layer over no restriction, the
    commitments of an inner puzzle differ when [sha256] does not collide
    on the inputs named. *)
Lemma no_layer_differs (nonce : Z) (inner_puzzle : Program) :
  collision_free (no_layer_inputs nonce inner_puzzle) ->
  index_wrap_hash nonce (get_tree_hash inner_puzzle)
  <> index_wrap_hash nonce
       (restriction_wrap_hash [] [] (get_tree_hash inner_puzzle)).
Proof.
  unfold no_layer_inputs. rewrite app_assoc. intros Hfree Heq.
  apply index_wrap_hash_inj in Heq as [Heq _].
  - rewrite restriction_wrap_hash_empty in Heq.
    apply tree_hash_inj in Heq.
    + pose proof (Program_size_curry_3_last RESTRICTION_MOD inner_puzzle
                    (PyList []) (PyList [])) as Hsize.
      rewrite <- Heq in Hsize. lia.
    + exact (collision_free_app_r _ _ Hfree).
  - apply get_tree_hash_precalc_length. constructor.
  - apply restriction_wrap_hash_length.
  - exact (collision_free_app_l _ _ Hfree).
Qed.

(** C3: the [puzzle_hash] of a node without restrictions is the tree hash
    of [INDEX_WRAPPER] curried with the nonce and the hash of the inner
    puzzle, that hash standing for the inner puzzle. The restriction layer
    is skipped: the hash wrapped is the inner hash itself and not the hash
    of a restriction layer over two empty lists. The result differs from
    the one that such a layer would give: for an inner hash that is the
    tree hash of a puzzle, whenever [sha256] takes no two of the inputs of
    the hashes compared ([no_layer_inputs]) to the same value; and for any
    32-byte inner hash other than the hash of its own restriction layer,
    whenever [sha256] takes no two of the inputs of the two index wraps to
    the same value. The puzzle revealed is the index wrap of the inner
    puzzle, and never the index wrap of a restriction layer over it. *)
Theorem puzzle_hash_no_restrictions (nonce : Z) (puzzle : Puzzle) :
  puzzle_hash (PWR nonce [] puzzle)
  = (inner_puzzle_hash ← Puzzle_puzzle_hash puzzle nonce;
     Ok (get_tree_hash_precalc [inner_puzzle_hash]
           (curry INDEX_WRAPPER [PyInt nonce; PyBytes inner_puzzle_hash])))
  /\ (forall inner_puzzle,
        Puzzle_puzzle_hash puzzle nonce = Ok (get_tree_hash inner_puzzle) ->
        collision_free (no_layer_inputs nonce inner_puzzle) ->
        puzzle_hash (PWR nonce [] puzzle)
        <> Ok (index_wrap_hash nonce
                 (restriction_wrap_hash [] [] (get_tree_hash inner_puzzle))))
  /\ (forall inner_puzzle_hash,
        Puzzle_puzzle_hash puzzle nonce = Ok inner_puzzle_hash ->
        length inner_puzzle_hash = 32%nat ->
        inner_puzzle_hash <> restriction_wrap_hash [] [] inner_puzzle_hash ->
        collision_free
          (wrap_inputs nonce inner_puzzle_hash
           ++ wrap_inputs nonce
                (restriction_wrap_hash [] [] inner_puzzle_hash)) ->
        puzzle_hash (PWR nonce [] puzzle)
        <> Ok (index_wrap_hash nonce
                 (restriction_wrap_hash [] [] inner_puzzle_hash)))
  /\ puzzle_reveal (PWR nonce [] puzzle)
     = (inner_puzzle ← Puzzle_puzzle puzzle nonce;
        Ok (curry INDEX_WRAPPER [PyInt nonce; PyProg inner_puzzle]))
  /\ (forall inner_puzzle,
        curry INDEX_WRAPPER [PyInt nonce; PyProg inner_puzzle]
        <> curry INDEX_WRAPPER
             [PyInt nonce;
              PyProg (curry RESTRICTION_MOD
                        [PyList []; PyList []; PyProg inner_puzzle])]).
Proof.
  split; [|split; [|split; [|split]]].
  - apply puzzle_hash_no_restrictions_eq.
  - intros inner Hh Hfree. rewrite puzzle_hash_no_restrictions_eq, Hh.
    simpl_result. intros [= Heq].
    exact (no_layer_differs nonce inner Hfree Heq).
  - intros h Hh Hlen Hne Hfree. rewrite puzzle_hash_no_restrictions_eq, Hh.
    simpl_result. intros [= Heq].
    apply index_wrap_hash_inj in Heq as [Heq _]; [contradiction|assumption| |].
    + apply restriction_wrap_hash_length.
    + exact Hfree.
  - unfold puzzle_reveal.
    destruct (Puzzle_puzzle puzzle nonce) eqn:E; cbn -[curry INDEX_WRAPPER];
      rewrite E; reflexivity.
  - intros inner Heq. rewrite !curry_2 in Heq. cbn [Program_to] in Heq.
    injection Heq as Heq.
    pose proof (Program_size_curry_3_last RESTRICTION_MOD inner
                  (PyList []) (PyList [])) as Hsize.
    rewrite <- Heq in Hsize. lia.
Qed.

(** ** Further properties *)

(** *** Hints *)

Lemma as_bytes32_inv (p : Program) (h : bytes32) :
  as_bytes32 p = Ok h -> p = Atom h /\ length h = 32%nat.
Proof.
  unfold as_bytes32, to_bytes32. destruct p as [a|]; [|discriminate].
  cbn [atom]. destruct (decide _); [|discriminate]. now intros [= <-].
Qed.

Lemma RestrictionHint_from_program_inv (prog : Program) (h : RestrictionHint.t) :
  RestrictionHint.from_program prog = Ok h ->
  length (RestrictionHint.puzhash h) = 32%nat.
Proof.
  unfold RestrictionHint.from_program.
  destruct (as_iter prog) as [|flag [|ph [|mm [|? ?]]]]; try discriminate.
  destruct (as_bytes32 ph) as [b|] eqn:Hb; [|discriminate].
  simpl_result. intros [= <-]. now apply as_bytes32_inv in Hb.
Qed.

Lemma PuzzleHint_from_program_inv (prog : Program) (h : PuzzleHint.t) :
  PuzzleHint.from_program prog = Ok h ->
  length (PuzzleHint.puzhash h) = 32%nat.
Proof.
  unfold PuzzleHint.from_program.
  destruct (as_iter prog) as [|ph [|mm [|? ?]]]; try discriminate.
  destruct (as_bytes32 ph) as [b|] eqn:Hb; [|discriminate].
  simpl_result. intros [= <-]. now apply as_bytes32_inv in Hb.
Qed.

(** X1: reading back the program of a puzzle hint gives the hint again, for
    any 32-byte hash and any memo. *)
Theorem PuzzleHint_roundtrip (puzhash : bytes32) (memo : Program) :
  length puzhash = 32%nat ->
  PuzzleHint.from_program (PuzzleHint.to_program (PuzzleHint.mk puzhash memo))
  = Ok (PuzzleHint.mk puzhash memo).
Proof. intros Hlen. now apply PuzzleHint_from_to. Qed.

(** X2: reading back the program of an m-of-n hint gives the hint again,
    for any integer [m], negative ones and zero among them, and any list of
    member memos. *)
Theorem MofNHint_roundtrip (m : Z) (member_memos : list Program) :
  MofNHint.from_program (MofNHint.to_program (MofNHint.mk m member_memos))
  = Ok (MofNHint.mk m member_memos).
Proof. apply MofNHint_from_to. Qed.

(** X3: a hint that [from_program] returns has a 32-byte hash and is read
    back from its own program, whatever program it was first read from: a
    list that does not end with nil, or a flag that is any atom or pair
    other than nil. *)
Theorem hints_decoded_reencode (prog : Program) :
  (forall h, RestrictionHint.from_program prog = Ok h ->
             length (RestrictionHint.puzhash h) = 32%nat
             /\ RestrictionHint.from_program (RestrictionHint.to_program h)
                = Ok h)
  /\ (forall h, PuzzleHint.from_program prog = Ok h ->
                length (PuzzleHint.puzhash h) = 32%nat
                /\ PuzzleHint.from_program (PuzzleHint.to_program h) = Ok h).
Proof.
  split; intros h Hh.
  - pose proof (RestrictionHint_from_program_inv prog h Hh) as Hlen.
    split; [assumption|now apply RestrictionHint_from_to].
  - pose proof (PuzzleHint_from_program_inv prog h Hh) as Hlen.
    split; [assumption|now apply PuzzleHint_from_to].
Qed.

(** *** The errors of [memo] *)

Lemma mapM_result_Err {A B} (f : A -> result B) (l : list A) (e : error) :
  mapM f l = Err e -> Exists (fun x => f x = Err e) l.
Proof.
  induction l as [|x l IH]; [discriminate|].
  rewrite mapM_result_cons. destruct (f x) as [y|e'] eqn:Hx.
  - simpl_result. destruct (mapM f l) as [k|e'']; [discriminate|].
    simpl_result. intros [= ->]. right. now apply IH.
  - simpl_result. intros [= ->]. now left.
Qed.

Lemma mapM_result_is_Ok {A B} (f : A -> result B) (l : list A) :
  Forall (fun x => is_Ok (f x)) l <-> is_Ok (mapM f l).
Proof.
  split.
  - induction 1 as [|x l [y Hy] _ [k Hk]]; [now exists []|].
    exists (y :: k). now rewrite mapM_result_cons, Hy, Hk.
  - intros [k Hk]. apply mapM_result_inv in Hk.
    induction Hk as [|x y l k Hx _ IH]; constructor; [now exists y|exact IH].
Qed.

Lemma morpher_not_validator_Err (r : Puzzle) (e : error) :
  morpher_not_validator r = Err e -> e = AttributeError.
Proof.
  destruct r as [k|h|h|m ms]; cbn; try (now intros [= <-]).
  destruct (known_morpher_not_validator k); [discriminate|now intros [= <-]].
Qed.

Lemma restriction_hint_of_flag (nonce : Z) (r : Puzzle) :
  (is_Ok (restriction_hint_of nonce r) <-> is_Ok (morpher_not_validator r))
  /\ (forall e, restriction_hint_of nonce r = Err e -> e = AttributeError).
Proof.
  unfold restriction_hint_of.
  destruct r as [k|h|h|m ms]; cbn [morpher_not_validator].
  - destruct (known_morpher_not_validator k) as [b|]; simpl_result.
    + split; [|discriminate]. split; intros _; eexists; reflexivity.
    + split; [|now intros e [= <-]]. split; intros [? [=]].
  - simpl_result. split; [|now intros e [= <-]]. split; intros [? [=]].
  - simpl_result. split; [|discriminate].
    split; intros _; eexists; reflexivity.
  - simpl_result. split; [|now intros e [= <-]]. split; intros [? [=]].
Qed.

Lemma restriction_hints_flags (nonce : Z) (restrictions : list Puzzle) :
  (is_Ok (mapM (restriction_hint_of nonce) restrictions)
   <-> Forall (fun r => is_Ok (morpher_not_validator r)) restrictions)
  /\ (forall e, mapM (restriction_hint_of nonce) restrictions = Err e ->
                e = AttributeError).
Proof.
  split.
  - rewrite <- mapM_result_is_Ok. apply Forall_iff. intros r.
    apply restriction_hint_of_flag.
  - intros e He. apply mapM_result_Err in He. apply Exists_exists in He.
    destruct He as (r & _ & Hr).
    now apply (proj2 (restriction_hint_of_flag nonce r)).
Qed.

Lemma memo_unfold (nonce : Z) (restrictions : list Puzzle) (puzzle : Puzzle) :
  memo (PWR nonce restrictions puzzle)
  = (restriction_hints ← mapM (restriction_hint_of nonce) restrictions;
     puzzle_hint ←
       match puzzle with
       | MofN m members =>
           member_memos ← mapM memo members;
           Ok (MofNHint.to_program (MofNHint.mk m member_memos))
       | _ =>
           h ← Puzzle_puzzle_hash puzzle nonce;
           mm ← Puzzle_memo puzzle nonce;
           Ok (PuzzleHint.to_program (PuzzleHint.mk h mm))
       end;
     Ok (Program_to
           (PyTuple (PyStr spec_namespace)
              (PyList [PyInt nonce;
                       PyList ((fun hint =>
                                  PyProg (RestrictionHint.to_program hint))
                                 <$> restriction_hints);
                       PyInt (if is_MofN puzzle then 1 else 0);
                       PyProg puzzle_hint])))).
Proof. destruct puzzle; reflexivity. Qed.

Lemma memo_fails_for_flags_all (t : PuzzleWithRestrictions) :
  memo_fails_for_flags t.
Proof.
  apply (PWR_tree_ind
           (fun p => match p with
                     | MofN _ ms => Forall memo_fails_for_flags ms
                     | _ => True
                     end) memo_fails_for_flags); try exact (fun _ => I).
  - intros m ms H. exact H.
  - intros n rs p _ HP. unfold memo_fails_for_flags.
    rewrite memo_unfold.
    destruct (restriction_hints_flags n rs) as [Hok Herr].
    destruct (mapM (restriction_hint_of n) rs) as [hints|e0] eqn:Hhints.
    + assert (Forall (fun r => is_Ok (morpher_not_validator r)) rs) as Hflags
          by (apply Hok; now exists hints).
      simpl_result.
      destruct p as [k|h|h|m ms]; simpl_result.
      * split; [|discriminate].
        split; [intros _; constructor; [assumption|now constructor]|].
        intros _. eexists. reflexivity.
      * split; [|discriminate].
        split; [intros _; constructor; [assumption|now constructor]|].
        intros _. eexists. reflexivity.
      * split; [|discriminate].
        split; [intros _; constructor; [assumption|now constructor]|].
        intros _. eexists. reflexivity.
      * destruct (mapM memo ms) as [mps|e1] eqn:Hms; simpl_result.
        -- split; [|discriminate].
           split; [|intros _; eexists; reflexivity].
           intros _. constructor; [assumption|]. apply flagged_MofN.
           assert (is_Ok (mapM memo ms)) as Hall by now exists mps.
           apply mapM_result_is_Ok in Hall. clear - HP Hall.
           induction HP as [|t ms [Ht _] _ IH]; [constructor|].
           inversion_clear Hall as [|? ? Hm Hms]. constructor; auto.
           now apply Ht.
        -- split.
           ++ split; [intros [? [=]]|]. intros Hf. exfalso.
              inversion_clear Hf as [? ? ? _ Hin].
              inversion_clear Hin as [? Hleaf|? ? Hms'];
                [discriminate Hleaf|].
              assert (is_Ok (mapM memo ms)) as [? Hall];
                [|rewrite Hms in Hall; discriminate Hall].
              apply mapM_result_is_Ok. clear - HP Hms'.
              induction HP as [|t ms [Ht _] _ IH]; [constructor|].
              inversion_clear Hms' as [|? ? Hm Hrest]. constructor; auto.
              now apply Ht.
           ++ intros e [= <-]. apply mapM_result_Err in Hms.
              clear - HP Hms.
              induction HP as [|t ms [_ Ht] _ IH]; [inversion Hms|].
              inversion_clear Hms as [? ? Hh|? ? Hh]; auto.
    + simpl_result. split; [|intros e [= <-]; now apply Herr].
      split; [intros [? [=]]|]. intros Hf. exfalso.
      inversion_clear Hf as [? ? ? Hflags _].
      apply Hok in Hflags as [? [=]].
Qed.

(** X4: [memo] succeeds exactly on the trees all of whose restrictions,
    at the node and at every member below an [MofN], have the
    [morpher_not_validator] attribute, and it fails with [AttributeError]
    on the others. It never raises [NotImplementedError]: the
    [memo] of [MofN] is not called. *)
Theorem memo_errors (t : PuzzleWithRestrictions) :
  (is_Ok (memo t) <-> flagged t)
  /\ (forall e, memo t = Err e -> e = AttributeError)
  /\ memo t <> Err NotImplementedError.
Proof.
  destruct (memo_fails_for_flags_all t) as [Hok Herr].
  split; [exact Hok|]. split; [exact Herr|].
  intros He. apply Herr in He. discriminate He.
Qed.

(** *** What [from_memo] returns *)

Lemma RestrictionHints_from_program_inv (progs : list Program)
    (hints : list RestrictionHint.t) :
  mapM RestrictionHint.from_program progs = Ok hints ->
  Forall (fun h => length (RestrictionHint.puzhash h) = 32%nat) hints.
Proof.
  intros Hm. apply mapM_result_inv in Hm.
  induction Hm as [|prog h progs hints Hh _ IH]; constructor; [|exact IH].
  now apply (RestrictionHint_from_program_inv prog).
Qed.

Lemma from_memo_fuel_decoded (fuel : nat) (memo : Program)
    (t : PuzzleWithRestrictions) :
  from_memo_fuel fuel memo = Ok t -> decoded t /\ constructed t.
Proof.
  revert memo t. induction fuel as [|fuel IH]; intros memo t; [discriminate|].
  cbn [from_memo_fuel].
  destruct memo as [a|memo_first memo_rest]; [discriminate|].
  destruct (decide _) as [?|_]; [discriminate|].
  destruct (as_iter memo_rest)
    as [|nonce [|rhp [|fbp [|php [|? ?]]]]]; try discriminate.
  destruct (mapM RestrictionHint.from_program (as_iter rhp))
    as [hints|] eqn:Hhints; [|discriminate].
  apply RestrictionHints_from_program_inv in Hhints.
  assert (Forall (fun r => exists h, r = UnknownRestriction h
                                     /\ length (RestrictionHint.puzhash h)
                                        = 32%nat)
            (UnknownRestriction <$> hints)) as Hdec.
  { apply Forall_fmap. eapply Forall_impl; [exact Hhints|].
    intros h Hh. now exists h. }
  assert (Forall constructed_puzzle (UnknownRestriction <$> hints)) as Hcon.
  { apply Forall_fmap, Forall_true. intros h. constructor. }
  simpl_result. destruct (bool_decide _).
  - destruct (MofNHint.from_program php) as [hint|]; [|discriminate].
    simpl_result.
    destruct (mapM (from_memo_fuel fuel) (MofNHint.member_memos hint))
      as [members|] eqn:Hmembers; [|discriminate].
    simpl_result.
    destruct (MofN_new (MofNHint.m hint) members) as [p|] eqn:Hnew;
      [|discriminate].
    simpl_result. destruct (as_int nonce) as [z|]; [|discriminate].
    simpl_result. intros [= <-].
    pose proof (MofN_new_inv _ _ _ Hnew) as ->.
    apply mapM_result_inv in Hmembers.
    assert (Forall (fun t => decoded t /\ constructed t) members) as Hall.
    { clear - IH Hmembers. revert Hmembers.
      generalize (MofNHint.member_memos hint). intros mps Hmembers.
      induction Hmembers as [|mp t mps ts Ht _ IHm]; constructor; eauto. }
    apply Forall_and in Hall as [Hd Hc].
    split; constructor; try assumption; now constructor.
  - destruct (PuzzleHint.from_program php) as [hint|] eqn:Hhint;
      [|discriminate].
    simpl_result. destruct (as_int nonce) as [z|]; [|discriminate].
    simpl_result. intros [= <-].
    apply PuzzleHint_from_program_inv in Hhint.
    split; constructor; try assumption; now constructor.
Qed.

(** X5: a tree that [from_memo] returns has only unknown leaves, each with a
    32-byte hash, and every [MofN] in it passed the check of the
    constructor: no two members of a node have the same puzzle hash. *)
Theorem from_memo_decoded (memo : Program) (t : PuzzleWithRestrictions) :
  from_memo memo = Ok t -> decoded t /\ constructed t.
Proof. apply from_memo_fuel_decoded. Qed.

(** *** Reading back the memo of any tree *)

Lemma decoded_memoable (t : PuzzleWithRestrictions) : decoded t -> memoable t.
Proof.
  revert t.
  apply (PWR_tree_ind
           (fun p => match p with
                     | MofN _ ms => Forall (fun t => decoded t -> memoable t) ms
                     | _ => True
                     end)
           (fun t => decoded t -> memoable t)); try exact (fun _ => I).
  - intros m ms H. exact H.
  - intros n rs p _ HP Hd. inversion_clear Hd as [? ? ? Hrs Hp].
    constructor.
    + eapply Forall_impl; [exact Hrs|]. intros r Hr. now right.
    + destruct Hp as [h Hh|m ms Hms].
      * apply memoable_leaf. right. left. now exists h.
      * apply memoable_MofN. clear - HP Hms.
        induction HP as [|t ms Ht _ IH]; [constructor|].
        inversion_clear Hms as [|? ? Hd Hds]. constructor; auto.
Qed.

Lemma decoded_forget (t : PuzzleWithRestrictions) : decoded t -> forget t = t.
Proof.
  revert t.
  apply (PWR_tree_ind
           (fun p => match p with
                     | MofN _ ms => Forall (fun t => decoded t -> forget t = t) ms
                     | _ => True
                     end)
           (fun t => decoded t -> forget t = t)); try exact (fun _ => I).
  - intros m ms H. exact H.
  - intros n rs p _ HP Hd. inversion_clear Hd as [? ? ? Hrs Hp].
    cbn [forget].
    assert (forget_restriction n <$> rs = rs) as ->.
    { clear - Hrs. induction Hrs as [|r rs (h & -> & _) _ IH]; [reflexivity|].
      rewrite fmap_cons, IH. reflexivity. }
    destruct Hp as [h Hh|m ms Hms]; [reflexivity|].
    do 2 f_equal. clear - HP Hms.
    induction HP as [|t ms Ht _ IH]; [reflexivity|].
    inversion_clear Hms as [|? ? Hd Hds].
    rewrite fmap_cons, (Ht Hd), (IH Hds). reflexivity.
Qed.

(** The restrictions rebuilt from the hints of restrictions that have a
    hint to give are the forgotten restrictions, with the same flags and
    hashes. *)
Lemma hinted_restrictions_hints (nonce : Z) (restrictions : list Puzzle) :
  Forall hinted_restriction restrictions ->
  exists hints,
    mapM (restriction_hint_of nonce) restrictions = Ok hints
    /\ Forall (fun h => length (RestrictionHint.puzhash h) = 32%nat) hints
    /\ UnknownRestriction <$> hints = forget_restriction nonce <$> restrictions
    /\ length hints = length restrictions
    /\ (forall cond : bool -> bool,
          comprehension
            (fun r => cond <$> morpher_not_validator r)
            (fun r => Puzzle_puzzle_hash r nonce)
            (UnknownRestriction <$> hints)
          = comprehension
              (fun r => cond <$> morpher_not_validator r)
              (fun r => Puzzle_puzzle_hash r nonce)
              restrictions).
Proof.
  induction 1 as [|r rs Hr _ (hints & Hm & Hl & Hf & Hlen & Hc)].
  - exists []. repeat split; constructor.
  - destruct Hr as [(k & b & -> & Hb & Hk)|(h & -> & Hh)].
    + exists (RestrictionHint.mk b (known_puzzle_hash k nonce)
                (known_memo k nonce) :: hints).
      split; [|split; [|split; [|split]]].
      * assert (restriction_hint_of nonce (Known k)
                = Ok (RestrictionHint.mk b (known_puzzle_hash k nonce)
                        (known_memo k nonce))) as Hr.
        { unfold restriction_hint_of.
          cbn [morpher_not_validator Puzzle_puzzle_hash Puzzle_memo].
          now rewrite Hb. }
        now rewrite mapM_result_cons, Hr, Hm.
      * constructor; [apply Hk|exact Hl].
      * rewrite !fmap_cons, Hf. cbn [forget_restriction].
        now rewrite Hb.
      * cbn. now rewrite Hlen.
      * intros cond. rewrite fmap_cons, !comprehension_cons.
        cbn [morpher_not_validator RestrictionHint.morpher_not_validator
             Puzzle_puzzle_hash RestrictionHint.puzhash].
        rewrite Hb. simpl_result. now rewrite Hc.
    + exists (h :: hints).
      split; [|split; [|split; [|split]]].
      * assert (restriction_hint_of nonce (UnknownRestriction h) = Ok h) as Hr
            by now destruct h.
        now rewrite mapM_result_cons, Hr, Hm.
      * now constructor.
      * rewrite !fmap_cons, Hf. reflexivity.
      * cbn. now rewrite Hlen.
      * intros cond. rewrite fmap_cons, !comprehension_cons.
        now rewrite Hc.
Qed.

Lemma members_forget (ms : list PuzzleWithRestrictions) :
  Forall memo_forgets ms ->
  Forall memoable ms -> Forall constructed ms ->
  exists mps,
    mapM memo ms = Ok mps
    /\ Forall2 (fun mp t =>
                  forall fuel, (Program_size mp <= fuel)%nat ->
                               from_memo_fuel fuel mp = Ok t)
         mps (forget <$> ms)
    /\ Forall2 (fun t t' => puzzle_hash t' = puzzle_hash t) ms (forget <$> ms).
Proof.
  induction 1 as [|t ms Ht _ IH]; intros Hk Hc.
  - exists []. repeat split; constructor.
  - inversion_clear Hk as [|? ? Hkt Hkms]. inversion_clear Hc as [|? ? Hct Hcms].
    destruct (Ht Hkt Hct) as (mp & Hm & Hf & Hh).
    destruct (IH Hkms Hcms) as (mps & Hms & Hfs & Hhs).
    exists (mp :: mps). split; [|split].
    + now rewrite mapM_result_cons, Hm, Hms.
    + rewrite fmap_cons. now constructor.
    + rewrite fmap_cons. now constructor.
Qed.

Lemma from_memo_fuel_members (fuel N : nat) (mps : list Program)
    (ts : list PuzzleWithRestrictions) :
  Forall2 (fun mp t =>
             forall fuel, (Program_size mp <= fuel)%nat ->
                          from_memo_fuel fuel mp = Ok t) mps ts ->
  Forall (fun mp => (Program_size mp < N)%nat) mps ->
  (N <= S fuel)%nat ->
  mapM (from_memo_fuel fuel) mps = Ok ts.
Proof.
  intros Hfs Hsz Hfuel. apply mapM_result_Forall2.
  induction Hfs as [|mp t' mps ts Hmp _ IH]; constructor.
  - apply Hmp. apply Forall_cons_1 in Hsz as [Hlt _]. lia.
  - apply IH. now apply Forall_cons_1 in Hsz as [_ Hrest].
Qed.

Lemma memo_leaf_read_back (fuel : nat) (n : Z)
    (hints : list RestrictionHint.t) (h : PuzzleHint.t) :
  Forall (fun h => length (RestrictionHint.puzhash h) = 32%nat) hints ->
  length (PuzzleHint.puzhash h) = 32%nat ->
  from_memo_fuel (S fuel)
    (Program_to
       (PyTuple (PyStr spec_namespace)
          (PyList [PyInt n;
                   PyList ((fun hint => PyProg (RestrictionHint.to_program hint))
                             <$> hints);
                   PyInt 0;
                   PyProg (PuzzleHint.to_program h)])))
  = Ok (PWR n (UnknownRestriction <$> hints) (UnknownPuzzle h)).
Proof.
  intros Hlen32 Hh.
  rewrite from_memo_fuel_memo_shape, (RestrictionHints_from_to _ Hlen32).
  simpl_result.
  change (bool_decide (Program_to (PyInt 0) ≠ Program_to PyNone)) with false.
  cbv iota. now rewrite PuzzleHint_from_to.
Qed.

Lemma memo_forgets_all (t : PuzzleWithRestrictions) : memo_forgets t.
Proof.
  apply (PWR_tree_ind
           (fun p => match p with
                     | MofN _ ms => Forall memo_forgets ms
                     | _ => True
                     end) memo_forgets); try exact (fun _ => I).
  - intros m ms H. exact H.
  - intros n rs p _ HP Hk Hc.
    inversion_clear Hk as [? ? ? Hkr Hkp].
    inversion_clear Hc as [? ? ? _ Hcp].
    destruct (hinted_restrictions_hints n rs Hkr)
      as (hints & Hhints & Hlen32 & Hforget & Hlen & Hcompr).
    assert (forall mp : Program, (Program_size mp <= 0)%nat -> False) as Hpos
        by (intros mp; pose proof (Program_size_pos mp); lia).
    destruct Hkp as [p Hleaf|m ms Hkms].
    + (* a leaf with a hint to give *)
      assert (exists h,
                 Puzzle_puzzle_hash p n = Ok (PuzzleHint.puzhash h)
                 /\ Puzzle_memo p n = Ok (PuzzleHint.memo h)
                 /\ is_MofN p = false
                 /\ length (PuzzleHint.puzhash h) = 32%nat
                 /\ forget (PWR n rs p)
                    = PWR n (UnknownRestriction <$> hints) (UnknownPuzzle h))
        as (h & Hph & Hpm & Hflag & Hh & Hf).
      { destruct Hleaf as [(k & -> & Hk)|[(h & -> & Hh)|(h & -> & Hh)]].
        - exists (PuzzleHint.mk (known_puzzle_hash k n) (known_memo k n)).
          cbn [forget]. rewrite Hforget. repeat split. apply Hk.
        - exists h. cbn [forget]. rewrite Hforget. now repeat split.
        - exists (PuzzleHint.mk (RestrictionHint.puzhash h)
                    (RestrictionHint.memo h)).
          cbn [forget]. rewrite Hforget. now repeat split. }
      exists (Program_to
                (PyTuple (PyStr spec_namespace)
                   (PyList [PyInt n;
                            PyList ((fun hint =>
                                       PyProg (RestrictionHint.to_program hint))
                                      <$> hints);
                            PyInt 0;
                            PyProg (PuzzleHint.to_program h)]))).
      split; [|split].
      * rewrite memo_unfold, Hhints. simpl_result.
        assert (match p with
                | MofN m members =>
                    member_memos ← mapM memo members;
                    Ok (MofNHint.to_program (MofNHint.mk m member_memos))
                | _ =>
                    h ← Puzzle_puzzle_hash p n;
                    mm ← Puzzle_memo p n;
                    Ok (PuzzleHint.to_program (PuzzleHint.mk h mm))
                end = Ok (PuzzleHint.to_program h)) as ->.
        { destruct p as [k|h'|h'|m ms]; [| | |discriminate Hflag];
            rewrite Hph, Hpm; simpl_result; now destruct h. }
        simpl_result. now rewrite Hflag.
      * intros [|fuel] Hfuel; [now apply Hpos in Hfuel|].
        rewrite Hf. now apply memo_leaf_read_back.
      * rewrite Hf. apply puzzle_hash_unknown_restrictions; [assumption..|].
        now rewrite Hph.
    + (* an MofN *)
      inversion_clear Hcp as [| | |? ? Hcms Hnew].
      destruct (members_forget ms HP Hkms Hcms) as (mps & Hmps & Hfs & Hhs).
      pose proof (mapM_puzzle_hash_eq _ _ Hhs) as Hnodes.
      assert (forget (PWR n rs (MofN m ms))
              = PWR n (UnknownRestriction <$> hints) (MofN m (forget <$> ms)))
        as Hf by (cbn [forget]; now rewrite Hforget).
      eexists. split; [|split].
      * rewrite memo_unfold, Hhints, Hmps. simpl_result.
        cbn [is_MofN]. reflexivity.
      * intros [|fuel] Hfuel; [now apply Hpos in Hfuel|].
        rewrite from_memo_fuel_memo_shape, (RestrictionHints_from_to _ Hlen32).
        simpl_result.
        change (bool_decide (Program_to (PyInt 1) ≠ Program_to PyNone))
          with true. cbv iota.
        rewrite MofNHint_from_to. simpl_result.
        cbn [MofNHint.m MofNHint.member_memos].
        rewrite (from_memo_fuel_members fuel _ mps (forget <$> ms) Hfs
                   (memo_shape_size n 1
                      ((fun hint => PyProg (RestrictionHint.to_program hint))
                         <$> hints) m mps) Hfuel).
        simpl_result.
        rewrite (MofN_new_same_nodes m ms (forget <$> ms) Hnodes Hnew).
        simpl_result. now rewrite Hf.
      * rewrite Hf. apply puzzle_hash_unknown_restrictions; [assumption..|].
        cbn [Puzzle_puzzle_hash]. now rewrite Hnodes.
Qed.

(** X6: the memo of a tree that [from_memo] returned is read back as that
    very tree: on its own results, [from_memo] after [memo] is the
    identity, also when the first memo was not one that [memo] writes. *)
Theorem from_memo_memo_from_memo (memo0 : Program)
    (t : PuzzleWithRestrictions) :
  from_memo memo0 = Ok t ->
  exists mp, memo t = Ok mp /\ from_memo mp = Ok t.
Proof.
  intros Hfrom. apply from_memo_fuel_decoded in Hfrom as [Hd Hc].
  destruct (memo_forgets_all t (decoded_memoable t Hd) Hc) as (mp & Hm & Hf & _).
  exists mp. split; [assumption|].
  unfold from_memo. rewrite Hf by lia. now rewrite decoded_forget.
Qed.

(** X7: for any tree whose restrictions are [Known] restrictions or
    [UnknownRestriction]s and whose inner puzzles are [Known] puzzles or
    unknown leaves, with 32-byte hashes, [from_memo] applied to the [memo]
    returns exactly the tree with every leaf forgotten: the same nonces,
    the same [m] and the same order, each restriction replaced by the
    [UnknownRestriction] of its flag, hash and memo and each inner leaf by
    the [UnknownPuzzle] of its hash and memo. That tree has the puzzle hash
    of the original. *)
Theorem memo_round_trip_forget (t : PuzzleWithRestrictions) :
  memoable t -> constructed t ->
  exists mp,
    memo t = Ok mp
    /\ from_memo mp = Ok (forget t)
    /\ puzzle_hash (forget t) = puzzle_hash t.
Proof.
  intros Hk Hc. destruct (memo_forgets_all t Hk Hc) as (mp & Hm & Hf & Hh).
  exists mp. repeat split; try assumption.
  unfold from_memo. now apply Hf.
Qed.

(** *** Filling in with a registry that fits *)

(** Two nodes with the same nonce and the same inner hash, whose
    restrictions agree on flags and hashes, have the same commitment. *)
Lemma puzzle_hash_congr (nonce : Z) (rs rs' : list Puzzle) (p p' : Puzzle) :
  length rs' = length rs ->
  (forall cond : bool -> bool,
      comprehension (fun r => cond <$> morpher_not_validator r)
        (fun r => Puzzle_puzzle_hash r nonce) rs'
      = comprehension (fun r => cond <$> morpher_not_validator r)
          (fun r => Puzzle_puzzle_hash r nonce) rs) ->
  Puzzle_puzzle_hash p' nonce = Puzzle_puzzle_hash p nonce ->
  puzzle_hash (PWR nonce rs' p') = puzzle_hash (PWR nonce rs p).
Proof.
  intros Hlen Hc Hp. cbn [puzzle_hash]. rewrite Hp.
  rewrite Hlen, !comprehension_morphers.
  now rewrite (Hc id), (Hc negb).
Qed.

Lemma fill_restriction_fits (puzzle_dict : gmap bytes32 Puzzle) (nonce : Z)
    (r : Puzzle) :
  fits_restriction puzzle_dict nonce r ->
  morpher_not_validator (fill_restriction puzzle_dict r)
  = morpher_not_validator r
  /\ Puzzle_puzzle_hash (fill_restriction puzzle_dict r) nonce
     = Puzzle_puzzle_hash r nonce.
Proof.
  intros Hfit. destruct r as [k|h|h|m ms]; try (split; reflexivity).
  cbn [fill_restriction].
  destruct (puzzle_dict !! RestrictionHint.puzhash h) as [entry|] eqn:E;
    [|split; reflexivity].
  destruct (Hfit h entry eq_refl E) as [Hh Hf]. now split.
Qed.

Lemma fill_restrictions_fits (puzzle_dict : gmap bytes32 Puzzle) (nonce : Z)
    (rs : list Puzzle) (cond : bool -> bool) :
  Forall (fits_restriction puzzle_dict nonce) rs ->
  comprehension (fun r => cond <$> morpher_not_validator r)
    (fun r => Puzzle_puzzle_hash r nonce)
    (fill_restriction puzzle_dict <$> rs)
  = comprehension (fun r => cond <$> morpher_not_validator r)
      (fun r => Puzzle_puzzle_hash r nonce) rs.
Proof.
  induction 1 as [|r rs Hr _ IH]; [reflexivity|].
  rewrite fmap_cons, !comprehension_cons.
  destruct (fill_restriction_fits puzzle_dict nonce r Hr) as [-> ->].
  now rewrite IH.
Qed.

Lemma fill_in_fits (puzzle_dict : gmap bytes32 Puzzle)
    (t : PuzzleWithRestrictions) :
  fits puzzle_dict t -> constructed t ->
  exists t',
    fill_in_unknown_puzzles t puzzle_dict = Ok t'
    /\ puzzle_hash t' = puzzle_hash t.
Proof.
  revert t.
  apply (PWR_tree_ind
           (fun p => match p with
                     | MofN _ ms =>
                         Forall (fun t =>
                                   fits puzzle_dict t -> constructed t ->
                                   exists t',
                                     fill_in_unknown_puzzles t puzzle_dict
                                     = Ok t'
                                     /\ puzzle_hash t' = puzzle_hash t) ms
                     | _ => True
                     end)
           (fun t =>
              fits puzzle_dict t -> constructed t ->
              exists t',
                fill_in_unknown_puzzles t puzzle_dict = Ok t'
                /\ puzzle_hash t' = puzzle_hash t));
    try exact (fun _ => I).
  - intros m ms H. exact H.
  - intros n rs p _ HP Hfit Hcon.
    inversion_clear Hfit as [? ? ? Hfrs Hfp].
    inversion_clear Hcon as [? ? ? _ Hcp].
    rewrite fill_in_unknown_puzzles_unfold.
    assert (forall p',
               Puzzle_puzzle_hash p' n = Puzzle_puzzle_hash p n ->
               puzzle_hash (PWR n (fill_restriction puzzle_dict <$> rs) p')
               = puzzle_hash (PWR n rs p)) as Hcongr.
    { intros p' Hp'. apply puzzle_hash_congr; [apply length_fmap| |exact Hp'].
      intros cond. now apply fill_restrictions_fits. }
    destruct p as [k|h|h|m ms]; simpl_result.
    + eexists. split; [reflexivity|]. now apply Hcongr.
    + destruct (puzzle_dict !! PuzzleHint.puzhash h) as [entry|] eqn:E;
        simpl_result; (eexists; split; [reflexivity|]); apply Hcongr;
        [|reflexivity].
      inversion_clear Hfp as [? ? _ Hleaf|]. exact (Hleaf h entry eq_refl E).
    + eexists. split; [reflexivity|]. now apply Hcongr.
    + inversion_clear Hfp as [? ? Hflag _|? ? ? Hfms]; [discriminate Hflag|].
      inversion_clear Hcp as [| | |? ? Hcms Hnew].
      assert (exists ms',
                 mapM (fun puz => fill_in_unknown_puzzles puz puzzle_dict) ms
                 = Ok ms'
                 /\ Forall2 (fun t t' => puzzle_hash t' = puzzle_hash t) ms ms')
        as (ms' & Hms' & Hhs).
      { clear - HP Hfms Hcms.
        induction HP as [|t ms Ht _ IH]; [exists []; split; constructor|].
        inversion_clear Hfms as [|? ? Hft Hfts].
        inversion_clear Hcms as [|? ? Hct Hcts].
        destruct (Ht Hft Hct) as (t' & Ht' & Hh).
        destruct (IH Hfts Hcts) as (ms' & Hms' & Hhs).
        exists (t' :: ms'). split; [|now constructor].
        now rewrite mapM_result_cons, Ht', Hms'. }
      pose proof (mapM_puzzle_hash_eq _ _ Hhs) as Hnodes.
      rewrite Hms'. simpl_result.
      rewrite (MofN_new_same_nodes m ms ms' Hnodes Hnew). simpl_result.
      eexists. split; [reflexivity|]. apply Hcongr.
      cbn [Puzzle_puzzle_hash]. now rewrite Hnodes.
Qed.

(** X8: filling in a constructed tree with a registry that fits it (every
    entry used has the puzzle hash and, for a restriction, the flag of the
    hint it replaces) succeeds, duplicate check of [MofN] included, and
    returns a tree with the same [puzzle_hash] as the original. *)
Theorem fill_in_unknown_puzzles_same_hash (puzzle_dict : gmap bytes32 Puzzle)
    (t : PuzzleWithRestrictions) :
  fits puzzle_dict t -> constructed t ->
  exists t',
    fill_in_unknown_puzzles t puzzle_dict = Ok t'
    /\ puzzle_hash t' = puzzle_hash t.
Proof. apply fill_in_fits. Qed.

(** *** The unknown leaves of a tree *)

Lemma unknown_puzzles_unfold (nonce : Z) (restrictions : list Puzzle)
    (puzzle : Puzzle) :
  unknown_puzzles (PWR nonce restrictions puzzle)
  = foldl (fun acc ur =>
             match ur with
             | UnknownRestriction h => <[RestrictionHint.puzhash h := ur]> acc
             | _ => acc
             end) ∅ restrictions
    ∪ match puzzle with
      | UnknownPuzzle h => {[PuzzleHint.puzhash h := puzzle]}
      | MofN _ members =>
          foldl (fun acc puz_w_restriction =>
                   unknown_puzzles puz_w_restriction ∪ acc) ∅ members
      | _ => ∅
      end.
Proof. destruct puzzle; reflexivity. Qed.

Lemma unknown_restrictions_lookup (rs : list Puzzle)
    (acc : gmap bytes32 Puzzle) (h : bytes32) (v : Puzzle) :
  foldl (fun acc ur =>
           match ur with
           | UnknownRestriction h => <[RestrictionHint.puzhash h := ur]> acc
           | _ => acc
           end) acc rs !! h = Some v ->
  acc !! h = Some v
  \/ exists hint, v = UnknownRestriction hint /\ v ∈ rs
                  /\ RestrictionHint.puzhash hint = h.
Proof.
  revert acc. induction rs as [|r rs IH]; intros acc; cbn [foldl];
    [now left|].
  intros Hl. apply IH in Hl as [Hl|(hint & -> & Hin & Hh)].
  - destruct r as [k|hp|hr|m ms]; try (now left).
    apply lookup_insert_Some in Hl as [[Hh <-]|[_ Hl]]; [|now left].
    right. exists hr. repeat split; [apply list_elem_of_here|exact Hh].
  - right. exists hint. repeat split; [now apply list_elem_of_further|exact Hh].
Qed.

Lemma unknown_restrictions_is_Some (rs : list Puzzle)
    (acc : gmap bytes32 Puzzle) (h : bytes32) :
  is_Some (acc !! h)
  \/ (exists hint, UnknownRestriction hint ∈ rs
                   /\ RestrictionHint.puzhash hint = h) ->
  is_Some (foldl (fun acc ur =>
                    match ur with
                    | UnknownRestriction h =>
                        <[RestrictionHint.puzhash h := ur]> acc
                    | _ => acc
                    end) acc rs !! h).
Proof.
  revert acc. induction rs as [|r rs IH]; intros acc; cbn [foldl].
  - intros [H|(hint & Hin & _)]; [exact H|inversion Hin].
  - intros [H|(hint & Hin & Hh)]; apply IH.
    + left. destruct r as [k|hp|hr|m ms]; try exact H.
      apply lookup_insert_is_Some. destruct (decide (RestrictionHint.puzhash hr = h));
        [now left|now right].
    + apply elem_of_cons in Hin as [<-|Hin].
      * left. apply lookup_insert_is_Some. now left.
      * right. now exists hint.
Qed.

Lemma members_unknown_lookup (F : PuzzleWithRestrictions -> gmap bytes32 Puzzle)
    (ms : list PuzzleWithRestrictions) (acc : gmap bytes32 Puzzle)
    (h : bytes32) (v : Puzzle) :
  foldl (fun acc t => F t ∪ acc) acc ms !! h = Some v ->
  acc !! h = Some v \/ exists t, t ∈ ms /\ F t !! h = Some v.
Proof.
  revert acc. induction ms as [|t ms IH]; intros acc; cbn [foldl];
    [now left|].
  intros Hl. apply IH in Hl as [Hl|(t' & Hin & Ht')].
  - apply lookup_union_Some_raw in Hl as [Hl|[_ Hl]]; [|now left].
    right. exists t. split; [apply list_elem_of_here|exact Hl].
  - right. exists t'. split; [now apply list_elem_of_further|exact Ht'].
Qed.

Lemma members_unknown_is_Some (F : PuzzleWithRestrictions -> gmap bytes32 Puzzle)
    (ms : list PuzzleWithRestrictions) (acc : gmap bytes32 Puzzle)
    (h : bytes32) :
  is_Some (acc !! h) \/ (exists t, t ∈ ms /\ is_Some (F t !! h)) ->
  is_Some (foldl (fun acc t => F t ∪ acc) acc ms !! h).
Proof.
  revert acc. induction ms as [|t ms IH]; intros acc; cbn [foldl].
  - intros [H|(t & Hin & _)]; [exact H|inversion Hin].
  - intros [H|(t' & Hin & Ht')]; apply IH.
    + left. apply lookup_union_is_Some. now right.
    + apply elem_of_cons in Hin as [->|Hin].
      * left. apply lookup_union_is_Some. now left.
      * right. now exists t'.
Qed.

Lemma unknown_puzzles_lookup (t : PuzzleWithRestrictions) :
  forall h v, unknown_puzzles t !! h = Some v -> unknown_at h v t.
Proof.
  apply (PWR_tree_ind
           (fun p => match p with
                     | MofN _ ms =>
                         Forall (fun t => forall h v,
                                     unknown_puzzles t !! h = Some v ->
                                     unknown_at h v t) ms
                     | _ => True
                     end)
           (fun t => forall h v,
                unknown_puzzles t !! h = Some v -> unknown_at h v t));
    try exact (fun _ => I).
  - intros m ms H. exact H.
  - intros n rs p _ HP h v. rewrite unknown_puzzles_unfold.
    intros Hl. apply lookup_union_Some_raw in Hl as [Hl|[_ Hl]].
    + apply unknown_restrictions_lookup in Hl as [Hl|(hint & -> & Hin & Hh)].
      * now rewrite lookup_empty in Hl.
      * now apply (unknown_at_restriction _ _ n rs p hint).
    + destruct p as [k|hp|hr|m ms].
      * now rewrite lookup_empty in Hl.
      * apply lookup_singleton_Some in Hl as [Hh <-].
        now apply (unknown_at_puzzle _ _ n rs hp).
      * now rewrite lookup_empty in Hl.
      * apply members_unknown_lookup in Hl as [Hl|(member & Hin & Ht)].
        -- now rewrite lookup_empty in Hl.
        -- apply (unknown_at_member _ _ n rs m ms member Hin).
           rewrite Forall_forall in HP. now apply HP.
Qed.

Lemma unknown_at_is_Some (h : bytes32) (v : Puzzle)
    (t : PuzzleWithRestrictions) :
  unknown_at h v t -> is_Some (unknown_puzzles t !! h).
Proof.
  induction 1 as [n rs p hint -> Hin Hh|n rs hint -> Hh|n rs m ms t Hin _ IH];
    rewrite unknown_puzzles_unfold; apply lookup_union_is_Some.
  - left. apply unknown_restrictions_is_Some. right. now exists hint.
  - right. apply lookup_singleton_is_Some. exact Hh.
  - right. apply members_unknown_is_Some. right. now exists t.
Qed.

(** X10: the keys of [unknown_puzzles] are the hashes of the unknown
    leaves that [fill_in_unknown_puzzles] looks up, at any depth: every
    value is an [UnknownRestriction] standing among the restrictions of a
    node, or an [UnknownPuzzle] standing as the inner puzzle of a node, and
    its key is the hash of its hint; and the hash of every such leaf is a
    key. An unknown restriction of the top node is not hidden by a leaf
    below it with the same hash: the value of its hash is a restriction of
    the top node. *)
Theorem unknown_puzzles_keys (t : PuzzleWithRestrictions) (h : bytes32) :
  (forall v, unknown_puzzles t !! h = Some v -> unknown_at h v t)
  /\ (forall v, unknown_at h v t -> is_Some (unknown_puzzles t !! h))
  /\ (forall hint,
        UnknownRestriction hint ∈ restrictions t ->
        RestrictionHint.puzhash hint = h ->
        exists hint',
          unknown_puzzles t !! h = Some (UnknownRestriction hint')
          /\ UnknownRestriction hint' ∈ restrictions t
          /\ RestrictionHint.puzhash hint' = h).
Proof.
  split; [|split].
  - intros v. apply unknown_puzzles_lookup.
  - intros v. apply unknown_at_is_Some.
  - destruct t as [n rs p]. cbn [restrictions]. intros hint Hin Hh.
    rewrite unknown_puzzles_unfold.
    destruct (unknown_restrictions_is_Some rs ∅ h) as [v Hv];
      [right; now exists hint|].
    pose proof Hv as Hv'.
    apply unknown_restrictions_lookup in Hv' as [Hv'|(hint' & -> & Hin' & Hh')];
      [now rewrite lookup_empty in Hv'|].
    exists hint'. split; [|now split].
    apply lookup_union_Some_raw. now left.
Qed.

(** *** Registries that miss the unknown leaves *)

Lemma unknown_at_settled (puzzle_dict : gmap bytes32 Puzzle)
    (t : PuzzleWithRestrictions) :
  constructed t ->
  (forall h v, unknown_at h v t -> puzzle_dict !! h = None) ->
  settled puzzle_dict t.
Proof.
  revert t.
  apply (PWR_tree_ind
           (fun p => match p with
                     | MofN _ ms =>
                         Forall (fun t =>
                                   constructed t ->
                                   (forall h v, unknown_at h v t ->
                                                puzzle_dict !! h = None) ->
                                   settled puzzle_dict t) ms
                     | _ => True
                     end)
           (fun t =>
              constructed t ->
              (forall h v, unknown_at h v t -> puzzle_dict !! h = None) ->
              settled puzzle_dict t));
    try exact (fun _ => I).
  - intros m ms H. exact H.
  - intros n rs p _ HP Hcon Hmiss.
    inversion_clear Hcon as [? ? ? _ Hcp]. constructor.
    + apply Forall_forall. intros r Hin h ->.
      now apply (Hmiss _ (UnknownRestriction h)),
                (unknown_at_restriction _ _ n rs p h).
    + destruct p as [k|h|h|m ms]; try constructor.
      * now apply (Hmiss _ (UnknownPuzzle h)), (unknown_at_puzzle _ _ n rs h).
      * inversion_clear Hcp as [| | |? ? Hcms Hnew].
        rewrite Forall_forall in HP, Hcms. apply Forall_forall.
        intros member Hin. apply (HP member Hin (Hcms member Hin)).
        intros h v Hat. apply (Hmiss h v).
        now apply (unknown_at_member _ _ n rs m ms member).
      * now inversion_clear Hcp.
Qed.

Lemma settled_unknown_at (puzzle_dict : gmap bytes32 Puzzle) (h : bytes32)
    (v : Puzzle) (t : PuzzleWithRestrictions) :
  unknown_at h v t -> settled puzzle_dict t -> puzzle_dict !! h = None.
Proof.
  induction 1 as [n rs p hint -> Hin Hh|n rs hint -> Hh|n rs m ms t Hin _ IH];
    intros Hs; inversion_clear Hs as [? ? ? Hrs Hp].
  - rewrite Forall_forall in Hrs. rewrite <- Hh. now apply (Hrs _ Hin).
  - inversion_clear Hp as [| |? Hnone|]. now rewrite <- Hh.
  - inversion_clear Hp as [| | |? ? Hms _]. rewrite Forall_forall in Hms.
    now apply IH, Hms.
Qed.

(** X9: a registry none of whose keys is a key of [unknown_puzzles]
    changes nothing: [fill_in_unknown_puzzles] returns the tree it was
    given, for any tree that the constructors accept. The empty registry is
    one. *)
Theorem fill_in_unknown_puzzles_disjoint (puzzle_dict : gmap bytes32 Puzzle)
    (t : PuzzleWithRestrictions) :
  constructed t ->
  (forall h, is_Some (unknown_puzzles t !! h) -> puzzle_dict !! h = None) ->
  fill_in_unknown_puzzles t puzzle_dict = Ok t.
Proof.
  intros Hcon Hmiss. apply fill_in_settled, unknown_at_settled; [exact Hcon|].
  intros h v Hat. apply Hmiss. now apply (unknown_at_is_Some h v).
Qed.

(** X11: after filling in with a registry none of whose entries it can
    itself fill in further, no key of [unknown_puzzles] of the result is a
    key of the registry: every leaf that the registry knows has been
    replaced. *)
Theorem fill_in_unknown_puzzles_complete (puzzle_dict : gmap bytes32 Puzzle)
    (t t' : PuzzleWithRestrictions) :
  settled_registry puzzle_dict ->
  fill_in_unknown_puzzles t puzzle_dict = Ok t' ->
  forall h, is_Some (unknown_puzzles t' !! h) -> puzzle_dict !! h = None.
Proof.
  intros Hreg Hfill h [v Hv].
  apply (settled_unknown_at puzzle_dict h v t').
  - now apply unknown_puzzles_lookup.
  - now apply (fill_in_gives_settled puzzle_dict t Hreg).
Qed.

(** *** The leaves revealed by an m-of-n proof *)

Lemma count_reveals_Pair (l r : Program) :
  l <> Atom [] ->
  count_reveals (Pair l r) = (count_reveals l + count_reveals r)%nat.
Proof. intros Hl. destruct l as [[|b a]|l1 l2]; [contradiction|reflexivity..]. Qed.

Lemma proof_shape_atom_length (spends_to_prove : gmap bytes32 ProvenSpend.t)
    (puzzle_hashes : list bytes32) (proof : Program) :
  proof_shape spends_to_prove puzzle_hashes proof ->
  forall a, atom proof = Some a -> length a = 32%nat.
Proof.
  intros [leaf spend _|leaf _|hs first rest a b _ _ _ _
          |hs first rest pf pr _ _ _ _ _] c; cbn [atom];
    try discriminate; intros [= <-]; apply sha256_bytes32.
Qed.

Lemma proven_leaves_split (spends_to_prove : gmap bytes32 ProvenSpend.t)
    (puzzle_hashes first rest : list bytes32) :
  split_list puzzle_hashes = (first, rest) ->
  proven_leaves spends_to_prove puzzle_hashes
  = proven_leaves spends_to_prove first ++ proven_leaves spends_to_prove rest.
Proof.
  unfold split_list, proven_leaves. intros [= <- <-].
  now rewrite <- filter_app, take_drop.
Qed.

Lemma proof_shape_count (spends_to_prove : gmap bytes32 ProvenSpend.t)
    (puzzle_hashes : list bytes32) (proof : Program) :
  proof_shape spends_to_prove puzzle_hashes proof ->
  count_reveals proof = length (proven_leaves spends_to_prove puzzle_hashes)
  /\ (atom proof = None -> (1 <= count_reveals proof)%nat).
Proof.
  induction 1 as [leaf spend Hs|leaf Hs
                  |hs first rest a b Hne Hsplit Hf [IHf _] Hr [IHr _]
                  |hs first rest pf pr Hne Hsplit Hf [IHf IHf1] Hr [IHr IHr1]
                     Hpair].
  - split; [|cbn; lia]. unfold proven_leaves.
    rewrite filter_cons_True by (rewrite Hs; eauto). reflexivity.
  - split; [|discriminate]. unfold proven_leaves.
    rewrite filter_cons_False by (rewrite Hs; apply is_Some_None). reflexivity.
  - split; [|discriminate].
    rewrite (proven_leaves_split _ _ _ _ Hsplit), length_app, <- IHf, <- IHr.
    reflexivity.
  - assert (pf <> Atom []) as Hpf.
    { intros ->.
      now pose proof (proof_shape_atom_length _ _ _ Hf [] eq_refl). }
    rewrite (count_reveals_Pair pf pr Hpf).
    split.
    + rewrite (proven_leaves_split _ _ _ _ Hsplit), length_app, <- IHf, <- IHr.
      reflexivity.
    + intros _. destruct Hpair as [Hn|Hn]; [apply IHf1 in Hn|apply IHr1 in Hn];
        lia.
Qed.

(** X12: the proof that [generate_m_of_n_proof] returns for a non-empty
    list of leaves reveals as many leaves as the list has proven ones, each
    occurrence counted: a reveal is a pair that starts with nil and no
    branch of the proof starts with nil. The proof is an atom, the root
    alone, exactly when no leaf is proven. *)
Theorem generate_m_of_n_proof_reveals (nodes : list bytes32)
    (spends_to_prove : gmap bytes32 ProvenSpend.t) :
  nodes <> [] ->
  exists proof,
    generate_m_of_n_proof nodes spends_to_prove = Ok proof
    /\ count_reveals proof = length (proven_leaves spends_to_prove nodes)
    /\ (is_Some (atom proof) <-> proven_leaves spends_to_prove nodes = []).
Proof.
  intros Hne. unfold generate_m_of_n_proof.
  destruct (_m_of_n_proof_shape spends_to_prove (length nodes) nodes)
    as (proof & Hproof & Hshape & _);
    [destruct nodes; [contradiction|cbn; lia]|].
  exists proof. split; [exact Hproof|].
  destruct (proof_shape_count _ _ _ Hshape) as [Hcount Hpair].
  split; [exact Hcount|].
  rewrite <- length_zero_iff_nil, <- Hcount. split.
  - intros [a Ha]. destruct proof; [reflexivity|discriminate Ha].
  - intros Hz. destruct (atom proof) eqn:Ha; [eauto|].
    specialize (Hpair eq_refl). lia.
Qed.

Lemma proven_leaves_size (spends_to_prove : gmap bytes32 ProvenSpend.t)
    (nodes : list bytes32) :
  NoDup nodes ->
  (forall key, is_Some (spends_to_prove !! key) -> key ∈ nodes) ->
  length (proven_leaves spends_to_prove nodes) = size spends_to_prove.
Proof.
  intros Hnd Hkeys.
  rewrite <- length_map_to_list,
    <- (length_fmap fst (map_to_list spends_to_prove)).
  apply Permutation_length, NoDup_Permutation.
  - now apply NoDup_filter.
  - apply NoDup_fst_map_to_list.
  - intros key. unfold proven_leaves. rewrite list_elem_of_filter.
    rewrite list_elem_of_fmap. split.
    + intros [[spend Hspend] _]. exists (key, spend).
      split; [reflexivity|]. now apply elem_of_map_to_list.
    + intros ([key' spend] & -> & Hin). apply elem_of_map_to_list in Hin.
      cbn [fst]. split; [now exists spend|]. apply Hkeys. now exists spend.
Qed.

Lemma MofN_new_nodes_NoDup (m : Z) (members : list PuzzleWithRestrictions)
    (nodes : list bytes32) :
  MofN_new m members = Ok (MofN m members) ->
  MofN_nodes members = Ok nodes -> NoDup nodes.
Proof.
  unfold MofN_new. intros Hnew Hnodes. rewrite Hnodes in Hnew.
  cbn [mbind result_bind] in Hnew. apply remove_dups_length_NoDup.
  destruct (decide (length (remove_dups nodes) ≠ length nodes)) as [|Heq];
    [discriminate Hnew|].
  now apply dec_stable.
Qed.

(** X13: for an [MofN] that its constructor accepted, with [m > 1] and
    [m] spends keyed by member hashes, the proof of [generate_proof]
    reveals exactly [m] members. *)
Theorem generate_proof_reveals_m (m : Z)
    (members : list PuzzleWithRestrictions) (nodes : list bytes32)
    (spends_to_prove : gmap bytes32 ProvenSpend.t) :
  m > 1 ->
  MofN_new m members = Ok (MofN m members) ->
  MofN_nodes members = Ok nodes ->
  (forall key, is_Some (spends_to_prove !! key) -> key ∈ nodes) ->
  Z.of_nat (size spends_to_prove) = m ->
  exists proof,
    MofN_generate_proof m members spends_to_prove = Ok proof
    /\ Z.of_nat (count_reveals proof) = m.
Proof.
  intros Hm Hnew Hnodes Hkeys Hsize. unfold MofN_generate_proof.
  destruct (decide (Z.of_nat (size spends_to_prove) ≠ m)); [contradiction|].
  destruct (decide (m > 1)); [|contradiction].
  rewrite Hnodes. simpl_result. unfold generate_m_of_n_proof.
  assert (1 <= length nodes)%nat as Hlen.
  { assert (size spends_to_prove ≠ 0%nat) as Hne by lia.
    apply map_size_ne_0_lookup in Hne as [key Hkey].
    apply Hkeys in Hkey. destruct nodes; [inversion Hkey|cbn; lia]. }
  destruct (_m_of_n_proof_shape spends_to_prove (length nodes) nodes
              ltac:(lia)) as (proof & Hproof & Hshape & _).
  exists proof. split; [exact Hproof|].
  destruct (proof_shape_count _ _ _ Hshape) as [-> _].
  rewrite proven_leaves_size; [exact Hsize| |exact Hkeys].
  exact (MofN_new_nodes_NoDup m members nodes Hnew Hnodes).
Qed.

(** *** Solving a 1-of-n *)

(** X14: for [m = 1], [solve] applied to the proof of [generate_proof]
    gives the five-element solution made of the pair of the two components
    of the Merkle proof, the puzzle reveal and the solution of the proven
    member, the delegated puzzle and the delegated solution. *)
Theorem solve_generate_proof_1_of_n (members : list PuzzleWithRestrictions)
    (nodes : list bytes32) (spends_to_prove : gmap bytes32 ProvenSpend.t)
    (only_key : bytes32) (proven_spend : ProvenSpend.t)
    (proof_0 proof_1_0 : PyVal) (proof_1_rest : list PyVal)
    (delegated_puzzle delegated_solution : Program) :
  MofN_nodes members = Ok nodes ->
  size spends_to_prove = 1%nat ->
  spends_to_prove !! only_key = Some proven_spend ->
  generate_proof nodes only_key = Ok (proof_0, proof_1_0 :: proof_1_rest) ->
  (proof ← MofN_generate_proof 1 members spends_to_prove;
   Ok (MofN_solve 1 proof delegated_puzzle delegated_solution))
  = Ok (Program_to
          (PyList [PyTuple proof_0 proof_1_0;
                   PyProg (ProvenSpend.puzzle_reveal proven_spend);
                   PyProg (ProvenSpend.solution proven_spend);
                   PyProg delegated_puzzle;
                   PyProg delegated_solution])).
Proof.
  intros Hnodes Hsize Hlookup Hproof. unfold MofN_generate_proof.
  destruct (decide (Z.of_nat (size spends_to_prove) ≠ 1)); [lia|].
  destruct (decide (1 > 1)); [lia|].
  rewrite (map_to_list_size_1 _ _ _ Hsize Hlookup). cbn [fmap list_fmap fst].
  rewrite Hlookup, Hnodes. simpl_result. rewrite Hproof. simpl_result.
  cbn [snd fst]. unfold MofN_solve.
  destruct (decide (1 > 1)); [lia|]. reflexivity.
Qed.

(** *** The puzzle hash and the puzzle revealed *)

Lemma hashed_tree_hash (precalculated : list bytes32) (q p : Program) :
  hashed precalculated q p ->
  get_tree_hash_precalc precalculated q = get_tree_hash p.
Proof.
  unfold get_tree_hash.
  induction 1 as [p Hin|a Hnin|l r l' r' _ IHl _ IHr];
    cbn [get_tree_hash_precalc].
  - now destruct (decide _).
  - destruct (decide (a ∈ precalculated)); [contradiction|].
    destruct (decide (a ∈ [])) as [Hin|_]; [inversion Hin|reflexivity].
  - now rewrite IHl, IHr.
Qed.

Lemma hashed_list (precalculated : list bytes32) (ps : list Program) :
  [] ∉ precalculated ->
  Forall (fun p => get_tree_hash p ∈ precalculated) ps ->
  hashed precalculated
    (Program_to (PyList (PyBytes <$> (get_tree_hash <$> ps))))
    (Program_to (PyList (PyProg <$> ps))).
Proof.
  intros Hnil. induction 1 as [|p ps Hp _ IH].
  - now apply hashed_Atom.
  - rewrite !fmap_cons, !Program_to_list_cons.
    apply hashed_Pair; [|exact IH]. now apply hashed_subtree.
Qed.

Lemma small_atom_not_hash (precalculated : list bytes32) (a : bytes) :
  Forall (fun h => length h = 32%nat) precalculated ->
  length a <> 32%nat -> a ∉ precalculated.
Proof.
  intros Hall Ha Hin. rewrite Forall_forall in Hall. now apply Hall in Hin.
Qed.

Lemma get_tree_hash_length (p : Program) : length (get_tree_hash p) = 32%nat.
Proof. apply get_tree_hash_precalc_length. constructor. Qed.

(** The hash of the restriction layer computed from hashes is the tree
    hash of the layer curried with the puzzles. *)
Lemma restriction_wrap_hash_reveal (morphers validators : list Program)
    (inner_puzzle : Program) :
  restriction_wrap_hash (get_tree_hash <$> morphers)
    (get_tree_hash <$> validators) (get_tree_hash inner_puzzle)
  = get_tree_hash
      (curry RESTRICTION_MOD
         [PyList (PyProg <$> morphers); PyList (PyProg <$> validators);
          PyProg inner_puzzle]).
Proof.
  unfold restriction_wrap_hash. apply hashed_tree_hash. rewrite !curry_3.
  set (S := (get_tree_hash <$> morphers) ++ (get_tree_hash <$> validators)
            ++ [RESTRICTION_MOD_HASH; get_tree_hash inner_puzzle]).
  assert (Forall (fun h => length h = 32%nat) S) as Hall.
  { unfold S. rewrite !Forall_app. split; [|split].
    - apply Forall_fmap, Forall_true. intros p. apply get_tree_hash_length.
    - apply Forall_fmap, Forall_true. intros p. apply get_tree_hash_length.
    - repeat constructor; apply get_tree_hash_length. }
  assert (forall a : bytes, (length a <= 1)%nat -> hashed S (Atom a) (Atom a))
    as Hsmall.
  { intros a Ha. apply hashed_Atom, small_atom_not_hash; [exact Hall|lia]. }
  assert ([] ∉ S) as Hnil
      by (apply small_atom_not_hash; [exact Hall|discriminate]).
  change (Program_to (PyBytes ?b)) with (Atom b).
  change (Program_to (PyProg ?p)) with p.
  unfold Program_nil.
  repeat (apply hashed_Pair); try (apply Hsmall; cbn; lia).
  - apply (hashed_subtree S RESTRICTION_MOD). unfold S.
    rewrite !elem_of_app. right. right. apply list_elem_of_here.
  - apply hashed_list; [exact Hnil|]. apply Forall_forall. intros p Hp.
    unfold S. rewrite elem_of_app. left.
    apply list_elem_of_fmap. now exists p.
  - apply hashed_list; [exact Hnil|]. apply Forall_forall. intros p Hp.
    unfold S. rewrite !elem_of_app. right. left.
    apply list_elem_of_fmap. now exists p.
  - apply (hashed_subtree S inner_puzzle). unfold S.
    rewrite !elem_of_app. right. right.
    apply list_elem_of_further, list_elem_of_here.
Qed.

(** The hash of the index wrap computed from a hash is the tree hash of
    the wrap of the puzzle, for a nonce whose atom is not a [bytes32]. *)
Lemma index_wrap_hash_reveal (nonce : Z) (restricted_inner_puzzle : Program) :
  length (int_to_bytes nonce) <> 32%nat ->
  index_wrap_hash nonce (get_tree_hash restricted_inner_puzzle)
  = get_tree_hash
      (curry INDEX_WRAPPER [PyInt nonce; PyProg restricted_inner_puzzle]).
Proof.
  intros Hnonce. unfold index_wrap_hash. apply hashed_tree_hash.
  rewrite !curry_2.
  set (S := [get_tree_hash restricted_inner_puzzle]).
  assert (Forall (fun h => length h = 32%nat) S) as Hall
      by (repeat constructor; apply get_tree_hash_length).
  assert (forall a : bytes, (length a <= 1)%nat -> hashed S (Atom a) (Atom a))
    as Hsmall.
  { intros a Ha. apply hashed_Atom, small_atom_not_hash; [exact Hall|lia]. }
  assert (INDEX_WRAPPER
          = Pair (Atom [x02]) (Pair (Atom [x05]) (Pair (Atom [x07]) (Atom []))))
    as -> by reflexivity.
  change (Program_to (PyBytes ?b)) with (Atom b).
  change (Program_to (PyProg ?p)) with p.
  change (Program_to (PyInt ?z)) with (Atom (int_to_bytes z)).
  unfold Program_nil.
  repeat (apply hashed_Pair); try (apply Hsmall; cbn; lia).
  - apply hashed_Atom, small_atom_not_hash; assumption.
  - apply (hashed_subtree S restricted_inner_puzzle). apply list_elem_of_here.
Qed.

Lemma MofN_hash_consistent (nonce m : Z)
    (members : list PuzzleWithRestrictions) :
  hash_consistent nonce (MofN m members).
Proof.
  intros reveal. cbn [Puzzle_puzzle Puzzle_puzzle_hash]. unfold MofN_nodes.
  destruct (mapM puzzle_hash members) as [nodes|]; [|discriminate].
  simpl_result. now intros ->.
Qed.

Lemma Known_hash_consistent (nonce : Z) (p : Puzzle) :
  (forall k, p = Known k ->
             known_puzzle_hash k nonce = get_tree_hash (known_puzzle k nonce)) ->
  hash_consistent nonce p.
Proof.
  intros Hk. destruct p as [k|h|h|m ms].
  - intros reveal [= <-]. cbn [Puzzle_puzzle_hash]. now rewrite (Hk k eq_refl).
  - intros reveal [=].
  - intros reveal [=].
  - apply MofN_hash_consistent.
Qed.

Lemma comprehension_hash_consistent (nonce : Z)
    (cond : Puzzle -> result bool) (rs : list Puzzle) (ps : list Program) :
  Forall (hash_consistent nonce) rs ->
  comprehension cond (fun r => Puzzle_puzzle r nonce) rs = Ok ps ->
  comprehension cond (fun r => Puzzle_puzzle_hash r nonce) rs
  = Ok (get_tree_hash <$> ps).
Proof.
  intros Hall. revert ps. induction Hall as [|r rs Hr _ IH]; intros ps.
  - cbn. now intros [= <-].
  - rewrite !comprehension_cons.
    destruct (cond r) as [[|]|]; simpl_result; [| |discriminate].
    + destruct (Puzzle_puzzle r nonce) as [reveal|] eqn:Hreveal;
        [|discriminate].
      rewrite (Hr reveal Hreveal). simpl_result.
      destruct (comprehension cond _ rs) as [ps'|]; [|discriminate].
      simpl_result. intros [= <-]. now rewrite (IH ps' eq_refl).
    + apply IH.
Qed.

(** X15: when [puzzle_reveal] returns a puzzle, [puzzle_hash] returns its
    tree hash, computed from the hashes of the parts alone, provided that
    every [Known] object of the node has the tree hash of its puzzle for
    puzzle hash and that the atom of the nonce is not 32 bytes long (such
    an atom could be taken for a hash already computed). An [MofN] inner
    puzzle needs no assumption. *)
Theorem puzzle_hash_of_puzzle_reveal (t : PuzzleWithRestrictions)
    (reveal : Program) :
  (forall k, Known k ∈ puzzle t :: restrictions t ->
             known_puzzle_hash k (nonce t)
             = get_tree_hash (known_puzzle k (nonce t))) ->
  length (int_to_bytes (nonce t)) <> 32%nat ->
  puzzle_reveal t = Ok reveal ->
  puzzle_hash t = Ok (get_tree_hash reveal).
Proof.
  destruct t as [n rs p]. cbn [nonce restrictions puzzle].
  intros Hk Hnonce.
  assert (hash_consistent n p) as Hp.
  { apply Known_hash_consistent. intros k ->. apply Hk, list_elem_of_here. }
  assert (Forall (hash_consistent n) rs) as Hrs.
  { apply Forall_forall. intros r Hin. apply Known_hash_consistent.
    intros k ->. now apply Hk, list_elem_of_further. }
  unfold puzzle_reveal. cbn [nonce restrictions puzzle puzzle_hash].
  destruct (Puzzle_puzzle p n) as [inner|] eqn:Hinner; [|discriminate].
  rewrite (Hp inner Hinner). simpl_result.
  destruct (decide (0 < length rs)%nat) as [_|_].
  - destruct (comprehension morpher_not_validator
                (fun r => Puzzle_puzzle r n) rs) as [morphers|] eqn:Hm;
      [|discriminate].
    simpl_result.
    destruct (comprehension (fun r => negb <$> morpher_not_validator r)
                (fun r => Puzzle_puzzle r n) rs) as [validators|] eqn:Hv;
      [|discriminate].
    simpl_result. intros [= <-].
    rewrite (comprehension_hash_consistent n _ rs morphers Hrs Hm).
    simpl_result.
    rewrite (comprehension_hash_consistent n _ rs validators Hrs Hv).
    simpl_result.
    now rewrite restriction_wrap_hash_reveal, index_wrap_hash_reveal.
  - simpl_result. intros [= <-]. now rewrite index_wrap_hash_reveal.
Qed.

(** *** The nonce *)

Lemma puzzle_hash_restricted (t : PuzzleWithRestrictions) :
  puzzle_hash t
  = (restricted_inner_puzzle_hash ← restricted_inner_puzzle_hash t;
     Ok (index_wrap_hash (nonce t) restricted_inner_puzzle_hash)).
Proof.
  destruct t as [n rs p].
  cbn [puzzle_hash restricted_inner_puzzle_hash nonce].
  destruct (Puzzle_puzzle_hash p n) as [inner|]; reflexivity.
Qed.

(** X16: two nodes with different nonces have different puzzle hashes,
    whatever their restrictions and inner puzzles: the nonce does what it
    is there for. The hashes that the index wraps are applied to are
    [bytes32], as typed, the atoms of the nonces are not 32 bytes long, and
    [sha256] takes no two of the inputs of the two index wraps to the same
    value. *)
Theorem nonce_changes_puzzle_hash (t t' : PuzzleWithRestrictions)
    (r r' : bytes32) :
  nonce t <> nonce t' ->
  length (int_to_bytes (nonce t)) <> 32%nat ->
  length (int_to_bytes (nonce t')) <> 32%nat ->
  restricted_inner_puzzle_hash t = Ok r ->
  restricted_inner_puzzle_hash t' = Ok r' ->
  length r = 32%nat -> length r' = 32%nat ->
  collision_free (wrap_inputs (nonce t) r ++ wrap_inputs (nonce t') r') ->
  exists h h',
    puzzle_hash t = Ok h /\ puzzle_hash t' = Ok h' /\ h <> h'.
Proof.
  intros Hne Hn Hn' Hr Hr' Hlen Hlen' Hfree.
  exists (index_wrap_hash (nonce t) r), (index_wrap_hash (nonce t') r').
  split; [now rewrite puzzle_hash_restricted, Hr|].
  split; [now rewrite puzzle_hash_restricted, Hr'|].
  intros Heq. apply index_wrap_hash_inj in Heq as [_ Heq]; try assumption.
  now apply Hne, Heq.
Qed.

(** *** The order of the restrictions *)

Lemma comprehension_app {A B} (cond : A -> result bool) (f : A -> result B)
    (l1 l2 : list A) :
  comprehension cond f (l1 ++ l2)
  = (ys1 ← comprehension cond f l1;
     ys2 ← comprehension cond f l2;
     Ok (ys1 ++ ys2)).
Proof.
  induction l1 as [|x l1 IH].
  - cbn [app]. change (comprehension cond f []) with (Ok (@List.nil B)).
    simpl_result. now destruct (comprehension cond f l2).
  - rewrite <- app_comm_cons, !comprehension_cons.
    destruct (cond x) as [[|]|]; simpl_result; [| |reflexivity].
    + destruct (f x) as [y|]; simpl_result; [|reflexivity].
      rewrite IH. destruct (comprehension cond f l1); simpl_result;
        [|reflexivity].
      now destruct (comprehension cond f l2).
    + exact IH.
Qed.

Lemma comprehension_swap {A B} (cond : A -> result bool) (f : A -> result B)
    (a b : A) (ca cb : bool) (l1 l2 : list A) :
  cond a = Ok ca -> cond b = Ok cb -> ca && cb = false ->
  comprehension cond f (l1 ++ a :: b :: l2)
  = comprehension cond f (l1 ++ b :: a :: l2).
Proof.
  intros Ha Hb Hab. rewrite !(comprehension_app cond f l1). f_equal.
  rewrite !comprehension_cons, Ha, Hb. simpl_result.
  destruct ca, cb; try discriminate Hab; reflexivity.
Qed.

(** X17: swapping a morpher with a validator next to it among the
    restrictions of a node changes neither [puzzle_hash] nor
    [puzzle_reveal]: only the order of the morphers among themselves and of
    the validators among themselves is committed to. *)
Theorem restrictions_order (n : Z) (before after : list Puzzle)
    (morpher validator : Puzzle) (inner : Puzzle) :
  morpher_not_validator morpher = Ok true ->
  morpher_not_validator validator = Ok false ->
  puzzle_hash (PWR n (before ++ morpher :: validator :: after) inner)
  = puzzle_hash (PWR n (before ++ validator :: morpher :: after) inner)
  /\ puzzle_reveal (PWR n (before ++ morpher :: validator :: after) inner)
     = puzzle_reveal
         (PWR n (before ++ validator :: morpher :: after) inner).
Proof.
  intros Hm Hv.
  assert (length (before ++ morpher :: validator :: after)
          = length (before ++ validator :: morpher :: after)) as Hlen
      by now rewrite !length_app.
  assert (forall B (f : Puzzle -> result B),
             comprehension morpher_not_validator f
               (before ++ morpher :: validator :: after)
             = comprehension morpher_not_validator f
                 (before ++ validator :: morpher :: after)) as Hms.
  { intros B f. now apply (comprehension_swap _ _ _ _ true false). }
  assert (forall B (f : Puzzle -> result B),
             comprehension (fun r => negb <$> morpher_not_validator r) f
               (before ++ morpher :: validator :: after)
             = comprehension (fun r => negb <$> morpher_not_validator r) f
                 (before ++ validator :: morpher :: after)) as Hvs.
  { intros B f. apply (comprehension_swap _ _ _ _ false true);
      [now rewrite Hm|now rewrite Hv|reflexivity]. }
  split.
  - cbn [puzzle_hash]. now rewrite Hlen, !Hms, !Hvs.
  - unfold puzzle_reveal. cbn [nonce restrictions puzzle].
    now rewrite Hlen, !Hms, !Hvs.
Qed.

(** *** From the memo back to a tree with known leaves *)

(** X18: the way of a custody tree through a memo: for a tree whose leaves
    have a hint to give, [from_memo] reads the [memo] back and
    [fill_in_unknown_puzzles], with a registry that fits the tree read
    back, succeeds and returns a tree with the puzzle hash of the
    original. *)
Theorem memo_from_memo_fill_in (puzzle_dict : gmap bytes32 Puzzle)
    (t : PuzzleWithRestrictions) :
  memoable t -> constructed t -> fits puzzle_dict (forget t) ->
  exists mp t' t'',
    memo t = Ok mp
    /\ from_memo mp = Ok t'
    /\ fill_in_unknown_puzzles t' puzzle_dict = Ok t''
    /\ puzzle_hash t'' = puzzle_hash t.
Proof.
  intros Hm Hc Hfit.
  destruct (memo_forgets_all t Hm Hc) as (mp & Hmemo & Hfrom & Hhash).
  specialize (Hfrom (Program_size mp) (Nat.le_refl _)).
  destruct (from_memo_fuel_decoded _ _ _ Hfrom) as [_ Hc'].
  destruct (fill_in_fits puzzle_dict (forget t) Hfit Hc') as (t'' & Hfill & Hh).
  exists mp, (forget t), t''. repeat split; try assumption.
  now rewrite Hh.
Qed.

End Custody.

(** ** The properties on the examples *)

Abbreviation example_puzzle_hash :=
  (puzzle_hash example_sha256 example_MofN_MOD example_OneOfN_MOD
     example_RESTRICTION_MOD example_calculate_root).
Abbreviation example_MofN_nodes :=
  (MofN_nodes example_sha256 example_MofN_MOD example_OneOfN_MOD
     example_RESTRICTION_MOD example_calculate_root).
Abbreviation example_MofN_new :=
  (MofN_new example_sha256 example_MofN_MOD example_OneOfN_MOD
     example_RESTRICTION_MOD example_calculate_root).
Abbreviation example_MofN_generate_proof :=
  (MofN_generate_proof example_sha256 example_MofN_MOD example_OneOfN_MOD
     example_RESTRICTION_MOD example_calculate_root example_generate_proof).
Abbreviation example_memo :=
  (memo example_sha256 example_MofN_MOD example_OneOfN_MOD
     example_RESTRICTION_MOD example_calculate_root).
Abbreviation example_from_memo :=
  (from_memo example_sha256 example_MofN_MOD example_OneOfN_MOD
     example_RESTRICTION_MOD example_calculate_root).
Abbreviation example_fill_in :=
  (fill_in_unknown_puzzles example_sha256 example_MofN_MOD example_OneOfN_MOD
     example_RESTRICTION_MOD example_calculate_root).
Abbreviation example_constructed :=
  (constructed example_sha256 example_MofN_MOD example_OneOfN_MOD
     example_RESTRICTION_MOD example_calculate_root).
Abbreviation example_node name :=
  (index_wrap_hash example_sha256 0 (known_puzzle_hash (example_puzzle name) 0)).

Lemma example_sha256_bytes32 (x : bytes) : length (example_sha256 x) = 32%nat.
Proof. apply length_to_bytes_be. Qed.

Lemma example_puzzle_typed (name : string) : typed_known (example_puzzle name).
Proof. intros nonce. apply example_sha256_bytes32. Qed.

Lemma example_restriction_known (morpher : bool) (name : string) :
  known_restriction (Known (example_restriction morpher name)).
Proof.
  exists (example_restriction morpher name), morpher.
  split; [reflexivity|]. split; [reflexivity|].
  intros nonce. apply example_sha256_bytes32.
Qed.

Lemma example_tree_known : known_tree example_tree.
Proof.
  constructor.
  - repeat constructor; apply example_restriction_known.
  - constructor. repeat constructor; apply example_puzzle_typed.
Qed.

Abbreviation example_members :=
  [example_member "A"; example_member "B"; example_member "C"].
Abbreviation example_nodes :=
  [example_node "A"; example_node "B"; example_node "C"].
Abbreviation example_spends :=
  (<[example_node "A" := example_spend "A"]>
     (<[example_node "B" := example_spend "B"]> ∅) : gmap bytes32 ProvenSpend.t).

Lemma example_nodes_eq : example_MofN_nodes example_members = Ok example_nodes.
Proof. vm_compute. reflexivity. Qed.

Lemma example_nodes_NoDup : NoDup example_nodes.
Proof. apply (bool_decide_unpack _). vm_compute. exact I. Qed.

Lemma example_tree_constructed : example_constructed example_tree.
Proof.
  constructor; [repeat constructor|].
  constructor; [repeat constructor|].
  exact (MofN_new_NoDup _ _ _ _ _ 2 example_members example_nodes
           example_nodes_eq example_nodes_NoDup).
Qed.


Lemma example_spends_keys (key : bytes32) :
  is_Some (example_spends !! key) -> key ∈ example_nodes.
Proof.
  intros [spend Hspend].
  apply lookup_insert_Some in Hspend as [[<- _]|[_ Hspend]];
    [apply list_elem_of_here|].
  apply lookup_insert_Some in Hspend as [[<- _]|[_ Hspend]];
    [apply list_elem_of_further, list_elem_of_here|].
  rewrite lookup_empty in Hspend. discriminate Hspend.
Qed.

Lemma example_spends_size : Z.of_nat (size example_spends) = 2.
Proof. vm_compute. reflexivity. Qed.

(** The example of C1: the memo of the 2-of-3 under two restrictions is read
    back as a tree of unknown leaves with the same puzzle hash. *)
Lemma memo_round_trip_witness :
  known_tree example_tree
  /\ example_constructed example_tree
  /\ exists mp t',
       example_memo example_tree = Ok mp
       /\ example_from_memo mp = Ok t'
       /\ example_puzzle_hash t' = example_puzzle_hash example_tree
       /\ unknown_tree t'.
Proof.
  split; [exact example_tree_known|].
  split; [exact example_tree_constructed|].
  exact (memo_round_trip example_sha256 example_MofN_MOD example_OneOfN_MOD
           example_RESTRICTION_MOD example_calculate_root example_tree
           example_tree_known example_tree_constructed).
Defined.

(** The example of C2: a 2-of-3 over [A; B; C] proving [A] and [B]. *)
Lemma generate_proof_m_of_n_shape_witness :
  2 > 1
  /\ example_MofN_nodes example_members = Ok example_nodes
  /\ (forall key, is_Some (example_spends !! key) -> key ∈ example_nodes)
  /\ Z.of_nat (size example_spends) = 2
  /\ exists proof,
       example_MofN_generate_proof 2 example_members example_spends = Ok proof
       /\ proof_shape example_sha256 example_spends example_nodes proof.
Proof.
  split; [lia|]. split; [exact example_nodes_eq|].
  split; [exact example_spends_keys|]. split; [exact example_spends_size|].
  exact (generate_proof_m_of_n_shape example_sha256 example_sha256_bytes32
           example_MofN_MOD example_OneOfN_MOD example_RESTRICTION_MOD
           example_calculate_root example_generate_proof 2 example_members
           example_nodes example_spends ltac:(lia) example_nodes_eq
           example_spends_keys example_spends_size).
Defined.

(** In that proof the branch of [C] is the atom hash of its leaf and the
    branch of [A] and [B] is the pair of their reveals. *)
Lemma generate_proof_2_of_3_example :
  example_MofN_generate_proof 2 example_members example_spends
  = Ok (Pair
          (Pair
             (Pair Program_nil
                (Pair (ProvenSpend.puzzle_reveal (example_spend "A"))
                   (ProvenSpend.solution (example_spend "A"))))
             (Pair Program_nil
                (Pair (ProvenSpend.puzzle_reveal (example_spend "B"))
                   (ProvenSpend.solution (example_spend "B")))))
          (Atom (hash_an_atom example_sha256 (example_node "C")))).
Proof. vm_compute. reflexivity. Qed.

(** A [Known] object whose puzzle hash is the tree hash of its puzzle. *)
Abbreviation example_revealed flag name :=
  {| known_morpher_not_validator := flag;
     known_memo := fun _ => Program_to (PyStr name);
     known_puzzle := fun nonce => Program_to (PyList [PyStr name; PyInt nonce]);
     known_puzzle_hash := fun nonce =>
       get_tree_hash example_sha256
         (Program_to (PyList [PyStr name; PyInt nonce])) |}.

Abbreviation example_X_puzzle := (Program_to (PyList [PyStr "X"; PyInt 7])).

Lemma example_revealed_hash :
  Puzzle_puzzle_hash example_sha256 example_MofN_MOD example_OneOfN_MOD
    example_RESTRICTION_MOD example_calculate_root
    (Known (example_revealed None "X")) 7
  = Ok (get_tree_hash example_sha256 example_X_puzzle).
Proof. reflexivity. Qed.

(** The example hash takes no two inputs of the hashes compared to the
    same value. *)
Lemma example_no_layer_collision_free :
  collision_free example_sha256
    (no_layer_inputs example_sha256 example_RESTRICTION_MOD 7 example_X_puzzle).
Proof.
  apply collision_free_test_free. apply (bool_decide_unpack _).
  vm_compute. exact I.
Qed.

(** The example of C3: nonce 7 over a puzzle [X], and over a puzzle whose
    hash is the tree hash of its reveal. *)
Lemma puzzle_hash_no_restrictions_witness :
  (forall x, length (example_sha256 x) = 32%nat)
  /\ example_puzzle_hash (PWR 7 [] (Known (example_puzzle "X")))
     = Ok (get_tree_hash_precalc example_sha256
             [known_puzzle_hash (example_puzzle "X") 7]
             (curry INDEX_WRAPPER
                [PyInt 7; PyBytes (known_puzzle_hash (example_puzzle "X") 7)]))
  /\ collision_free example_sha256
       (no_layer_inputs example_sha256 example_RESTRICTION_MOD 7
          example_X_puzzle)
  /\ example_puzzle_hash (PWR 7 [] (Known (example_revealed None "X")))
     <> Ok (index_wrap_hash example_sha256 7
              (restriction_wrap_hash example_sha256 example_RESTRICTION_MOD
                 [] [] (get_tree_hash example_sha256 example_X_puzzle))).
Proof.
  split; [exact example_sha256_bytes32|].
  split; [exact (proj1 (puzzle_hash_no_restrictions example_sha256
                          example_sha256_bytes32 example_MofN_MOD
                          example_OneOfN_MOD example_RESTRICTION_MOD
                          example_calculate_root 7
                          (Known (example_puzzle "X"))))|].
  split; [exact example_no_layer_collision_free|].
  exact (proj1 (proj2 (puzzle_hash_no_restrictions example_sha256
                         example_sha256_bytes32 example_MofN_MOD
                         example_OneOfN_MOD example_RESTRICTION_MOD
                         example_calculate_root 7
                         (Known (example_revealed None "X"))))
           example_X_puzzle example_revealed_hash
           example_no_layer_collision_free).
Defined.

(** With the example hash the two commitments of that node differ. *)
Lemma example_no_restriction_layer :
  index_wrap_hash example_sha256 7 (known_puzzle_hash (example_puzzle "X") 7)
  <> index_wrap_hash example_sha256 7
       (restriction_wrap_hash example_sha256 example_RESTRICTION_MOD [] []
          (known_puzzle_hash (example_puzzle "X") 7)).
Proof. apply (bool_decide_unpack _). vm_compute. exact I. Qed.

Abbreviation example_one_spend :=
  ({[example_node "A" := example_spend "A"]} : gmap bytes32 ProvenSpend.t).

Lemma example_one_spend_size : size example_one_spend = 1%nat.
Proof. apply map_size_singleton. Qed.

Lemma example_one_spend_lookup :
  example_one_spend !! example_node "A" = Some (example_spend "A").
Proof. apply lookup_singleton_eq. Qed.

Lemma example_merkle_proof :
  example_generate_proof example_nodes (example_node "A")
  = Ok (PyInt 0, [PyList [PyBytes (example_node "B"); PyBytes (example_node "C")]]).
Proof. vm_compute. reflexivity. Qed.

(** The example of C4: a 1-of-3 over [A; B; C] proving [A]. *)
Lemma generate_proof_1_of_n_witness :
  example_MofN_nodes example_members = Ok example_nodes
  /\ size example_one_spend = 1%nat
  /\ example_one_spend !! example_node "A" = Some (example_spend "A")
  /\ example_generate_proof example_nodes (example_node "A")
     = Ok (PyInt 0,
           [PyList [PyBytes (example_node "B"); PyBytes (example_node "C")]])
  /\ example_MofN_generate_proof 1 example_members example_one_spend
     = Ok (Pair
             (Pair (Program_to (PyInt 0))
                (Program_to
                   (PyList [PyBytes (example_node "B");
                            PyBytes (example_node "C")])))
             (Pair (ProvenSpend.puzzle_reveal (example_spend "A"))
                (Pair (ProvenSpend.solution (example_spend "A")) Program_nil))).
Proof.
  split; [exact example_nodes_eq|]. split; [exact example_one_spend_size|].
  split; [exact example_one_spend_lookup|]. split; [exact example_merkle_proof|].
  exact (generate_proof_1_of_n example_sha256 example_MofN_MOD
           example_OneOfN_MOD example_RESTRICTION_MOD example_calculate_root
           example_generate_proof example_members example_nodes
           example_one_spend (example_node "A") (example_spend "A")
           (PyInt 0)
           (PyList [PyBytes (example_node "B"); PyBytes (example_node "C")]) []
           example_nodes_eq example_one_spend_size example_one_spend_lookup
           example_merkle_proof).
Defined.

(** C4 as stated fails on that example: the proof returned has three
    elements, the puzzle reveal being the second and not a component of the
    first, so it is not a two-element structure
    [[(sibling_hash, puzzle_reveal), solution]]. *)
Lemma generate_proof_1_of_n_not_two_elements :
  exists proof,
    example_MofN_generate_proof 1 example_members example_one_spend = Ok proof
    /\ length (as_iter proof) = 3%nat
    /\ ~ two_element_proof (example_spend "A") proof.
Proof.
  eexists. split; [vm_compute; reflexivity|]. split; [reflexivity|].
  intros [sibling [H|H]]; cbn in H; discriminate H.
Qed.

Abbreviation example_no_spend := (∅ : gmap bytes32 ProvenSpend.t).

(** The example of C5: one spend for a 2-of-3. *)
Lemma generate_proof_size_check_witness :
  example_MofN_nodes example_members = Ok example_nodes
  /\ Z.of_nat (size example_one_spend) <> 2
  /\ example_MofN_generate_proof 2 example_members example_one_spend
     = Err AssertionError.
Proof.
  split; [exact example_nodes_eq|].
  assert (Z.of_nat (size example_one_spend) <> 2) as Hsize.
  { rewrite example_one_spend_size. lia. }
  split; [exact Hsize|].
  exact (proj1 (generate_proof_size_check example_sha256
                  example_sha256_bytes32 example_MofN_MOD example_OneOfN_MOD
                  example_RESTRICTION_MOD example_calculate_root
                  example_generate_proof 2 example_members example_nodes
                  example_one_spend example_nodes_eq) Hsize).
Defined.

(** C5 as stated fails for [m = 0]: a 0-of-3 is accepted by the
    constructor, the empty map has as many entries as [m], and
    [generate_proof] raises [IndexError] instead of producing a proof. *)
Lemma generate_proof_zero_of_n :
  example_MofN_new 0 example_members = Ok (MofN 0 example_members)
  /\ Z.of_nat (size example_no_spend) = 0
  /\ example_MofN_generate_proof 0 example_members example_no_spend
     = Err IndexError
  /\ ~ is_Ok (example_MofN_generate_proof 0 example_members example_no_spend).
Proof.
  split; [exact (MofN_new_NoDup _ _ _ _ _ 0 example_members example_nodes
                   example_nodes_eq example_nodes_NoDup)|].
  split; [reflexivity|].
  assert (example_MofN_generate_proof 0 example_members example_no_spend
          = Err IndexError) as Herr by reflexivity.
  split; [exact Herr|]. rewrite Herr. intros [proof Hproof]. discriminate Hproof.
Qed.

Abbreviation example_twins := [example_member "A"; example_member "A"].

Lemma example_twins_nodes :
  example_MofN_nodes example_twins = Ok [example_node "A"; example_node "A"].
Proof. vm_compute. reflexivity. Qed.

(** The example of C6: the members [[A; A]]. *)
Lemma MofN_new_duplicates_witness :
  example_MofN_nodes example_twins = Ok [example_node "A"; example_node "A"]
  /\ example_MofN_new 2 example_twins = Err ValueError.
Proof.
  split; [exact example_twins_nodes|].
  exact (proj1 (MofN_new_duplicates example_sha256 example_MofN_MOD
                  example_OneOfN_MOD example_RESTRICTION_MOD
                  example_calculate_root 2 example_twins
                  [example_node "A"; example_node "A"] example_twins_nodes)
           0%nat 1%nat (example_node "A") ltac:(lia) eq_refl eq_refl).
Defined.

(** The example of C10: a morpher hint. *)
Lemma RestrictionHint_roundtrip_witness :
  length (example_sha256 []) = 32%nat
  /\ RestrictionHint.from_program
       (RestrictionHint.to_program
          (RestrictionHint.mk true (example_sha256 []) (Program_to (PyStr "memo"))))
     = Ok (RestrictionHint.mk true (example_sha256 []) (Program_to (PyStr "memo"))).
Proof.
  split; [exact (example_sha256_bytes32 [])|].
  exact (RestrictionHint_roundtrip true (example_sha256 [])
           (Program_to (PyStr "memo")) (example_sha256_bytes32 [])).
Defined.

Abbreviation example_hash name := (known_puzzle_hash (example_puzzle name) 0).
Abbreviation example_unknown name :=
  (UnknownPuzzle (PuzzleHint.mk (example_hash name) (Program_to (PyStr name)))).
Abbreviation example_unknown_restriction name :=
  (UnknownRestriction
     (RestrictionHint.mk false (example_hash name) (Program_to (PyStr name)))).

(** A registry of one [Known] puzzle, under its hash. *)
Abbreviation example_registry :=
  ({[example_hash "X" := Known (example_puzzle "X")]} : gmap bytes32 Puzzle).

Abbreviation example_unfilled :=
  (PWR 3
     [Known (example_restriction true "morpher"); example_unknown_restriction "X"]
     (example_unknown "X")).

Abbreviation example_filled :=
  (PWR 3
     [Known (example_restriction true "morpher"); Known (example_puzzle "X")]
     (Known (example_puzzle "X"))).

Lemma example_registry_settled :
  settled_registry example_sha256 example_MofN_MOD example_OneOfN_MOD
    example_RESTRICTION_MOD example_calculate_root example_registry.
Proof.
  apply known_registry_settled. intros key entry Hentry.
  apply lookup_singleton_Some in Hentry as [_ <-]. now eexists.
Qed.

Lemma example_fill_in_eq :
  example_fill_in example_unfilled example_registry = Ok example_filled.
Proof.
  cbn [fill_in_unknown_puzzles fmap list_fmap PuzzleHint.puzhash
       RestrictionHint.puzhash].
  now rewrite !lookup_singleton_eq.
Qed.

(** The example of C7: filling in from a registry of one [Known] puzzle. *)
Lemma fill_in_unknown_puzzles_idempotent_witness :
  settled_registry example_sha256 example_MofN_MOD example_OneOfN_MOD
    example_RESTRICTION_MOD example_calculate_root example_registry
  /\ (t' ← example_fill_in example_unfilled example_registry;
      example_fill_in t' example_registry)
     = example_fill_in example_unfilled example_registry.
Proof.
  split; [exact example_registry_settled|].
  exact (fill_in_unknown_puzzles_idempotent example_sha256 example_MofN_MOD
           example_OneOfN_MOD example_RESTRICTION_MOD example_calculate_root
           example_registry example_unfilled example_registry_settled).
Defined.

(** A registry whose entry for the hash of [Y] is an unknown puzzle with
    the hash of [X], itself a key. *)
Abbreviation example_chain_registry :=
  (<[example_hash "Y" := example_unknown "X"]> example_registry
   : gmap bytes32 Puzzle).

Lemma example_hash_X_Y : example_hash "Y" <> example_hash "X".
Proof. apply (bool_decide_unpack _). vm_compute. exact I. Qed.

(** C7 as stated fails on that registry: the first pass puts the unknown
    puzzle of the registry in the tree and the second pass replaces it, so
    that filling in twice is not filling in once. *)
Lemma fill_in_unknown_puzzles_twice :
  example_fill_in (PWR 0 [] (example_unknown "Y")) example_chain_registry
  = Ok (PWR 0 [] (example_unknown "X"))
  /\ example_fill_in (PWR 0 [] (example_unknown "X")) example_chain_registry
     = Ok (PWR 0 [] (Known (example_puzzle "X")))
  /\ (t' ← example_fill_in (PWR 0 [] (example_unknown "Y"))
              example_chain_registry;
      example_fill_in t' example_chain_registry)
     <> example_fill_in (PWR 0 [] (example_unknown "Y")) example_chain_registry.
Proof.
  assert (example_fill_in (PWR 0 [] (example_unknown "Y"))
            example_chain_registry
          = Ok (PWR 0 [] (example_unknown "X"))) as Hfirst.
  { cbn [fill_in_unknown_puzzles fmap list_fmap PuzzleHint.puzhash].
    now rewrite lookup_insert_eq. }
  assert (example_fill_in (PWR 0 [] (example_unknown "X"))
            example_chain_registry
          = Ok (PWR 0 [] (Known (example_puzzle "X")))) as Hsecond.
  { cbn [fill_in_unknown_puzzles fmap list_fmap PuzzleHint.puzhash].
    rewrite lookup_insert_ne by exact example_hash_X_Y.
    now rewrite lookup_singleton_eq. }
  split; [exact Hfirst|]. split; [exact Hsecond|].
  rewrite Hfirst. cbn [mbind result_bind]. rewrite Hsecond.
  intros Heq. discriminate Heq.
Qed.

(** The example of C9: the morpher, a [Known] leaf, is kept and the two
    unknown leaves become the registry entry of their hash. *)
Lemma fill_in_unknown_puzzles_frame_witness :
  example_fill_in example_unfilled example_registry = Ok example_filled
  /\ filled example_registry example_unfilled example_filled
  /\ nonce example_filled = nonce example_unfilled
  /\ length (restrictions example_filled)
     = length (restrictions example_unfilled)
  /\ (forall i k, restrictions example_unfilled !! i = Some (Known k) ->
                  restrictions example_filled !! i = Some (Known k))
  /\ (forall k, puzzle example_unfilled = Known k ->
                puzzle example_filled = Known k).
Proof.
  split; [exact example_fill_in_eq|].
  exact (fill_in_unknown_puzzles_frame example_sha256 example_MofN_MOD
           example_OneOfN_MOD example_RESTRICTION_MOD example_calculate_root
           example_registry example_unfilled example_filled example_fill_in_eq).
Defined.

(** ** The further properties on the examples *)

Abbreviation example_fits :=
  (fits example_sha256 example_MofN_MOD example_OneOfN_MOD
     example_RESTRICTION_MOD example_calculate_root).
Abbreviation example_puzzle_reveal :=
  (puzzle_reveal example_sha256 example_MofN_MOD example_OneOfN_MOD
     example_RESTRICTION_MOD example_calculate_root).
Abbreviation example_Puzzle_puzzle_hash :=
  (Puzzle_puzzle_hash example_sha256 example_MofN_MOD example_OneOfN_MOD
     example_RESTRICTION_MOD example_calculate_root).

(** The example of X1: a puzzle hint. *)
Lemma PuzzleHint_roundtrip_witness :
  length (example_sha256 []) = 32%nat
  /\ PuzzleHint.from_program
       (PuzzleHint.to_program
          (PuzzleHint.mk (example_sha256 []) (Program_to (PyStr "memo"))))
     = Ok (PuzzleHint.mk (example_sha256 []) (Program_to (PyStr "memo"))).
Proof.
  split; [exact (example_sha256_bytes32 [])|].
  exact (PuzzleHint_roundtrip (example_sha256 []) (Program_to (PyStr "memo"))
           (example_sha256_bytes32 [])).
Defined.

(** A memo that [memo] does not write: the list of its restriction hints
    ends with an atom that is not nil. *)
Abbreviation example_foreign_memo :=
  (Pair (Program_to (PyStr spec_namespace))
     (Program_to
        (PyList [PyInt 3;
                 PyStr "no restriction";
                 PyInt 0;
                 PyProg (PuzzleHint.to_program
                           (PuzzleHint.mk (example_hash "X")
                              (Program_to (PyStr "X"))))]))).

Lemma example_foreign_memo_read :
  example_from_memo example_foreign_memo = Ok (PWR 3 [] (example_unknown "X")).
Proof. vm_compute. reflexivity. Qed.

Lemma example_foreign_memo_written :
  example_memo (PWR 3 [] (example_unknown "X")) <> Ok example_foreign_memo.
Proof. intros H. vm_compute in H. discriminate H. Qed.

(** The example of X5: the tree read from that memo. *)
Lemma from_memo_decoded_witness :
  example_from_memo example_foreign_memo = Ok (PWR 3 [] (example_unknown "X"))
  /\ decoded (PWR 3 [] (example_unknown "X"))
  /\ example_constructed (PWR 3 [] (example_unknown "X")).
Proof.
  split; [exact example_foreign_memo_read|].
  exact (from_memo_decoded example_sha256 example_MofN_MOD example_OneOfN_MOD
           example_RESTRICTION_MOD example_calculate_root example_foreign_memo
           (PWR 3 [] (example_unknown "X")) example_foreign_memo_read).
Defined.

(** The example of X6: the memo of the tree read from that memo is read
    back as the same tree. *)
Lemma from_memo_memo_from_memo_witness :
  example_from_memo example_foreign_memo = Ok (PWR 3 [] (example_unknown "X"))
  /\ exists mp,
       example_memo (PWR 3 [] (example_unknown "X")) = Ok mp
       /\ example_from_memo mp = Ok (PWR 3 [] (example_unknown "X")).
Proof.
  split; [exact example_foreign_memo_read|].
  exact (from_memo_memo_from_memo example_sha256 example_MofN_MOD
           example_OneOfN_MOD example_RESTRICTION_MOD example_calculate_root
           example_foreign_memo (PWR 3 [] (example_unknown "X"))
           example_foreign_memo_read).
Defined.

Lemma example_member_memoable (name : string) : memoable (example_member name).
Proof.
  constructor; [constructor|]. apply memoable_leaf. left.
  exists (example_puzzle name). split; [reflexivity|].
  apply example_puzzle_typed.
Qed.

Lemma example_tree_memoable : memoable example_tree.
Proof.
  constructor.
  - repeat (apply List.Forall_cons; [left; apply example_restriction_known|]).
    apply List.Forall_nil.
  - apply memoable_MofN.
    repeat (apply List.Forall_cons; [apply example_member_memoable|]).
    apply List.Forall_nil.
Qed.

(** The example of X7: the 2-of-3 under two restrictions. *)
Lemma memo_round_trip_forget_witness :
  memoable example_tree
  /\ example_constructed example_tree
  /\ exists mp,
       example_memo example_tree = Ok mp
       /\ example_from_memo mp = Ok (forget example_tree)
       /\ example_puzzle_hash (forget example_tree)
          = example_puzzle_hash example_tree.
Proof.
  split; [exact example_tree_memoable|].
  split; [exact example_tree_constructed|].
  exact (memo_round_trip_forget example_sha256 example_MofN_MOD
           example_OneOfN_MOD example_RESTRICTION_MOD example_calculate_root
           example_tree example_tree_memoable example_tree_constructed).
Defined.

Lemma example_leaf_fits :
  example_fits example_registry (PWR 0 [] (example_unknown "X")).
Proof.
  constructor; [constructor|]. apply fits_inner_leaf; [reflexivity|].
  intros h entry [= <-] Hentry. cbn [PuzzleHint.puzhash] in Hentry.
  apply lookup_singleton_Some in Hentry as [_ <-]. reflexivity.
Qed.

Lemma example_leaf_constructed :
  example_constructed (PWR 0 [] (example_unknown "X")).
Proof. repeat constructor. Qed.

(** The example of X8: an unknown leaf and the registry of its puzzle. *)
Lemma fill_in_unknown_puzzles_same_hash_witness :
  example_fits example_registry (PWR 0 [] (example_unknown "X"))
  /\ example_constructed (PWR 0 [] (example_unknown "X"))
  /\ exists t',
       example_fill_in (PWR 0 [] (example_unknown "X")) example_registry
       = Ok t'
       /\ example_puzzle_hash t'
          = example_puzzle_hash (PWR 0 [] (example_unknown "X")).
Proof.
  split; [exact example_leaf_fits|]. split; [exact example_leaf_constructed|].
  exact (fill_in_unknown_puzzles_same_hash example_sha256 example_MofN_MOD
           example_OneOfN_MOD example_RESTRICTION_MOD example_calculate_root
           example_registry (PWR 0 [] (example_unknown "X"))
           example_leaf_fits example_leaf_constructed).
Defined.

Abbreviation example_no_registry := (∅ : gmap bytes32 Puzzle).

Lemma example_unfilled_constructed : example_constructed example_unfilled.
Proof. repeat constructor. Qed.

Lemma example_no_registry_misses (h : bytes32) :
  is_Some (unknown_puzzles example_unfilled !! h) ->
  example_no_registry !! h = None.
Proof. intros _. apply lookup_empty. Qed.

(** The example of X9: the empty registry. *)
Lemma fill_in_unknown_puzzles_disjoint_witness :
  example_constructed example_unfilled
  /\ (forall h, is_Some (unknown_puzzles example_unfilled !! h) ->
                example_no_registry !! h = None)
  /\ example_fill_in example_unfilled example_no_registry
     = Ok example_unfilled.
Proof.
  split; [exact example_unfilled_constructed|].
  split; [exact example_no_registry_misses|].
  exact (fill_in_unknown_puzzles_disjoint example_sha256 example_MofN_MOD
           example_OneOfN_MOD example_RESTRICTION_MOD example_calculate_root
           example_no_registry example_unfilled example_unfilled_constructed
           example_no_registry_misses).
Defined.

(** The example of X11: after filling in from the registry of [X], the
    hash of [X] is no longer the hash of an unknown leaf. *)
Lemma fill_in_unknown_puzzles_complete_witness :
  settled_registry example_sha256 example_MofN_MOD example_OneOfN_MOD
    example_RESTRICTION_MOD example_calculate_root example_registry
  /\ example_fill_in example_unfilled example_registry = Ok example_filled
  /\ forall h, is_Some (unknown_puzzles example_filled !! h) ->
               example_registry !! h = None.
Proof.
  split; [exact example_registry_settled|]. split; [exact example_fill_in_eq|].
  exact (fill_in_unknown_puzzles_complete example_sha256 example_MofN_MOD
           example_OneOfN_MOD example_RESTRICTION_MOD example_calculate_root
           example_registry example_unfilled example_filled
           example_registry_settled example_fill_in_eq).
Defined.

Lemma example_nodes_not_nil : example_nodes <> [].
Proof. intros H. discriminate H. Qed.

(** The example of X12: the leaves [A; B; C] with [A] and [B] proven. *)
Lemma generate_m_of_n_proof_reveals_witness :
  (forall x, length (example_sha256 x) = 32%nat)
  /\ example_nodes <> []
  /\ exists proof,
       generate_m_of_n_proof example_sha256 example_nodes example_spends
       = Ok proof
       /\ count_reveals proof
          = length (proven_leaves example_spends example_nodes)
       /\ (is_Some (atom proof)
           <-> proven_leaves example_spends example_nodes = []).
Proof.
  split; [exact example_sha256_bytes32|]. split; [exact example_nodes_not_nil|].
  exact (generate_m_of_n_proof_reveals example_sha256 example_sha256_bytes32
           example_nodes example_spends example_nodes_not_nil).
Defined.

Lemma example_2_of_3_new :
  example_MofN_new 2 example_members = Ok (MofN 2 example_members).
Proof.
  exact (MofN_new_NoDup _ _ _ _ _ 2 example_members example_nodes
           example_nodes_eq example_nodes_NoDup).
Qed.

(** The example of X13: the 2-of-3 over [A; B; C] proving [A] and [B]. *)
Lemma generate_proof_reveals_m_witness :
  (forall x, length (example_sha256 x) = 32%nat)
  /\ 2 > 1
  /\ example_MofN_new 2 example_members = Ok (MofN 2 example_members)
  /\ example_MofN_nodes example_members = Ok example_nodes
  /\ (forall key, is_Some (example_spends !! key) -> key ∈ example_nodes)
  /\ Z.of_nat (size example_spends) = 2
  /\ exists proof,
       example_MofN_generate_proof 2 example_members example_spends = Ok proof
       /\ Z.of_nat (count_reveals proof) = 2.
Proof.
  split; [exact example_sha256_bytes32|]. split; [lia|].
  split; [exact example_2_of_3_new|]. split; [exact example_nodes_eq|].
  split; [exact example_spends_keys|]. split; [exact example_spends_size|].
  exact (generate_proof_reveals_m example_sha256 example_sha256_bytes32
           example_MofN_MOD example_OneOfN_MOD example_RESTRICTION_MOD
           example_calculate_root example_generate_proof 2 example_members
           example_nodes example_spends ltac:(lia) example_2_of_3_new
           example_nodes_eq example_spends_keys example_spends_size).
Defined.

(** The example of X14: the 1-of-3 over [A; B; C] proving [A], solved with
    a delegated puzzle and its solution. *)
Lemma solve_generate_proof_1_of_n_witness :
  example_MofN_nodes example_members = Ok example_nodes
  /\ size example_one_spend = 1%nat
  /\ example_one_spend !! example_node "A" = Some (example_spend "A")
  /\ example_generate_proof example_nodes (example_node "A")
     = Ok (PyInt 0,
           [PyList [PyBytes (example_node "B"); PyBytes (example_node "C")]])
  /\ (proof ← example_MofN_generate_proof 1 example_members example_one_spend;
      Ok (MofN_solve 1 proof (Program_to (PyStr "delegated puzzle"))
            (Program_to (PyStr "delegated solution"))))
     = Ok (Program_to
             (PyList [PyTuple (PyInt 0)
                        (PyList [PyBytes (example_node "B");
                                 PyBytes (example_node "C")]);
                      PyProg (ProvenSpend.puzzle_reveal (example_spend "A"));
                      PyProg (ProvenSpend.solution (example_spend "A"));
                      PyProg (Program_to (PyStr "delegated puzzle"));
                      PyProg (Program_to (PyStr "delegated solution"))])).
Proof.
  split; [exact example_nodes_eq|]. split; [exact example_one_spend_size|].
  split; [exact example_one_spend_lookup|]. split; [exact example_merkle_proof|].
  exact (solve_generate_proof_1_of_n example_sha256 example_MofN_MOD
           example_OneOfN_MOD example_RESTRICTION_MOD example_calculate_root
           example_generate_proof example_members example_nodes
           example_one_spend (example_node "A") (example_spend "A")
           (PyInt 0)
           (PyList [PyBytes (example_node "B"); PyBytes (example_node "C")]) []
           (Program_to (PyStr "delegated puzzle"))
           (Program_to (PyStr "delegated solution"))
           example_nodes_eq example_one_spend_size example_one_spend_lookup
           example_merkle_proof).
Defined.

Abbreviation example_revealed_tree :=
  (PWR 7 [Known (example_revealed (Some true) "morpher")]
     (Known (example_revealed None "X"))).

Abbreviation example_revealed_puzzle :=
  (curry INDEX_WRAPPER
     [PyInt 7;
      PyProg (curry example_RESTRICTION_MOD
                [PyList [PyProg (Program_to (PyList [PyStr "morpher"; PyInt 7]))];
                 PyList [];
                 PyProg (Program_to (PyList [PyStr "X"; PyInt 7]))])]).

Lemma example_revealed_consistent (k : KnownPuzzle) :
  Known k ∈ puzzle example_revealed_tree :: restrictions example_revealed_tree ->
  known_puzzle_hash k (nonce example_revealed_tree)
  = get_tree_hash example_sha256 (known_puzzle k (nonce example_revealed_tree)).
Proof.
  cbn [puzzle restrictions nonce]. intros Hin.
  apply elem_of_cons in Hin as [Hk|Hin]; [now injection Hk as ->|].
  apply list_elem_of_singleton in Hin. now injection Hin as ->.
Qed.

Lemma example_nonce_short :
  length (int_to_bytes (nonce example_revealed_tree)) <> 32%nat.
Proof. intros H. vm_compute in H. discriminate H. Qed.

Lemma example_revealed_puzzle_eq :
  example_puzzle_reveal example_revealed_tree = Ok example_revealed_puzzle.
Proof. vm_compute. reflexivity. Qed.

(** The example of X15: a puzzle under a morpher, at nonce 7. *)
Lemma puzzle_hash_of_puzzle_reveal_witness :
  (forall x, length (example_sha256 x) = 32%nat)
  /\ (forall k,
        Known k ∈ puzzle example_revealed_tree
                  :: restrictions example_revealed_tree ->
        known_puzzle_hash k (nonce example_revealed_tree)
        = get_tree_hash example_sha256
            (known_puzzle k (nonce example_revealed_tree)))
  /\ length (int_to_bytes (nonce example_revealed_tree)) <> 32%nat
  /\ example_puzzle_reveal example_revealed_tree = Ok example_revealed_puzzle
  /\ example_puzzle_hash example_revealed_tree
     = Ok (get_tree_hash example_sha256 example_revealed_puzzle).
Proof.
  split; [exact example_sha256_bytes32|].
  split; [exact example_revealed_consistent|].
  split; [exact example_nonce_short|].
  split; [exact example_revealed_puzzle_eq|].
  exact (puzzle_hash_of_puzzle_reveal example_sha256 example_sha256_bytes32
           example_MofN_MOD example_OneOfN_MOD example_RESTRICTION_MOD
           example_calculate_root example_revealed_tree example_revealed_puzzle
           example_revealed_consistent example_nonce_short
           example_revealed_puzzle_eq).
Defined.

Abbreviation example_restricted_inner_puzzle_hash :=
  (restricted_inner_puzzle_hash example_sha256 example_MofN_MOD
     example_OneOfN_MOD example_RESTRICTION_MOD example_calculate_root).

(** The same custody arrangement, a puzzle under a morpher, at the nonces
    1 and 2. *)
Abbreviation example_arrangement nonce :=
  (PWR nonce [Known (example_restriction true "morpher")]
     (Known (example_puzzle "X"))).

Abbreviation example_restricted nonce :=
  (restriction_wrap_hash example_sha256 example_RESTRICTION_MOD
     [known_puzzle_hash (example_restriction true "morpher") nonce] []
     (known_puzzle_hash (example_puzzle "X") nonce)).

Lemma example_nonce_1_2 :
  nonce (example_arrangement 1) <> nonce (example_arrangement 2).
Proof. intros H. discriminate H. Qed.

Lemma example_nonce_1_short :
  length (int_to_bytes (nonce (example_arrangement 1))) <> 32%nat.
Proof. intros H. vm_compute in H. discriminate H. Qed.

Lemma example_nonce_2_short :
  length (int_to_bytes (nonce (example_arrangement 2))) <> 32%nat.
Proof. intros H. vm_compute in H. discriminate H. Qed.

Lemma example_restricted_eq (nonce : Z) :
  example_restricted_inner_puzzle_hash (example_arrangement nonce)
  = Ok (example_restricted nonce).
Proof. reflexivity. Qed.

Lemma example_restricted_length (nonce : Z) :
  length (example_restricted nonce) = 32%nat.
Proof.
  apply (restriction_wrap_hash_length example_sha256 example_sha256_bytes32).
Qed.

(** The example hash takes no two inputs of the two index wraps to the
    same value. *)
Lemma example_wraps_collision_free :
  collision_free example_sha256
    (wrap_inputs example_sha256 (nonce (example_arrangement 1))
       (example_restricted 1)
     ++ wrap_inputs example_sha256 (nonce (example_arrangement 2))
          (example_restricted 2)).
Proof.
  apply collision_free_test_free. apply (bool_decide_unpack _).
  vm_compute. exact I.
Qed.

(** The example of X16: the puzzle hashes of that arrangement at the
    nonces 1 and 2 differ. *)
Lemma nonce_changes_puzzle_hash_witness :
  (forall x, length (example_sha256 x) = 32%nat)
  /\ nonce (example_arrangement 1) <> nonce (example_arrangement 2)
  /\ length (int_to_bytes (nonce (example_arrangement 1))) <> 32%nat
  /\ length (int_to_bytes (nonce (example_arrangement 2))) <> 32%nat
  /\ example_restricted_inner_puzzle_hash (example_arrangement 1)
     = Ok (example_restricted 1)
  /\ example_restricted_inner_puzzle_hash (example_arrangement 2)
     = Ok (example_restricted 2)
  /\ length (example_restricted 1) = 32%nat
  /\ length (example_restricted 2) = 32%nat
  /\ collision_free example_sha256
       (wrap_inputs example_sha256 (nonce (example_arrangement 1))
          (example_restricted 1)
        ++ wrap_inputs example_sha256 (nonce (example_arrangement 2))
             (example_restricted 2))
  /\ exists h h',
       example_puzzle_hash (example_arrangement 1) = Ok h
       /\ example_puzzle_hash (example_arrangement 2) = Ok h'
       /\ h <> h'.
Proof.
  split; [exact example_sha256_bytes32|]. split; [exact example_nonce_1_2|].
  split; [exact example_nonce_1_short|]. split; [exact example_nonce_2_short|].
  split; [exact (example_restricted_eq 1)|].
  split; [exact (example_restricted_eq 2)|].
  split; [exact (example_restricted_length 1)|].
  split; [exact (example_restricted_length 2)|].
  split; [exact example_wraps_collision_free|].
  exact (nonce_changes_puzzle_hash example_sha256 example_sha256_bytes32
           example_MofN_MOD example_OneOfN_MOD example_RESTRICTION_MOD
           example_calculate_root (example_arrangement 1)
           (example_arrangement 2) (example_restricted 1)
           (example_restricted 2) example_nonce_1_2 example_nonce_1_short
           example_nonce_2_short (example_restricted_eq 1)
           (example_restricted_eq 2) (example_restricted_length 1)
           (example_restricted_length 2) example_wraps_collision_free).
Defined.

(** The example of X17: a morpher and a validator over the puzzle [X]. *)
Lemma restrictions_order_witness :
  morpher_not_validator (Known (example_restriction true "morpher")) = Ok true
  /\ morpher_not_validator (Known (example_restriction false "validator"))
     = Ok false
  /\ example_puzzle_hash
       (PWR 7 [Known (example_restriction true "morpher");
               Known (example_restriction false "validator")]
          (Known (example_puzzle "X")))
     = example_puzzle_hash
         (PWR 7 [Known (example_restriction false "validator");
                 Known (example_restriction true "morpher")]
            (Known (example_puzzle "X"))).
Proof.
  split; [reflexivity|]. split; [reflexivity|].
  exact (proj1 (restrictions_order example_sha256 example_MofN_MOD
                  example_OneOfN_MOD example_RESTRICTION_MOD
                  example_calculate_root 7 [] []
                  (Known (example_restriction true "morpher"))
                  (Known (example_restriction false "validator"))
                  (Known (example_puzzle "X")) eq_refl eq_refl)).
Defined.

Lemma example_known_leaf_memoable :
  memoable (PWR 0 [] (Known (example_puzzle "X"))).
Proof. apply (example_member_memoable "X"). Qed.

Lemma example_known_leaf_constructed :
  example_constructed (PWR 0 [] (Known (example_puzzle "X"))).
Proof. repeat constructor. Qed.

Lemma example_known_leaf_fits :
  example_fits example_registry (forget (PWR 0 [] (Known (example_puzzle "X")))).
Proof. exact example_leaf_fits. Qed.

(** The example of X18: the puzzle [X] through its memo and the registry
    of [X]. *)
Lemma memo_from_memo_fill_in_witness :
  memoable (PWR 0 [] (Known (example_puzzle "X")))
  /\ example_constructed (PWR 0 [] (Known (example_puzzle "X")))
  /\ example_fits example_registry
       (forget (PWR 0 [] (Known (example_puzzle "X"))))
  /\ exists mp t' t'',
       example_memo (PWR 0 [] (Known (example_puzzle "X"))) = Ok mp
       /\ example_from_memo mp = Ok t'
       /\ example_fill_in t' example_registry = Ok t''
       /\ example_puzzle_hash t''
          = example_puzzle_hash (PWR 0 [] (Known (example_puzzle "X"))).
Proof.
  split; [exact example_known_leaf_memoable|].
  split; [exact example_known_leaf_constructed|].
  split; [exact example_known_leaf_fits|].
  exact (memo_from_memo_fill_in example_sha256 example_MofN_MOD
           example_OneOfN_MOD example_RESTRICTION_MOD example_calculate_root
           example_registry (PWR 0 [] (Known (example_puzzle "X")))
           example_known_leaf_memoable example_known_leaf_constructed
           example_known_leaf_fits).
Defined.
